(** * Finit: pidfile watcher, plugin dispatcher, TTY registry and getty

    A shallow embedding of four translation units of Finit,

      - [plugins/pidfile.c]  (module [Pidfile]),
      - [plugin.c]           (module [Plugin]),
      - [tty.c]              (module [Tty]),
      - [getty.c]            (module [Getty]),

    with the properties their specification states about them and further
    properties read off the code.  The modules [CStr], [Queue] and
    [Fnmatch] hold what they share: the functions of the C library on
    strings, lists used as queues, and [fnmatch].

    C strings are [string]s, [int], [pid_t] and [uint32_t] values are [Z],
    a [NULL]-able pointer is an [option].  The BSD queue lists ([LIST],
    [TAILQ]) are [list]s in iteration order.  Code of other translation units
    (the condition engine, the service registry, the inotify wrapper) and
    the kernel are either parameters of a [Section] or small models that say
    so in their comment; what such a collaborator is asked to do is also
    recorded, in call order, in a trace. *)

From Stdlib Require Import ZArith List String Ascii Bool Arith Lia.
Import ListNotations.

Local Open Scope string_scope.
Local Open Scope list_scope.
Local Open Scope Z_scope.

(* ================================================================== *)
(** * C string functions *)
(* ================================================================== *)

Module CStr.

(** [strchr(s, c)] for [c <> 0]: the suffix that starts at the first [c]. *)
Fixpoint strchr (s : string) (c : ascii) : option string :=
  match s with
  | EmptyString => None
  | String a s' => if Ascii.eqb a c then Some s else strchr s' c
  end.

(** [strrchr(s, c)] for [c <> 0]: the suffix that starts at the last [c]. *)
Fixpoint strrchr (s : string) (c : ascii) : option string :=
  match s with
  | EmptyString => None
  | String a s' =>
      match strrchr s' c with
      | Some r => Some r
      | None => if Ascii.eqb a c then Some s else None
      end
  end.

(** [strstr(hay, needle)]: the suffix that starts at the first occurrence. *)
Fixpoint strstr (hay needle : string) : option string :=
  if String.prefix needle hay then Some hay
  else match hay with
       | EmptyString => None
       | String _ hay' => strstr hay' needle
       end.

(** [s + n] for a pointer into a string that has at least [n] characters. *)
Fixpoint advance (n : nat) (s : string) : string :=
  match n, s with
  | O, _ => s
  | S _, EmptyString => EmptyString
  | S n', String _ s' => advance n' s'
  end.

(** The first [n] characters, as [strlcpy] and [snprintf] keep them. *)
Fixpoint take (n : nat) (s : string) : string :=
  match n, s with
  | O, _ => EmptyString
  | S _, EmptyString => EmptyString
  | S n', String a s' => String a (take n' s')
  end.

(** [!strncmp(a, b, n)] *)
Definition strncmp_eq (a b : string) (n : nat) : bool :=
  String.eqb (take n a) (take n b).

(** [isdigit] *)
Definition isdigit (c : ascii) : bool :=
  let n := nat_of_ascii c in (48 <=? n)%nat && (n <=? 57)%nat.

(** The first character of a string, [s[0]]; [None] is the terminator. *)
Definition head (s : string) : option ascii :=
  match s with
  | EmptyString => None
  | String a _ => Some a
  end.

Definition is_delim (delims : string) (c : ascii) : bool :=
  match strchr delims c with Some _ => true | None => false end.

(** The tokens [strtok(s, delims)], [strtok(NULL, delims)], ... return:
    the maximal runs of characters that are not delimiters.  [cur] is the
    token being read, reversed. *)
Fixpoint strtok_all (delims : string) (cur : list ascii) (s : string)
  : list string :=
  let flush := match cur with
               | [] => []
               | _ => [string_of_list_ascii (rev cur)]
               end in
  match s with
  | EmptyString => flush
  | String a s' =>
      if is_delim delims a
      then flush ++ strtok_all delims [] s'
      else strtok_all delims (a :: cur) s'
  end.

Definition strtok (s delims : string) : list string := strtok_all delims [] s.

(** Does [s] end with [suffix]? *)
Definition ends_with (suffix s : string) : bool :=
  let n := String.length s in
  let m := String.length suffix in
  (m <=? n)%nat && String.eqb (advance (n - m) s) suffix.

(** How often [c] occurs in [s]. *)
Fixpoint count_char (c : ascii) (s : string) : nat :=
  match s with
  | EmptyString => O
  | String a s' => (if Ascii.eqb a c then 1 else 0) + count_char c s'
  end.

Lemma strchr_starts s c t :
  strchr s c = Some t -> exists t', t = String c t'.
Proof.
  induction s as [|a s IH]; simpl; [discriminate|].
  destruct (Ascii.eqb_spec a c) as [->|_].
  - intros [= <-]. now exists s.
  - exact IH.
Qed.

(** Searching again from where [strchr] stopped finds the same place. *)
Lemma strchr_again s c t :
  strchr s c = Some t -> strchr t c = Some t.
Proof.
  intros H. destruct (strchr_starts _ _ _ H) as [t' ->].
  simpl. now rewrite Ascii.eqb_refl.
Qed.

Lemma strchr_none_count s c :
  strchr s c = None <-> count_char c s = O.
Proof.
  induction s as [|a s IH]; simpl; [tauto|].
  destruct (Ascii.eqb a c); simpl; [split; discriminate | exact IH].
Qed.

Lemma strchr_some_count s c :
  (exists t, strchr s c = Some t) <-> (0 < count_char c s)%nat.
Proof.
  destruct (strchr s c) eqn:E.
  - split; [intros _|eauto].
    destruct (count_char c s) eqn:C; [|lia].
    apply strchr_none_count in C. congruence.
  - apply strchr_none_count in E. rewrite E.
    split; [intros [t [=]] | lia].
Qed.

End CStr.

(* ================================================================== *)
(** * Lists as queues and arrays *)
(* ================================================================== *)

Module Queue.

(** [p->field = ...] through a pointer to the element at index [i]. *)
Fixpoint update_nth {A} (i : nat) (f : A -> A) (l : list A) : list A :=
  match l, i with
  | [], _ => []
  | x :: l', O => f x :: l'
  | x :: l', S i' => x :: update_nth i' f l'
  end.

(** A pointer to, that is the index of, the first element that
    satisfies [p]. *)
Fixpoint find_index {A} (p : A -> bool) (l : list A) : option nat :=
  match l with
  | [] => None
  | x :: l' => if p x then Some O else option_map S (find_index p l')
  end.

(** [LIST_REMOVE] of the element at index [i]. *)
Fixpoint remove_nth {A} (i : nat) (l : list A) : list A :=
  match l, i with
  | [], _ => []
  | _ :: l', O => l'
  | x :: l', S i' => x :: remove_nth i' l'
  end.

Lemma find_index_some {A} (p : A -> bool) (l : list A) (i : nat) :
  find_index p l = Some i ->
  exists x, nth_error l i = Some x /\ p x = true.
Proof.
  revert i. induction l as [|a l IH]; simpl; intros i; [discriminate|].
  destruct (p a) eqn:Pa.
  - intros [= <-]. exists a. now split.
  - destruct (find_index p l) as [j|]; simpl; [|discriminate].
    intros [= <-]. exact (IH j eq_refl).
Qed.

Lemma find_index_none {A} (p : A -> bool) (l : list A) :
  find_index p l = None -> forall x, In x l -> p x = false.
Proof.
  induction l as [|a l IH]; simpl; intros H x; [contradiction|].
  destruct (p a) eqn:Pa; [discriminate|].
  destruct (find_index p l); [discriminate|].
  intros [<- | Hin]; [exact Pa | now apply IH].
Qed.

Lemma update_nth_length {A} (i : nat) (f : A -> A) (l : list A) :
  List.length (update_nth i f l) = List.length l.
Proof. revert i. induction l; intros [|i]; simpl; auto. Qed.

Lemma update_nth_map {A B} (g : A -> B) (i : nat) (f : A -> A) (l : list A) :
  (forall x, nth_error l i = Some x -> g (f x) = g x) ->
  map g (update_nth i f l) = map g l.
Proof.
  revert i. induction l as [|a l IH]; intros [|i] H; simpl; auto.
  - f_equal. now apply H.
  - f_equal. apply IH. intros x Hx. now apply H.
Qed.

Lemma nth_update_nth_same {A} (f : A -> A) (l : list A) (i : nat) (x : A) :
  nth_error l i = Some x ->
  nth_error (update_nth i f l) i = Some (f x).
Proof.
  revert i. induction l as [|a l IH]; intros [|i]; simpl; try discriminate.
  - now intros [= ->].
  - apply IH.
Qed.

Lemma nth_update_nth_other {A} (f : A -> A) (l : list A) (i j : nat) :
  i <> j -> nth_error (update_nth i f l) j = nth_error l j.
Proof.
  revert i j. induction l as [|a l IH]; intros [|i] [|j] H; simpl;
    try reflexivity; try contradiction.
  apply IH. intros ->. now apply H.
Qed.

Lemma In_update_nth {A} (i : nat) (f : A -> A) (l : list A) (x : A) :
  In x (update_nth i f l) ->
  (exists m, nth_error l i = Some m /\ x = f m) \/
  (exists j, j <> i /\ nth_error l j = Some x).
Proof.
  revert i. induction l as [|a l IH]; intros [|i]; cbn [update_nth In];
    try contradiction.
  - intros [<- | H].
    + left. exists a. now split.
    + right. apply In_nth_error in H. destruct H as (j & Hj).
      exists (S j). split; [discriminate | exact Hj].
  - intros [<- | H].
    + right. exists O. split; [discriminate | reflexivity].
    + apply IH in H. destruct H as [(m & Hm & ->) | (j & Hj & Hx)].
      * left. exists m. now split.
      * right. exists (S j). split; [lia | exact Hx].
Qed.

Lemma remove_nth_length {A} (i : nat) (l : list A) :
  (i < List.length l)%nat ->
  S (List.length (remove_nth i l)) = List.length l.
Proof.
  revert i. induction l as [|a l IH]; intros [|i]; simpl; intros H;
    try lia. f_equal. apply IH. lia.
Qed.

Lemma remove_nth_before {A} (i j : nat) (l : list A) :
  (j < i)%nat -> nth_error (remove_nth i l) j = nth_error l j.
Proof.
  revert i j. induction l as [|a l IH]; intros [|i] [|j] H; simpl;
    try reflexivity; try lia.
  apply IH. lia.
Qed.

Lemma remove_nth_after {A} (i j : nat) (l : list A) :
  (i <= j)%nat -> nth_error (remove_nth i l) j = nth_error l (S j).
Proof.
  revert i j. induction l as [|a l IH]; intros i j H.
  - now destruct i, j.
  - destruct i as [|i]; [reflexivity|].
    destruct j as [|j]; [lia|]. cbn [remove_nth nth_error].
    apply IH. lia.
Qed.

Lemma remove_nth_incl {A} (i : nat) (l : list A) (x : A) :
  In x (remove_nth i l) -> In x l.
Proof.
  revert i. induction l as [|a l IH]; intros [|i]; simpl; auto.
  intros [H | H]; [now left | right; now apply (IH i)].
Qed.

Lemma remove_nth_NoDup {A} (i : nat) (l : list A) :
  NoDup l -> NoDup (remove_nth i l).
Proof.
  revert i. induction l as [|a l IH]; intros [|i] H; simpl; auto;
    inversion H as [|? ? Hn Hl]; subst; auto.
  constructor; [|now apply IH].
  intros Hin. apply Hn. now apply remove_nth_incl in Hin.
Qed.

Lemma remove_nth_map {A B} (g : A -> B) (i : nat) (l : list A) :
  map g (remove_nth i l) = remove_nth i (map g l).
Proof.
  revert i. induction l as [|a l IH]; intros [|i]; simpl; auto.
  now rewrite IH.
Qed.

Lemma skipn_length_app {A} (l r : list A) :
  skipn (List.length l) (l ++ r) = r.
Proof. induction l; simpl; auto. Qed.

End Queue.

(* ================================================================== *)
(** * [fnmatch(3)] *)
(* ================================================================== *)

Module Fnmatch.

(** Pattern items of [fnmatch] with [flags = 0], without bracket
    expressions (the patterns of this program have none). *)
Inductive item : Type :=
| Star
| Quest
| Lit (c : ascii).

(** A backslash quotes the character after it. *)
Fixpoint parse (p : string) : list item :=
  match p with
  | EmptyString => []
  | String "\" (String c p') => Lit c :: parse p'
  | String "*" p' => Star :: parse p'
  | String "?" p' => Quest :: parse p'
  | String c p' => Lit c :: parse p'
  end.

Fixpoint matches (p : list item) (s : string) : bool :=
  match p with
  | [] => match s with EmptyString => true | _ => false end
  | Lit c :: p' =>
      match s with
      | String a s' => Ascii.eqb a c && matches p' s'
      | EmptyString => false
      end
  | Quest :: p' =>
      match s with
      | String _ s' => matches p' s'
      | EmptyString => false
      end
  | Star :: p' =>
      (fix star (t : string) : bool :=
         matches p' t ||
         match t with
         | String _ t' => star t'
         | EmptyString => false
         end) s
  end.

Definition FNM_NOMATCH : Z := 1.

(** [fnmatch(pattern, string, 0)]: zero on a match. *)
Definition fnmatch (pattern s : string) : Z :=
  if matches (parse pattern) s then 0 else FNM_NOMATCH.

End Fnmatch.

(* ================================================================== *)
(** * The pidfile watcher, [plugins/pidfile.c] *)
(* ================================================================== *)

Module Pidfile.
Import CStr Fnmatch Queue.

(** Event bits of [<sys/inotify.h>]. *)
Definition IN_MODIFY   : Z := 0x00000002.
Definition IN_ATTRIB   : Z := 0x00000004.
Definition IN_MOVED_TO : Z := 0x00000080.
Definition IN_CREATE   : Z := 0x00000100.
Definition IN_DELETE   : Z := 0x00000200.
Definition IN_ONLYDIR  : Z := 0x01000000.
Definition IN_ISDIR    : Z := 0x40000000.

(** [PATH_MAX] of [<limits.h>]. *)
Definition PATH_MAX : nat := 4096.

(** [mask & bits] used as a condition. *)
Definition isset (mask bits : Z) : bool := negb (Z.land mask bits =? 0).

(** The bits that make the watcher look at a pidfile. *)
Definition IN_TOUCHED : Z :=
  Z.lor (Z.lor (Z.lor IN_CREATE IN_ATTRIB) IN_MODIFY) IN_MOVED_TO.

(** [struct inotify_event]: watch descriptor, event mask and file name. *)
Record inotify_event : Type := mk_event {
  ev_wd   : Z;
  ev_mask : Z;
  ev_name : string
}.

(** [struct iwatch_path], of which the watcher reads [path]. *)
Record iwatch_path : Type := mk_iwp {
  iwp_wd   : Z;
  iwp_path : string
}.

(** Modelled from the spec: [cond.h] is not among the sources.  A condition
    is a tri-state flag, [ON], [OFF] or [FLUX]. *)
Inductive cond_state_t : Type := COND_OFF | COND_FLUX | COND_ON.

Definition cond_state_eqb (a b : cond_state_t) : bool :=
  match a, b with
  | COND_OFF, COND_OFF | COND_FLUX, COND_FLUX | COND_ON, COND_ON => true
  | _, _ => false
  end.

(** Modelled from the spec: [svc.h] is not among the sources.  The states of
    a record's state machine, as the spec lists them. *)
Inductive svc_state_t : Type :=
| SVC_HALTED_STATE
| SVC_CONDITIONAL_STATE
| SVC_SETUP_STATE
| SVC_STARTING_STATE
| SVC_RUNNING_STATE
| SVC_READY_STATE
| SVC_STOPPING_STATE
| SVC_HALTING_STATE
| SVC_CRASHED_STATE.

Definition is_running (s : svc_state_t) : bool :=
  match s with SVC_RUNNING_STATE => true | _ => false end.

(** Modelled from the spec: [svc.h] is not among the sources.  Of a service
    record the watcher reads [name], [cmd], [pid] and [state] and writes
    [pid]; the other fields stand for what the predicates
    [svc_is_forking], [svc_is_changed] and [svc_is_starting] and the helper
    [pid_file] answer for the record. *)
Record svc_t : Type := mk_svc {
  svc_name     : string;
  svc_cmd      : string;
  svc_pid      : Z;
  svc_state    : svc_state_t;
  svc_forking  : bool;
  svc_changed  : bool;
  svc_starting : bool;
  svc_pidfile  : string
}.

Definition svc_is_forking  (svc : svc_t) : bool := svc_forking svc.
Definition svc_is_changed  (svc : svc_t) : bool := svc_changed svc.
Definition svc_is_starting (svc : svc_t) : bool := svc_starting svc.
Definition pid_file        (svc : svc_t) : string := svc_pidfile svc.

Definition set_pid (pid : Z) (svc : svc_t) : svc_t :=
  mk_svc (svc_name svc) (svc_cmd svc) pid (svc_state svc) (svc_forking svc)
         (svc_changed svc) (svc_starting svc) (svc_pidfile svc).

(** Modelled from the spec: [svc_started] ends what [svc_is_starting]
    tests, the start-up phase of a record. *)
Definition svc_started (svc : svc_t) : svc_t :=
  mk_svc (svc_name svc) (svc_cmd svc) (svc_pid svc) (svc_state svc)
         (svc_forking svc) (svc_changed svc) false (svc_pidfile svc).

(** What [glob(3)] returns: success, [GLOB_NOMATCH], or another error. *)
Inductive glob_rc : Type := GLOB_OK | GLOB_NOMATCH | GLOB_ERROR.

Definition glob_failed (rc : glob_rc) : bool :=
  match rc with GLOB_ERROR => true | _ => false end.

(** Calls into the condition engine and the supervisor, in call order. *)
Inductive call : Type :=
| Cond_set (cond : string)
| Cond_clear (cond : string)
| Cond_set_path (path : string) (v : cond_state_t)
| Service_step_all (types : Z).

(** The text of [path] after its first [run/], and the number of slashes
    in such a remainder. *)
Definition after_run (path : string) : option string :=
  option_map (advance 4) (strstr path "run/").

Definition slashes (rest : string) : nat := count_char "/" rest.

(** The file names the watcher takes for pidfiles: [*.pid] and [pid]. *)
Definition pidfile_name (name : string) : Prop :=
  (exists stem, name = (stem ++ ".pid")%string) \/ name = "pid".

Section Watcher.

(** [iwatch.c] is not among the sources: the watch set and its operations
    are parameters.  [iwatch_add] returns its result and the new set. *)
Variable iwatch : Type.
Variable iwatch_add : iwatch -> string -> Z -> Z * iwatch.
Variable iwatch_del : iwatch -> iwatch_path -> iwatch.
Variable iwatch_find_by_wd : iwatch -> Z -> option iwatch_path.
Variable iwatch_find_by_path : iwatch -> string -> option iwatch_path.

(** The file system: what [glob] finds and what [pid_file_read] reads. *)
Variable glob : string -> glob_rc * list string.
Variable pid_file_read : string -> Z.

(** [mkcond] and [cond_path] of the condition engine: the name of the
    condition a service provides, [pid/<svc>], and the file that holds a
    condition. *)
Variable mkcond : svc_t -> string.
Variable cond_path : string -> string.

(** The type masks of [svc.h]. *)
Variable SVC_TYPE_SERVICE : Z.
Variable SVC_TYPE_RUNTASK : Z.

(** The state the watcher works on: its watch set [iw_pidfile], the service
    registry, the condition store and the trace of calls made. *)
Record world : Type := mk_world {
  iw_pidfile : iwatch;
  svcs       : list svc_t;
  conds      : string -> cond_state_t;
  trace      : list call
}.

Definition with_iw (iw : iwatch) (w : world) : world :=
  mk_world iw (svcs w) (conds w) (trace w).

Definition with_svcs (l : list svc_t) (w : world) : world :=
  mk_world (iw_pidfile w) l (conds w) (trace w).

(** Modelled from the spec: [cond.c] is not among the sources.  The store
    maps a condition, by the file that holds it, to its state; [set] makes
    it [ON] and [clear] makes it [OFF].  Every call is traced. *)
Definition store (p : string) (v : cond_state_t) (w : world) (c : call)
  : world :=
  mk_world (iw_pidfile w) (svcs w)
           (fun q => if String.eqb q p then v else conds w q)
           (trace w ++ [c]).

Definition cond_get (cond : string) (w : world) : cond_state_t :=
  conds w (cond_path cond).

Definition cond_set (cond : string) (w : world) : world :=
  store (cond_path cond) COND_ON w (Cond_set cond).

Definition cond_clear (cond : string) (w : world) : world :=
  store (cond_path cond) COND_OFF w (Cond_clear cond).

Definition cond_set_path (path : string) (v : cond_state_t) (w : world)
  : world :=
  store path v w (Cond_set_path path v).

(** [service.c] is not among the sources: a call of [service_step_all] is
    traced, what the state machine then does is outside this model. *)
Definition service_step_all (types : Z) (w : world) : world :=
  mk_world (iw_pidfile w) (svcs w) (conds w)
           (trace w ++ [Service_step_all types]).

(** Modelled from the spec: the registry's lookup by pidfile, as a pointer
    (an index) to the first record whose pidfile is [fn]. *)
Definition svc_find_by_pidfile (fn : string) (w : world) : option nat :=
  find_index (fun svc => String.eqb (pid_file svc) fn) (svcs w).

(** [pidfile_add_path]: [ptr = slash++] leaves [ptr] on the slash that was
    just found, which is where the second [strchr] starts. *)
Definition pidfile_add_path (iw : iwatch) (path : string) : Z * iwatch :=
  match strstr path "run/" with
  | Some ptr =>
      let ptr := advance 4 ptr in
      match strchr ptr "/" with
      | Some slash =>
          let ptr := slash in
          match strchr ptr "/" with
          | Some _ => (-1, iw)
          | None => iwatch_add iw path IN_ONLYDIR
          end
      | None => iwatch_add iw path IN_ONLYDIR
      end
  | None => iwatch_add iw path IN_ONLYDIR
  end.

(** [snprintf(fn, sizeof(fn), "%s/%s", dir, name)] *)
Definition path_of (size : nat) (dir name : string) : string :=
  take (size - 1) (dir ++ "/" ++ name)%string.

Definition pidfile_update_conds (dir name : string) (mask : Z) (w : world)
  : world :=
  let fn := path_of PATH_MAX dir name in
  if negb (fnmatch "*\.pid" fn =? 0) && negb (fnmatch "*/pid" fn =? 0)
  then w
  else
    match svc_find_by_pidfile fn w with
    | None => w
    | Some i =>
        match nth_error (svcs w) i with
        | None => w
        | Some svc =>
            let cond := mkcond svc in
            if isset mask IN_TOUCHED then
              let svc := svc_started svc in
              let svc :=
                if svc_is_forking svc then
                  let pid := pid_file_read (pid_file svc) in
                  set_pid pid svc
                else svc in
              cond_set cond (with_svcs (update_nth i (fun _ => svc) (svcs w)) w)
            else if isset mask IN_DELETE then cond_clear cond w
            else w
        end
    end.

(** [pidfile_scandir]: [path] has room for [len + 6] bytes. *)
Definition pidfile_scandir (dir : string) (len : Z) (w : world) : world :=
  let size := Z.to_nat (len + 6) in
  let '(rc, found) := glob (take (size - 1) (dir ++ "/*.pid")%string) in
  if glob_failed rc then w
  else
    let '(rc, more) := glob (take (size - 1) (dir ++ "/pid")%string) in
    if glob_failed rc then w
    else
      fold_left (fun w p => pidfile_update_conds dir p IN_CREATE w)
                (found ++ more) w.

Definition pidfile_handle_dir (dir name : string) (mask : Z) (w : world)
  : world :=
  let size := (String.length dir + String.length name + 2)%nat in
  let path := path_of size dir name in
  let iwp := iwatch_find_by_path (iw_pidfile w) path in
  if isset mask IN_CREATE then
    match iwp with
    | None =>
        let '(_, iw) := pidfile_add_path (iw_pidfile w) path in
        pidfile_scandir path (Z.of_nat size) (with_iw iw w)
    | Some _ => w
    end
  else if isset mask IN_DELETE then
    match iwp with
    | Some p => with_iw (iwatch_del (iw_pidfile w) p) w
    | None => w
    end
  else w.

(** The body of the loop of [pidfile_callback], for one event of the
    buffer. *)
Definition pidfile_callback_event (ev : inotify_event) (w : world) : world :=
  if ev_mask ev =? 0 then w
  else
    match iwatch_find_by_wd (iw_pidfile w) (ev_wd ev) with
    | None => w
    | Some iwp =>
        if isset (ev_mask ev) IN_ISDIR then
          pidfile_handle_dir (iwp_path iwp) (ev_name ev) (ev_mask ev) w
        else if isset (ev_mask ev) IN_DELETE then w
        else if isset (ev_mask ev) IN_TOUCHED then
          pidfile_update_conds (iwp_path iwp) (ev_name ev) (ev_mask ev) w
        else w
    end.

(** [pidfile_callback], given the events that [read] put in the buffer
    (none when the allocation or the read failed). *)
Definition pidfile_callback (buf : list inotify_event) (w : world) : world :=
  fold_left (fun w ev => pidfile_callback_event ev w) buf w.

(** The body of the loop of [pidfile_reconf], for one service. *)
Definition pidfile_reconf_svc (svc : svc_t) (w : world) : world :=
  if negb (is_running (svc_state svc)) then w
  else if svc_is_changed svc || svc_is_starting svc then w
  else
    let cond := mkcond svc in
    if cond_state_eqb (cond_get cond w) COND_ON then w
    else cond_set_path (cond_path cond) COND_ON w.

Definition pidfile_reconf (w : world) : world :=
  let w := fold_left (fun w svc => pidfile_reconf_svc svc w) (svcs w) w in
  service_step_all (Z.lor SVC_TYPE_SERVICE SVC_TYPE_RUNTASK) w.

(** The services whose condition the reassertion pass is to set: running,
    not changed, not starting, and with a condition that is not [ON]. *)
Definition reasserted (svc : svc_t) (w : world) : Prop :=
  svc_state svc = SVC_RUNNING_STATE /\
  svc_is_changed svc = false /\
  svc_is_starting svc = false /\
  cond_get (mkcond svc) w <> COND_ON.


(** The reading of the spec by which a [DELETE] event on the pidfile of a
    registered service clears the service's condition. *)
Definition delete_clears : Prop :=
  forall (w : world) (ev : inotify_event) (iwp : iwatch_path)
         (i : nat) (svc : svc_t),
    let fn := (iwp_path iwp ++ "/" ++ ev_name ev)%string in
    iwatch_find_by_wd (iw_pidfile w) (ev_wd ev) = Some iwp ->
    (String.length fn < PATH_MAX)%nat ->
    pidfile_name (ev_name ev) ->
    svc_find_by_pidfile fn w = Some i ->
    nth_error (svcs w) i = Some svc ->
    ev_mask ev = IN_DELETE ->
    let w' := pidfile_callback [ev] w in
    cond_get (mkcond svc) w' = COND_OFF \/
    In (Cond_clear (mkcond svc)) (trace w').


(** ** Properties of the watcher *)

Lemma add_path_slash iw path ptr slash :
  strstr path "run/" = Some ptr ->
  strchr (advance 4 ptr) "/" = Some slash ->
  pidfile_add_path iw path = (-1, iw).
Proof.
  intros Hrun Hslash. unfold pidfile_add_path.
  rewrite Hrun, Hslash. now rewrite (strchr_again _ _ _ Hslash).
Qed.

Lemma add_path_flat iw path ptr :
  strstr path "run/" = Some ptr ->
  strchr (advance 4 ptr) "/" = None ->
  pidfile_add_path iw path = iwatch_add iw path IN_ONLYDIR.
Proof.
  intros Hrun Hslash. unfold pidfile_add_path. now rewrite Hrun, Hslash.
Qed.

(** A path without [run/] is not examined at all. *)
Lemma add_path_elsewhere iw path :
  after_run path = None ->
  pidfile_add_path iw path = iwatch_add iw path IN_ONLYDIR.
Proof.
  unfold after_run, pidfile_add_path.
  destruct (strstr path "run/"); [discriminate | reflexivity].
Qed.


(** *** Matching and formatting *)

Lemma take_all (n : nat) (s : string) :
  (String.length s <= n)%nat -> take n s = s.
Proof.
  revert n. induction s as [|a s IH]; intros [|n]; simpl; intros H;
    try reflexivity; try lia.
  f_equal. apply IH. lia.
Qed.

Lemma path_of_fits (size : nat) (dir name : string) :
  (String.length (dir ++ "/" ++ name) < size)%nat ->
  path_of size dir name = (dir ++ "/" ++ name)%string.
Proof. intros H. unfold path_of. apply take_all. lia. Qed.

Lemma matches_star_here (p : list item) (s : string) :
  matches p s = true -> matches (Star :: p) s = true.
Proof. intros H. destruct s; simpl; now rewrite H. Qed.

Lemma matches_star_skip (p : list item) (a : ascii) (s : string) :
  matches (Star :: p) s = true -> matches (Star :: p) (String a s) = true.
Proof.
  intros H. change (matches (Star :: p) (String a s))
    with (matches p (String a s) || matches (Star :: p) s).
  rewrite H. apply orb_true_r.
Qed.

(** A star matches whatever stands before a match of the rest. *)
Lemma matches_star_app (p : list item) (pre s : string) :
  matches p s = true -> matches (Star :: p) (pre ++ s) = true.
Proof.
  intros H. induction pre as [|a pre IH].
  - now apply matches_star_here.
  - now apply matches_star_skip.
Qed.

Lemma append_assoc (a b c : string) :
  ((a ++ b) ++ c = a ++ (b ++ c))%string.
Proof. induction a; simpl; congruence. Qed.

(** The two patterns of [pidfile_update_conds] accept [dir/name] for the
    names [*.pid] and [pid]. *)
Lemma pidfile_name_matches (dir name : string) :
  pidfile_name name ->
  negb (fnmatch "*\.pid" (dir ++ "/" ++ name) =? 0)
  && negb (fnmatch "*/pid" (dir ++ "/" ++ name) =? 0) = false.
Proof.
  intros [[stem ->] | ->].
  - replace (dir ++ "/" ++ stem ++ ".pid")%string
      with ((dir ++ "/" ++ stem) ++ ".pid")%string
      by now rewrite !append_assoc.
    unfold fnmatch at 1.
    change (parse "*\.pid") with (Star :: parse "\.pid").
    now rewrite matches_star_app.
  - apply andb_false_intro2. unfold fnmatch.
    change (parse "*/pid") with (Star :: parse "/pid").
    now rewrite matches_star_app.
Qed.

Lemma isset_nonzero (mask bits : Z) :
  isset mask bits = true -> (mask =? 0) = false.
Proof.
  unfold isset. destruct (Z.eqb_spec mask 0) as [->|]; [|reflexivity].
  now rewrite Z.land_0_l.
Qed.

(** *** The handling of one pidfile *)

(** What [pidfile_update_conds] does for the pidfile of a registered
    service, by the bits of the mask. *)
Lemma update_conds_found (w : world) (dir name : string) (mask : Z)
      (i : nat) (svc : svc_t) :
  (String.length (dir ++ "/" ++ name) < PATH_MAX)%nat ->
  pidfile_name name ->
  svc_find_by_pidfile (dir ++ "/" ++ name) w = Some i ->
  nth_error (svcs w) i = Some svc ->
  pidfile_update_conds dir name mask w =
    if isset mask IN_TOUCHED then
      let svc' := if svc_is_forking svc
                  then set_pid (pid_file_read (pid_file svc)) (svc_started svc)
                  else svc_started svc in
      cond_set (mkcond svc)
               (with_svcs (update_nth i (fun _ => svc') (svcs w)) w)
    else if isset mask IN_DELETE then cond_clear (mkcond svc) w
    else w.
Proof.
  intros Hlen Hname Hfind Hnth. unfold pidfile_update_conds.
  rewrite (path_of_fits _ _ _ Hlen), (pidfile_name_matches _ _ Hname).
  now rewrite Hfind, Hnth.
Qed.

Lemma cond_get_set (cond : string) (w : world) :
  cond_get cond (cond_set cond w) = COND_ON.
Proof. unfold cond_get, cond_set, store. simpl. now rewrite String.eqb_refl. Qed.

Lemma cond_get_clear (cond : string) (w : world) :
  cond_get cond (cond_clear cond w) = COND_OFF.
Proof.
  unfold cond_get, cond_clear, store. simpl. now rewrite String.eqb_refl.
Qed.

(** C2, as the code has it.  An event on a watched directory, for a file
    that is not a directory, is named [*.pid] or [pid] and is the pidfile
    of a registered service: when its mask has one of [CREATE], [ATTRIB],
    [MODIFY], [MOVED_TO] and not [DELETE], the callback sets the service's
    condition; when its mask has [DELETE], the callback leaves the
    condition, and everything else, as it was. *)
Theorem pidfile_callback_sets_not_clears
        (w : world) (ev : inotify_event) (iwp : iwatch_path)
        (i : nat) (svc : svc_t) :
  let fn := (iwp_path iwp ++ "/" ++ ev_name ev)%string in
  iwatch_find_by_wd (iw_pidfile w) (ev_wd ev) = Some iwp ->
  isset (ev_mask ev) IN_ISDIR = false ->
  (String.length fn < PATH_MAX)%nat ->
  pidfile_name (ev_name ev) ->
  svc_find_by_pidfile fn w = Some i ->
  nth_error (svcs w) i = Some svc ->
  (isset (ev_mask ev) IN_TOUCHED = true ->
   isset (ev_mask ev) IN_DELETE = false ->
   let w' := pidfile_callback [ev] w in
   cond_get (mkcond svc) w' = COND_ON /\
   trace w' = trace w ++ [Cond_set (mkcond svc)]) /\
  (isset (ev_mask ev) IN_DELETE = true ->
   pidfile_callback [ev] w = w).
Proof.
  intros fn Hwd Hdir Hlen Hname Hfind Hnth.
  unfold pidfile_callback. cbn [fold_left].
  unfold pidfile_callback_event. rewrite Hwd, Hdir.
  split.
  - intros Htouch Hdel. rewrite (isset_nonzero _ _ Htouch), Hdel, Htouch.
    rewrite (update_conds_found w _ _ _ i svc Hlen Hname Hfind Hnth).
    rewrite Htouch. cbv zeta. split.
    + apply cond_get_set.
    + reflexivity.
  - intros Hdel. rewrite Hdel. now destruct (ev_mask ev =? 0).
Qed.


(** *** The reassertion pass *)

Lemma cond_state_eqb_eq (a b : cond_state_t) :
  cond_state_eqb a b = true <-> a = b.
Proof. destruct a, b; simpl; split; congruence. Qed.

Lemma is_running_eq (s : svc_state_t) :
  is_running s = true <-> s = SVC_RUNNING_STATE.
Proof. destruct s; simpl; split; congruence. Qed.

Lemma reasserted_dec (svc : svc_t) (w : world) :
  {reasserted svc w} + {~ reasserted svc w}.
Proof.
  unfold reasserted.
  destruct (is_running (svc_state svc)) eqn:R.
  2:{ right. intros (H & _). apply is_running_eq in H. congruence. }
  apply is_running_eq in R.
  destruct (svc_is_changed svc) eqn:C; [right; intros (_ & H & _); congruence|].
  destruct (svc_is_starting svc) eqn:S; [right; intros (_ & _ & H & _); congruence|].
  destruct (cond_state_eqb (cond_get (mkcond svc) w) COND_ON) eqn:E.
  - right. intros (_ & _ & _ & H). apply cond_state_eqb_eq in E. contradiction.
  - left. repeat split; auto. intros H. apply cond_state_eqb_eq in H. congruence.
Qed.

Lemma reconf_svc_sets (svc : svc_t) (w : world) :
  reasserted svc w ->
  pidfile_reconf_svc svc w = cond_set_path (cond_path (mkcond svc)) COND_ON w.
Proof.
  intros (R & C & S & G). unfold pidfile_reconf_svc.
  apply is_running_eq in R. rewrite R, C, S. cbn [negb orb].
  destruct (cond_state_eqb _ _) eqn:E; [|reflexivity].
  apply cond_state_eqb_eq in E. contradiction.
Qed.

Lemma reconf_svc_skips (svc : svc_t) (w : world) :
  ~ reasserted svc w -> pidfile_reconf_svc svc w = w.
Proof.
  intros N. unfold pidfile_reconf_svc.
  destruct (is_running (svc_state svc)) eqn:R; [|reflexivity].
  destruct (svc_is_changed svc) eqn:C; [reflexivity|].
  destruct (svc_is_starting svc) eqn:S; [reflexivity|].
  cbn [negb orb].
  destruct (cond_state_eqb _ _) eqn:E; [reflexivity|].
  exfalso. apply N. apply is_running_eq in R. repeat split; auto.
  intros H. apply cond_state_eqb_eq in H. congruence.
Qed.

Definition set_on (p : string) : call := Cond_set_path p COND_ON.

(** The loop of [pidfile_reconf] over a list of services: the paths it
    sets, in order, and the store it leaves. *)
Lemma reconf_loop (l : list svc_t) (w : world) :
  let w' := fold_left (fun w svc => pidfile_reconf_svc svc w) l w in
  exists paths : list string,
    trace w' = trace w ++ map set_on paths /\
    (forall p, In p paths <->
       exists svc, In svc l /\ p = cond_path (mkcond svc) /\ reasserted svc w) /\
    (forall q, In q paths -> conds w' q = COND_ON) /\
    (forall q, ~ In q paths -> conds w' q = conds w q) /\
    svcs w' = svcs w /\
    iw_pidfile w' = iw_pidfile w.
Proof.
  revert w. induction l as [|a l IH]; intros w; cbn [fold_left].
  - exists []. cbn [map In]. rewrite app_nil_r. repeat split; auto.
    + contradiction.
    + intros (svc & [] & _).
    + contradiction.
  - destruct (reasserted_dec a w) as [Y|N].
    + rewrite (reconf_svc_sets a w Y).
      set (p0 := cond_path (mkcond a)).
      set (w1 := cond_set_path p0 COND_ON w).
      destruct (IH w1) as (paths & Ht & Hin & Hon & Hoff & Hs & Hi).
      assert (Hc1 : forall q, conds w1 q = if String.eqb q p0 then COND_ON else conds w q)
        by reflexivity.
      exists (p0 :: paths). cbn [map]. repeat split.
      * rewrite Ht. unfold w1, cond_set_path, store. cbn [trace].
        now rewrite <- app_assoc.
      * intros [<- | Hp].
        -- exists a. split; [now left | split; [reflexivity | exact Y]].
        -- apply Hin in Hp. destruct Hp as (svc & Hl & -> & R & C & S & G).
           exists svc. split; [now right|]. split; [reflexivity|].
           split; [exact R|]. split; [exact C|]. split; [exact S|].
           intros Hon'. apply G. unfold cond_get in *. rewrite Hc1.
           now destruct (String.eqb _ p0).
      * intros (svc & [<- | Hl] & -> & Hr); [now left|].
        destruct (String.eqb_spec (cond_path (mkcond svc)) p0) as [E|E].
        -- left. now rewrite E.
        -- right. apply Hin. exists svc. split; [exact Hl|].
           split; [reflexivity|].
           destruct Hr as (R & C & S & G).
           split; [exact R|]. split; [exact C|]. split; [exact S|].
           unfold cond_get in *.
           rewrite Hc1. destruct (String.eqb_spec (cond_path (mkcond svc)) p0);
             [contradiction | exact G].
      * intros q Hq. destruct (in_dec string_dec q paths) as [I|I].
        -- now apply Hon.
        -- rewrite (Hoff q I), Hc1. destruct Hq as [<- | Hq]; [|contradiction].
           now rewrite String.eqb_refl.
      * intros q Hq. rewrite Hoff by (intros I; apply Hq; now right).
        rewrite Hc1. destruct (String.eqb_spec q p0) as [->|]; [|reflexivity].
        exfalso. apply Hq. now left.
      * now rewrite Hs.
      * now rewrite Hi.
    + rewrite (reconf_svc_skips a w N).
      destruct (IH w) as (paths & Ht & Hin & Hon & Hoff & Hs & Hi).
      exists paths. repeat split; auto.
      * intros Hp. apply Hin in Hp. destruct Hp as (svc & Hl & Hp).
        exists svc. split; [now right | exact Hp].
      * intros (svc & [<- | Hl] & Hp & Hr); [contradiction|].
        apply Hin. now exists svc.
Qed.

(** C4. In the pass of [pidfile_reconf] the condition of a service is set
    to [ON] exactly when the service is running, not changed, not starting
    and its condition is not [ON] yet; any other service is skipped, the
    world staying as it is.  Over the whole pass the conditions set are those
    of the services of the registry that pass the tests, nothing else is
    done to the store or the registry, and the pass ends with
    [service_step_all] on services and run/tasks. *)
Theorem pidfile_reconf_reasserts (w : world) :
  (forall svc w0,
      (reasserted svc w0 ->
       pidfile_reconf_svc svc w0 =
         cond_set_path (cond_path (mkcond svc)) COND_ON w0) /\
      (~ reasserted svc w0 -> pidfile_reconf_svc svc w0 = w0)) /\
  exists paths : list string,
    trace (pidfile_reconf w) =
      trace w ++ map set_on paths
              ++ [Service_step_all (Z.lor SVC_TYPE_SERVICE SVC_TYPE_RUNTASK)] /\
    (forall p, In p paths <->
       exists svc, In svc (svcs w) /\ p = cond_path (mkcond svc) /\
                   reasserted svc w) /\
    (forall q, In q paths -> conds (pidfile_reconf w) q = COND_ON) /\
    (forall q, ~ In q paths -> conds (pidfile_reconf w) q = conds w q) /\
    svcs (pidfile_reconf w) = svcs w.
Proof.
  split.
  - intros svc w0. split; [apply reconf_svc_sets | apply reconf_svc_skips].
  - destruct (reconf_loop (svcs w) w) as (paths & Ht & Hin & Hon & Hoff & Hs & _).
    exists paths. unfold pidfile_reconf, service_step_all.
    cbn [trace conds svcs]. repeat split; auto.
    + rewrite Ht. now rewrite <- app_assoc.
    + apply Hin.
    + apply Hin.
Qed.

(** ** More about the watcher *)

(** *** What the two patterns accept *)

Lemma matches_star_inv (p : list item) (s : string) :
  matches (Star :: p) s = true ->
  exists pre t, s = (pre ++ t)%string /\ matches p t = true.
Proof.
  induction s as [|a s IH].
  - cbn. rewrite orb_false_r. intros H. now exists EmptyString, EmptyString.
  - change (matches (Star :: p) (String a s))
      with (matches p (String a s) || matches (Star :: p) s).
    intros H. apply orb_prop in H as [H | H].
    + now exists EmptyString, (String a s).
    + destruct (IH H) as (pre & t & -> & Ht). now exists (String a pre), t.
Qed.

Lemma matches_lits (cs : list ascii) (s : string) :
  matches (map Lit cs) s = true -> s = string_of_list_ascii cs.
Proof.
  revert s. induction cs as [|c cs IH]; intros [|a s]; cbn;
    try discriminate; [reflexivity|].
  intros H. apply andb_prop in H as [Ha Hs].
  apply Ascii.eqb_eq in Ha. subst a. f_equal. now apply IH.
Qed.

Lemma append_length (s t : string) :
  String.length (s ++ t) = (String.length s + String.length t)%nat.
Proof. induction s as [|a s IH]; cbn; [reflexivity | now rewrite IH]. Qed.

Lemma advance_app (pre s : string) :
  advance (String.length pre) (pre ++ s) = s.
Proof. induction pre as [|a pre IH]; [now destruct s | exact IH]. Qed.

Lemma ends_with_app (pre suffix : string) :
  ends_with suffix (pre ++ suffix) = true.
Proof.
  unfold ends_with. rewrite append_length.
  replace (String.length pre + String.length suffix - String.length suffix)%nat
    with (String.length pre) by lia.
  rewrite advance_app, String.eqb_refl, andb_true_r.
  apply Nat.leb_le. lia.
Qed.

(** The two patterns of [pidfile_update_conds] accept exactly the paths
    that end in [.pid] or in [/pid]. *)
Lemma patterns_accept (fn : string) :
  negb (fnmatch "*\.pid" fn =? 0) && negb (fnmatch "*/pid" fn =? 0)
  = negb (ends_with ".pid" fn || ends_with "/pid" fn).
Proof.
  assert (P : forall cs,
             matches (Star :: map Lit cs) fn
             = ends_with (string_of_list_ascii cs) fn).
  { intros cs. destruct (matches (Star :: map Lit cs) fn) eqn:M.
    - apply matches_star_inv in M as (pre & t & -> & Ht).
      apply matches_lits in Ht. subst t. symmetry. apply ends_with_app.
    - destruct (ends_with (string_of_list_ascii cs) fn) eqn:E; [|reflexivity].
      unfold ends_with in E. apply andb_prop in E as [_ E].
      apply String.eqb_eq in E. rewrite <- M.
      set (k := (String.length fn
                 - String.length (string_of_list_ascii cs))%nat) in E.
      assert (S : forall k s, s = (take k s ++ advance k s)%string).
      { clear. induction k as [|k IH]; intros [|a s]; cbn; try reflexivity.
        now rewrite <- IH. }
      rewrite (S k fn), E. apply matches_star_app.
      clear. induction cs as [|c cs IH]; [reflexivity|].
      cbn. now rewrite Ascii.eqb_refl, IH. }
  unfold fnmatch.
  change (parse "*\.pid") with (Star :: map Lit ["."; "p"; "i"; "d"]%char).
  change (parse "*/pid") with (Star :: map Lit ["/"; "p"; "i"; "d"]%char).
  rewrite !P. cbn [string_of_list_ascii].
  now destruct (ends_with ".pid" fn), (ends_with "/pid" fn).
Qed.

(** X21. [pidfile_update_conds] does nothing for a file whose path ends
    neither in [.pid] nor in [/pid], whatever the mask and whether or not
    a service declares the file as its pidfile. *)
Theorem update_conds_only_pidfiles (dir name : string) (mask : Z) (w : world) :
  ends_with ".pid" (path_of PATH_MAX dir name) = false ->
  ends_with "/pid" (path_of PATH_MAX dir name) = false ->
  pidfile_update_conds dir name mask w = w.
Proof.
  intros H1 H2. unfold pidfile_update_conds. cbv zeta.
  now rewrite patterns_accept, H1, H2.
Qed.

(** *** What the callback can do *)

Definition is_cond_set (c : call) : bool :=
  match c with Cond_set _ => true | _ => false end.

(** From [w] to [w']: the calls made are calls of [cond_set], no
    condition that was [ON] has left that state, and the registry holds
    the same services with the same pidfiles, in the same order. *)
Definition only_sets (w w' : world) : Prop :=
  (exists calls, trace w' = trace w ++ calls /\
                 forallb is_cond_set calls = true) /\
  (forall q, conds w q = COND_ON -> conds w' q = COND_ON) /\
  map svc_name (svcs w') = map svc_name (svcs w) /\
  map pid_file (svcs w') = map pid_file (svcs w).

Lemma only_sets_refl (w : world) : only_sets w w.
Proof.
  split; [exists []; now rewrite app_nil_r | now repeat split].
Qed.

Lemma only_sets_trans (w1 w2 w3 : world) :
  only_sets w1 w2 -> only_sets w2 w3 -> only_sets w1 w3.
Proof.
  intros ((c1 & T1 & F1) & C1 & N1 & P1) ((c2 & T2 & F2) & C2 & N2 & P2).
  split; [|repeat split; try congruence; auto].
  exists (c1 ++ c2). rewrite T2, T1, <- app_assoc. split; [reflexivity|].
  now rewrite forallb_app, F1, F2.
Qed.

Lemma only_sets_iw (iw : iwatch) (w : world) : only_sets w (with_iw iw w).
Proof.
  split; [exists []; cbn; now rewrite app_nil_r | now repeat split].
Qed.

Lemma update_conds_sets (dir name : string) (mask : Z) (w : world) :
  isset mask IN_TOUCHED = true ->
  only_sets w (pidfile_update_conds dir name mask w).
Proof.
  intros Hm. unfold pidfile_update_conds. cbv zeta.
  destruct (negb _ && negb _); [apply only_sets_refl|].
  destruct (svc_find_by_pidfile _ w) as [i|]; [|apply only_sets_refl].
  destruct (nth_error (svcs w) i) as [svc|] eqn:Hn; [|apply only_sets_refl].
  rewrite Hm. unfold cond_set, store, with_svcs.
  cbn [trace conds svcs iw_pidfile]. split; [|split; [|split]].
  - eexists. split; reflexivity.
  - intros q Hq. cbn [conds].
    now destruct (String.eqb q (cond_path (mkcond svc))).
  - apply update_nth_map. intros x Hx.
    assert (x = svc) as -> by congruence.
    now destruct (svc_is_forking (svc_started svc)).
  - apply update_nth_map. intros x Hx.
    assert (x = svc) as -> by congruence.
    now destruct (svc_is_forking (svc_started svc)).
Qed.

Lemma scandir_sets (dir : string) (len : Z) (w : world) :
  only_sets w (pidfile_scandir dir len w).
Proof.
  unfold pidfile_scandir. cbv zeta.
  destruct (glob _) as [rc found].
  destruct (glob_failed rc); [apply only_sets_refl|].
  destruct (glob _) as [rc' more].
  destruct (glob_failed rc'); [apply only_sets_refl|].
  generalize (found ++ more) as l. intros l. revert w.
  induction l as [|p l IH]; intros w; cbn [fold_left];
    [apply only_sets_refl|].
  eapply only_sets_trans; [|apply IH].
  now apply update_conds_sets.
Qed.

Lemma handle_dir_sets (dir name : string) (mask : Z) (w : world) :
  only_sets w (pidfile_handle_dir dir name mask w).
Proof.
  unfold pidfile_handle_dir. cbv zeta.
  destruct (isset mask IN_CREATE).
  - destruct (iwatch_find_by_path _ _); [apply only_sets_refl|].
    destruct (pidfile_add_path _ _) as [rc iw].
    eapply only_sets_trans; [apply (only_sets_iw iw) | apply scandir_sets].
  - destruct (isset mask IN_DELETE); [|apply only_sets_refl].
    destruct (iwatch_find_by_path _ _);
      [apply only_sets_iw | apply only_sets_refl].
Qed.

Lemma callback_sets (buf : list inotify_event) (w : world) :
  only_sets w (pidfile_callback buf w).
Proof.
  unfold pidfile_callback. revert w.
  induction buf as [|ev buf IH]; intros w; cbn [fold_left];
    [apply only_sets_refl|].
  eapply only_sets_trans; [|apply IH].
  unfold pidfile_callback_event.
  destruct (ev_mask ev =? 0); [apply only_sets_refl|].
  destruct (iwatch_find_by_wd _ _) as [iwp|]; [|apply only_sets_refl].
  destruct (isset (ev_mask ev) IN_ISDIR); [apply handle_dir_sets|].
  destruct (isset (ev_mask ev) IN_DELETE); [apply only_sets_refl|].
  destruct (isset (ev_mask ev) IN_TOUCHED) eqn:T; [|apply only_sets_refl].
  now apply update_conds_sets.
Qed.

(** X22. Whatever events the callback reads, the only calls it makes
    into the condition engine are calls of [cond_set]: it never clears a
    condition, no condition that is [ON] leaves that state, and the
    registry keeps its services, with their names and pidfiles, in their
    order. *)
Theorem pidfile_callback_only_sets (buf : list inotify_event) (w : world) :
  let w' := pidfile_callback buf w in
  (exists calls, trace w' = trace w ++ calls /\
                 forall c, In c calls -> exists cond, c = Cond_set cond) /\
  (forall q, conds w q = COND_ON -> conds w' q = COND_ON) /\
  map svc_name (svcs w') = map svc_name (svcs w) /\
  map pid_file (svcs w') = map pid_file (svcs w).
Proof.
  cbv zeta. destruct (callback_sets buf w) as ((calls & T & F) & R).
  split; [|exact R]. exists calls. split; [exact T|].
  intros c Hc. rewrite forallb_forall in F. specialize (F c Hc).
  destruct c; try discriminate. now eexists.
Qed.

(** *** The scan of a new directory *)


(** *** A second reassertion pass *)



(** *** New directories *)

Lemma update_conds_iw (dir name : string) (mask : Z) (w : world) :
  iw_pidfile (pidfile_update_conds dir name mask w) = iw_pidfile w.
Proof.
  unfold pidfile_update_conds. cbv zeta.
  destruct (negb _ && negb _); [reflexivity|].
  destruct (svc_find_by_pidfile _ w) as [i|]; [|reflexivity].
  destruct (nth_error (svcs w) i) as [svc|]; [|reflexivity].
  destruct (isset mask IN_TOUCHED); [reflexivity|].
  now destruct (isset mask IN_DELETE).
Qed.

Lemma scandir_iw (dir : string) (len : Z) (w : world) :
  iw_pidfile (pidfile_scandir dir len w) = iw_pidfile w.
Proof.
  unfold pidfile_scandir. cbv zeta.
  destruct (glob _) as [rc found].
  destruct (glob_failed rc); [reflexivity|].
  destruct (glob _) as [rc' more].
  destruct (glob_failed rc'); [reflexivity|].
  generalize (found ++ more) as l. intros l. revert w.
  induction l as [|p l IH]; intros w; cbn [fold_left]; [reflexivity|].
  now rewrite IH, update_conds_iw.
Qed.

(** X29. When a directory is created in a watched directory and is not
    watched yet, [pidfile_handle_dir] scans it for pidfiles in either
    case, but it adds it to the watch set only when its path has no slash
    behind the first [run/]: for a directory further down the watch set
    stays as it was. *)
Theorem handle_dir_watches_one_level
        (dir name rest : string) (mask : Z) (w : world) :
  let path := (dir ++ "/" ++ name)%string in
  let size := (String.length dir + String.length name + 2)%nat in
  isset mask IN_CREATE = true ->
  iwatch_find_by_path (iw_pidfile w) path = None ->
  after_run path = Some rest ->
  ((0 < slashes rest)%nat ->
   pidfile_handle_dir dir name mask w
   = pidfile_scandir path (Z.of_nat size) w) /\
  (slashes rest = 0%nat ->
   let added := iwatch_add (iw_pidfile w) path IN_ONLYDIR in
   pidfile_handle_dir dir name mask w
   = pidfile_scandir path (Z.of_nat size) (with_iw (snd added) w) /\
   iw_pidfile (pidfile_handle_dir dir name mask w) = snd added).
Proof.
  cbv zeta. intros Hm Hf Hr.
  assert (P : path_of (String.length dir + String.length name + 2) dir name
              = (dir ++ "/" ++ name)%string).
  { apply path_of_fits. rewrite !append_length. cbn [String.length]. lia. }
  unfold pidfile_handle_dir. cbv zeta. rewrite P, Hm, Hf.
  unfold after_run in Hr.
  destruct (strstr (dir ++ "/" ++ name) "run/") as [ptr|] eqn:Hrun;
    [|discriminate].
  cbn [option_map] in Hr.
  assert (rest = advance 4 ptr) as -> by congruence.
  unfold slashes. split; intros Hs.
  - apply strchr_some_count in Hs. destruct Hs as [slash Hs].
    rewrite (add_path_slash _ _ ptr slash Hrun Hs).
    now destruct w.
  - apply strchr_none_count in Hs.
    rewrite (add_path_flat _ _ ptr Hrun Hs).
    destruct (iwatch_add (iw_pidfile w) (dir ++ "/" ++ name) IN_ONLYDIR)
      as [rc iw]. cbn [snd]. split; [reflexivity|].
    now rewrite scandir_iw.
Qed.

End Watcher.

(** ** A small system to run the watcher on

    The watch set is a list of watched paths, [/run] is watched under
    descriptor 1, and two services are registered: [sshd], which forks and
    writes [/run/sshd.pid], and [syslogd], which stays in the foreground. *)

Definition ex_iwatch : Type := list iwatch_path.

Definition ex_iwatch_add (iw : ex_iwatch) (path : string) (mask : Z)
  : Z * ex_iwatch :=
  (0, mk_iwp (Z.of_nat (List.length iw) + 1) path :: iw).

Definition ex_iwatch_del (iw : ex_iwatch) (iwp : iwatch_path) : ex_iwatch :=
  filter (fun p => negb (iwp_wd p =? iwp_wd iwp)) iw.

Definition ex_find_by_wd (iw : ex_iwatch) (wd : Z) : option iwatch_path :=
  find (fun p => iwp_wd p =? wd) iw.

Definition ex_find_by_path (iw : ex_iwatch) (path : string)
  : option iwatch_path :=
  find (fun p => String.eqb (iwp_path p) path) iw.

Definition ex_glob (pattern : string) : glob_rc * list string :=
  (GLOB_NOMATCH, []).

Definition ex_pid_file_read (path : string) : Z :=
  if String.eqb path "/run/sshd.pid" then 4711 else -1.

Definition ex_mkcond (svc : svc_t) : string := ("pid/" ++ svc_name svc)%string.

Definition ex_cond_path (cond : string) : string :=
  ("/run/finit/cond/" ++ cond)%string.

Definition ex_sshd : svc_t :=
  mk_svc "sshd" "/usr/sbin/sshd" 100 SVC_RUNNING_STATE true false false
         "/run/sshd.pid".

Definition ex_syslogd : svc_t :=
  mk_svc "syslogd" "/sbin/syslogd" 200 SVC_RUNNING_STATE false false false
         "/run/syslogd.pid".

(** The condition of [sshd] is [ON], every other one is [OFF]. *)
Definition ex_world : world ex_iwatch :=
  mk_world ex_iwatch [mk_iwp 1 "/run"] [ex_sshd; ex_syslogd]
           (fun q => if String.eqb q "/run/finit/cond/pid/sshd"
                     then COND_ON else COND_OFF)
           [].

Definition ex_callback :=
  pidfile_callback ex_iwatch ex_iwatch_add ex_iwatch_del ex_find_by_wd
                   ex_find_by_path ex_glob ex_pid_file_read ex_mkcond
                   ex_cond_path.


(** A subdirectory of [/run] written with a slash at its end, and a
    directory in a subdirectory of [/run]: one slash after [run/], and the
    path is not watched. *)
Example one_slash_rejected :
  after_run "/run/dbus/" = Some "dbus/" /\
  slashes "dbus/" = 1%nat /\
  pidfile_add_path ex_iwatch ex_iwatch_add [] "/run/dbus/" = (-1, []) /\
  after_run "/run/dbus/system" = Some "dbus/system" /\
  slashes "dbus/system" = 1%nat /\
  pidfile_add_path ex_iwatch ex_iwatch_add [] "/run/dbus/system" = (-1, []).
Proof. repeat split. Qed.


(** The pidfile of [sshd] is removed while its condition is [ON]: the
    callback returns the world it was given, where the condition is still
    [ON] and no call to [cond_clear] is traced. *)
Example delete_event_ignored :
  let ev := mk_event 1 IN_DELETE "sshd.pid" in
  ex_callback [ev] ex_world = ex_world /\
  cond_get ex_iwatch ex_cond_path "pid/sshd" (ex_callback [ev] ex_world)
    = COND_ON /\
  trace ex_iwatch (ex_callback [ev] ex_world) = [].
Proof. repeat split. Qed.

(** C2, counterexample: a [DELETE] event does not clear the condition. *)
Lemma pidfile_delete_does_not_clear :
  ~ delete_clears ex_iwatch ex_iwatch_add ex_iwatch_del ex_find_by_wd
      ex_find_by_path ex_glob ex_pid_file_read ex_mkcond ex_cond_path.
Proof.
  intros H.
  specialize (H ex_world (mk_event 1 IN_DELETE "sshd.pid")
                (mk_iwp 1 "/run") 0%nat ex_sshd).
  cbv zeta in H.
  assert (Hname : pidfile_name "sshd.pid") by (left; now exists "sshd").
  assert (Hlen : (String.length "/run/sshd.pid" < PATH_MAX)%nat)
    by (unfold PATH_MAX; simpl; lia).
  specialize (H eq_refl Hlen Hname eq_refl eq_refl eq_refl).
  destruct H as [H | H].
  - vm_compute in H. discriminate.
  - vm_compute in H. exact H.
Qed.

Lemma pidfile_callback_sets_not_clears_witness :
  let touched := mk_event 1 IN_MODIFY "syslogd.pid" in
  let removed := mk_event 1 IN_DELETE "syslogd.pid" in
  (cond_get ex_iwatch ex_cond_path "pid/syslogd" (ex_callback [touched] ex_world)
     = COND_ON /\
   trace ex_iwatch (ex_callback [touched] ex_world) = [Cond_set "pid/syslogd"]) /\
  ex_callback [removed] ex_world = ex_world.
Proof.
  assert (Hname : pidfile_name "syslogd.pid") by (left; now exists "syslogd").
  assert (Hlen : (String.length "/run/syslogd.pid" < PATH_MAX)%nat)
    by (unfold PATH_MAX; simpl; lia).
  split.
  - apply (proj1 (pidfile_callback_sets_not_clears
                    ex_iwatch ex_iwatch_add ex_iwatch_del ex_find_by_wd
                    ex_find_by_path ex_glob ex_pid_file_read ex_mkcond
                    ex_cond_path ex_world (mk_event 1 IN_MODIFY "syslogd.pid")
                    (mk_iwp 1 "/run") 1%nat ex_syslogd
                    eq_refl eq_refl Hlen Hname eq_refl eq_refl)); reflexivity.
  - apply (proj2 (pidfile_callback_sets_not_clears
                    ex_iwatch ex_iwatch_add ex_iwatch_del ex_find_by_wd
                    ex_find_by_path ex_glob ex_pid_file_read ex_mkcond
                    ex_cond_path ex_world (mk_event 1 IN_DELETE "syslogd.pid")
                    (mk_iwp 1 "/run") 1%nat ex_syslogd
                    eq_refl eq_refl Hlen Hname eq_refl eq_refl)); reflexivity.
Defined.


(** ** Files that are not pidfiles, and the scan of a new directory

    [lockd] declares [/run/lockd.lock] as its pidfile, and [dbus] declares
    [/run/dbus/pid], which [glob] finds when [/run/dbus] appears. *)

Definition ex_lockd : svc_t :=
  mk_svc "lockd" "/sbin/lockd" 300 SVC_RUNNING_STATE false false false
         "/run/lockd.lock".

Definition ex_dbus : svc_t :=
  mk_svc "dbus" "/usr/bin/dbus-daemon" 400 SVC_RUNNING_STATE false false false
         "/run/dbus/pid".

Definition ex_world2 : world ex_iwatch :=
  mk_world ex_iwatch [mk_iwp 1 "/run"] [ex_lockd; ex_dbus]
           (fun _ => COND_OFF) [].


Lemma update_conds_only_pidfiles_witness :
  pid_file ex_lockd = "/run/lockd.lock" /\
  pidfile_update_conds ex_iwatch ex_pid_file_read ex_mkcond ex_cond_path
                       "/run" "lockd.lock" IN_CREATE ex_world2
  = ex_world2.
Proof.
  split; [reflexivity|].
  apply (update_conds_only_pidfiles
           ex_iwatch ex_pid_file_read ex_mkcond ex_cond_path
           "/run" "lockd.lock" IN_CREATE ex_world2); reflexivity.
Defined.


(** [/run/dbus] appears in [/run] and is watched; [/run/dbus/system]
    appears in [/run/dbus] and is not. *)
Lemma handle_dir_watches_one_level_witness :
  iw_pidfile _
    (pidfile_handle_dir ex_iwatch ex_iwatch_add ex_iwatch_del ex_find_by_path
       ex_glob ex_pid_file_read ex_mkcond ex_cond_path
       "/run" "dbus" (Z.lor IN_CREATE IN_ISDIR) ex_world)
  = [mk_iwp 2 "/run/dbus"; mk_iwp 1 "/run"] /\
  pidfile_handle_dir ex_iwatch ex_iwatch_add ex_iwatch_del ex_find_by_path
    ex_glob ex_pid_file_read ex_mkcond ex_cond_path
    "/run/dbus" "system" (Z.lor IN_CREATE IN_ISDIR) ex_world
  = pidfile_scandir ex_iwatch ex_glob ex_pid_file_read ex_mkcond ex_cond_path
      "/run/dbus/system" 17 ex_world.
Proof.
  split.
  - apply (proj2 (handle_dir_watches_one_level
                    ex_iwatch ex_iwatch_add ex_iwatch_del ex_find_by_path
                    ex_glob ex_pid_file_read ex_mkcond ex_cond_path
                    "/run" "dbus" "dbus" (Z.lor IN_CREATE IN_ISDIR) ex_world
                    eq_refl eq_refl eq_refl)).
    reflexivity.
  - apply (proj1 (handle_dir_watches_one_level
                    ex_iwatch ex_iwatch_add ex_iwatch_del ex_find_by_path
                    ex_glob ex_pid_file_read ex_mkcond ex_cond_path
                    "/run/dbus" "system" "dbus/system"
                    (Z.lor IN_CREATE IN_ISDIR) ex_world
                    eq_refl eq_refl eq_refl)).
    unfold slashes. cbn. lia.
Defined.

End Pidfile.

(* ================================================================== *)
(** * The plugin and hook dispatcher, [plugin.c] *)
(* ================================================================== *)

Module Plugin.
Import CStr Queue.

(** A hook point, [hook_point_t], by its number in the enumeration. *)
Definition hook_point_t : Type := nat.

(** One entry of a plugin's [hook] array: the callback, a function pointer
    that may be [NULL], and its argument, a [void *]. *)
Record hook_t : Type := mk_hook {
  cb  : option nat;
  arg : Z
}.

(** [plugin_t], as far as the dispatcher reads and writes it. *)
Record plugin_t : Type := mk_plugin {
  name    : option string;
  hook    : hook_point_t -> hook_t;
  depends : list string;
  handle  : option Z
}.

Definition with_name (n : string) (p : plugin_t) : plugin_t :=
  mk_plugin (Some n) (hook p) (depends p) (handle p).

Definition with_handle (h : Z) (p : plugin_t) : plugin_t :=
  mk_plugin (name p) (hook p) (depends p) (Some h).

(** Calls out of the dispatcher, in call order: a plugin's callback with
    the argument it gets, the condition engine, the supervisor. *)
Inductive call : Type :=
| Hook_cb (plugin : option string) (fn : nat) (arg : Z)
| Cond_set_oneshot (cond : string)
| Service_step_all (types : Z).

(** The dispatcher's state: the [plugins] queue from head to tail, the
    [plugpath] set by the first load, and the calls made so far. *)
Record world : Type := mk_world {
  plugins  : list plugin_t;
  plugpath : option string;
  trace    : list call
}.

Definition with_plugins (l : list plugin_t) (w : world) : world :=
  mk_world l (plugpath w) (trace w).

Definition log (c : call) (w : world) : world :=
  mk_world (plugins w) (plugpath w) (trace w ++ [c]).

(** The text before the first occurrence of [needle], where [strstr]
    points. *)
Fixpoint before (hay needle : string) : option string :=
  if String.prefix needle hay then Some EmptyString
  else match hay with
       | EmptyString => None
       | String a hay' => option_map (String a) (before hay' needle)
       end.

(** [trim_ext] on a string that is not [NULL]: it ends at the first [.so],
    or else at the first [.c]. *)
Definition trim_ext (name : string) : string :=
  match before name ".so" with
  | Some stem => stem
  | None =>
      match before name ".c" with
      | Some stem => stem
      | None => name
      end
  end.

(** GNU [basename]: what follows the last slash. *)
Definition basename (path : string) : string :=
  match strrchr path "/" with
  | Some tail => advance 1 tail
  | None => path
  end.

(** [fisslashdir] of libite: does the path end in a slash? *)
Definition fisslashdir (path : string) : bool := ends_with "/" path.

(** [SEARCH_PLUGIN]: the first plugin of the queue with that name. *)
Definition search_plugin (str : string) (l : list plugin_t)
  : option plugin_t :=
  find (fun p => match name p with
                 | Some n => String.eqb n str
                 | None => false
                 end) l.

(** The plugins of a queue that have a callback at a hook point. *)
Definition has_cb (no : hook_point_t) (p : plugin_t) : bool :=
  match cb (hook p no) with Some _ => true | None => false end.


Section Dispatcher.

(** The build: [ENABLE_STATIC] links the plugins in, otherwise they are
    loaded with [dlopen]. *)
Variable ENABLE_STATIC : bool.

(** Constants of [finit.h] and [plugin.h], which are not among the
    sources: sizes, the number of the hook point [HOOK_MOUNT_ERROR], the
    table [hook_cond] that [HOOK_TYPES] fills, and a type mask. *)
Variable CMD_SIZE : nat.
Variable PLUGIN_DEP_MAX : nat.
Variable HOOK_MOUNT_ERROR : hook_point_t.
Variable hook_cond : hook_point_t -> string.
Variable SVC_TYPE_RUNTASK : Z.

(** The dynamic loader and the file system.  [dladdr] gives the file a
    plugin record lives in; [dlopen] runs the constructors of the object
    it loads, which may register plugins: it can change the world. *)
Variable dladdr : plugin_t -> option string.
Variable dlopen : string -> world -> option Z * world.
Variable dlclose : Z -> world -> world.
Variable fisdir : string -> bool.

(** [path/name], with [.so] added when [name] does not end in it. *)
Definition so_file (sep path name : string) : string :=
  let noext := negb (ends_with ".so" name) in
  take (CMD_SIZE - 1)
       (path ++ sep ++ name ++ (if noext then ".so" else ""))%string.

Definition plugin_find (name : option string) (w : world)
  : option plugin_t :=
  match name with
  | None => None
  | Some name =>
      match search_plugin name (plugins w) with
      | Some p => Some p
      | None =>
          match plugpath w with
          | Some dir =>
              if negb (match head name with
                       | Some c => Ascii.eqb c "/"
                       | None => false
                       end)
              then
                let sep := if fisslashdir dir then "" else "/" in
                search_plugin (so_file sep dir name) (plugins w)
              else None
          | None => None
          end
      end
  end.

(** [plugin->handle = handle] for the last plugin of the queue. *)
Fixpoint set_last_handle (h : Z) (l : list plugin_t) : list plugin_t :=
  match l with
  | [] => []
  | [p] => [with_handle h p]
  | p :: l' => p :: set_last_handle h l'
  end.

Definition load_one (path : option string) (name : option string)
           (w : world) : Z * world :=
  match path, name with
  | Some path, Some name =>
      if negb (fisdir path) then (1, w)
      else
        let sofile := so_file "/" path name in
        match dlopen sofile w with
        | (None, w) => (1, w)
        | (Some h, w) =>
            match plugins w with
            | [] => (1, dlclose h w)
            | l => (0, with_plugins (set_last_handle h l) w)
            end
        end
  | _, _ => (1, w)
  end.

Definition check_plugin_depends (plugin : plugin_t) (w : world) : world :=
  fold_left
    (fun w dep =>
       match plugin_find (Some dep) w with
       | Some _ => w
       | None => snd (load_one (plugpath w) (Some dep) w)
       end)
    (firstn PLUGIN_DEP_MAX (depends plugin)) w.

(** The name a plugin is registered under: its own, or the file it lives
    in, or [unknown]; without its extension. *)
Definition reg_name (plugin : plugin_t) : string :=
  trim_ext
    match name plugin with
    | Some n => n
    | None =>
        match (if ENABLE_STATIC then None
               else option_map basename (dladdr plugin)) with
        | Some n => n
        | None => "unknown"
        end
    end.

(** [plugin_register]; the record is one that is not in the queue. *)
Definition plugin_register (plugin : option plugin_t) (w : world)
  : Z * world :=
  match plugin with
  | None => (1, w)
  | Some plugin =>
      let plugin := with_name (reg_name plugin) plugin in
      match plugin_find (name plugin) w with
      | Some _ => (0, w)
      | None =>
          let w := if ENABLE_STATIC then w
                   else check_plugin_depends plugin w in
          (0, with_plugins (plugins w ++ [plugin]) w)
      end
  end.

Definition plugin_hook_str (no : hook_point_t) : string := hook_cond no.

Definition plugin_exists (no : hook_point_t) (w : world) : Z :=
  if existsb (has_cb no) (plugins w) then 1 else 0.

(** The call that [plugin_run_hook] makes for a plugin with a callback:
    [p->hook[no].cb(arg ? arg : p->hook[no].arg)]. *)
Definition invoke (no : hook_point_t) (a : Z) (p : plugin_t) : list call :=
  match cb (hook p no) with
  | Some fn => [Hook_cb (name p) fn (if a =? 0 then arg (hook p no) else a)]
  | None => []
  end.

(** [plugin_run_hook]; a callback is a call to code of the plugin, which
    is traced. *)
Definition plugin_run_hook (no : hook_point_t) (a : Z) (w : world) : world :=
  let w := fold_left
             (fun w p => fold_left (fun w c => log c w) (invoke no a p) w)
             (plugins w) w in
  let w := if (HOOK_MOUNT_ERROR <=? no)%nat
           then log (Cond_set_oneshot (hook_cond no)) w
           else w in
  log (Service_step_all SVC_TYPE_RUNTASK) w.

Definition plugin_run_hooks (no : hook_point_t) (w : world) : world :=
  plugin_run_hook no 0 w.

(** The calls a run of a hook point adds to the trace. *)
Definition calls_of_hook (no : hook_point_t) (a : Z) (w : world)
  : list call :=
  skipn (List.length (trace w)) (trace (plugin_run_hook no a w)).

(** Registering a sequence of plugins, one after the other. *)
Definition register_all (l : list plugin_t) (w : world) : world :=
  fold_left (fun w p => snd (plugin_register (Some p) w)) l w.

(** The record as [plugin_register] puts it in the queue. *)
Definition registered (p : plugin_t) : plugin_t := with_name (reg_name p) p.

(** The callback call of a plugin that has a callback at [no]. *)
Definition callback_of (no : hook_point_t) (a : Z) (p : plugin_t) : call :=
  Hook_cb (name p)
          (match cb (hook p no) with Some fn => fn | None => O end)
          (if a =? 0 then arg (hook p no) else a).

Definition is_hook_cb (c : call) : bool :=
  match c with Hook_cb _ _ _ => true | _ => false end.

(** The reading of the spec by which the oneshot condition of a hook point
    is set exactly from the hook point [gate] on. *)
Definition oneshot_from (gate : hook_point_t) : Prop :=
  forall (no : hook_point_t) (a : Z) (w : world),
    In (Cond_set_oneshot (hook_cond no)) (calls_of_hook no a w) <->
    (gate <= no)%nat.

(** ** Properties of the dispatcher *)

Lemma log_all (cs : list call) (w : world) :
  fold_left (fun w c => log c w) cs w =
  mk_world (plugins w) (plugpath w) (trace w ++ cs).
Proof.
  revert w. induction cs as [|c cs IH]; intros w; cbn [fold_left].
  - rewrite app_nil_r. now destruct w.
  - rewrite IH. unfold log. cbn [plugins plugpath trace].
    now rewrite <- app_assoc.
Qed.

Lemma run_callbacks (no : hook_point_t) (a : Z) (l : list plugin_t)
      (w : world) :
  fold_left (fun w p => fold_left (fun w c => log c w) (invoke no a p) w) l w
  = mk_world (plugins w) (plugpath w)
             (trace w ++ flat_map (invoke no a) l).
Proof.
  revert w. induction l as [|p l IH]; intros w; cbn [fold_left flat_map].
  - rewrite app_nil_r. now destruct w.
  - rewrite IH, log_all. cbn [plugins plugpath trace].
    now rewrite <- app_assoc.
Qed.

Lemma invoke_filter (no : hook_point_t) (a : Z) (l : list plugin_t) :
  flat_map (invoke no a) l = map (callback_of no a) (filter (has_cb no) l).
Proof.
  induction l as [|p l IH]; cbn [flat_map filter]; [reflexivity|].
  unfold invoke at 1, has_cb at 1.
  destruct (cb (hook p no)) eqn:E; cbn [app map].
  - unfold callback_of at 1. now rewrite E, IH.
  - exact IH.
Qed.

(** The calls of a hook run: the callbacks of the plugins that have one,
    from the head of the queue to its tail, then the oneshot condition if
    the hook point is not before [HOOK_MOUNT_ERROR], then the step. *)
Lemma calls_of_hook_eq (no : hook_point_t) (a : Z) (w : world) :
  calls_of_hook no a w =
    map (callback_of no a) (filter (has_cb no) (plugins w))
    ++ (if (HOOK_MOUNT_ERROR <=? no)%nat
        then [Cond_set_oneshot (hook_cond no)] else [])
    ++ [Service_step_all SVC_TYPE_RUNTASK].
Proof.
  unfold calls_of_hook, plugin_run_hook.
  rewrite run_callbacks, invoke_filter.
  destruct (HOOK_MOUNT_ERROR <=? no)%nat; unfold log;
    cbn [plugins plugpath trace]; rewrite <- ?app_assoc;
    now rewrite skipn_length_app.
Qed.

Lemma callback_not_oneshot (no : hook_point_t) (a : Z) (l : list plugin_t)
      (c : string) :
  ~ In (Cond_set_oneshot c) (map (callback_of no a) l).
Proof.
  induction l as [|p l IH]; cbn [map In]; [tauto|].
  intros [H | H]; [discriminate | contradiction].
Qed.

Lemma oneshot_in_calls (no : hook_point_t) (a : Z) (w : world) (c : string) :
  In (Cond_set_oneshot c) (calls_of_hook no a w) <->
  (HOOK_MOUNT_ERROR <= no)%nat /\ c = hook_cond no.
Proof.
  rewrite calls_of_hook_eq, !in_app_iff.
  destruct (Nat.leb_spec HOOK_MOUNT_ERROR no) as [L|L]; cbn [In]; split.
  - intros [H | [[H | []] | [H | []]]]; try discriminate.
    + now apply callback_not_oneshot in H.
    + injection H as <-. now split.
  - intros (_ & ->). right. left. now left.
  - intros [H | [[] | [H | []]]]; try discriminate.
    now apply callback_not_oneshot in H.
  - intros (H & _). lia.
Qed.

(** C5, as the code has it.  The calls of [plugin_run_hook] are the
    callbacks, then the oneshot condition, then the step; the condition
    [hook_cond no] is set exactly when the hook point is
    [HOOK_MOUNT_ERROR] or a later one, and no other condition is set. *)
Theorem hook_oneshot_from_mount_error :
  oneshot_from HOOK_MOUNT_ERROR /\
  forall (no : hook_point_t) (a : Z) (w : world),
    calls_of_hook no a w =
      map (callback_of no a) (filter (has_cb no) (plugins w))
      ++ (if (HOOK_MOUNT_ERROR <=? no)%nat
          then [Cond_set_oneshot (hook_cond no)] else [])
      ++ [Service_step_all SVC_TYPE_RUNTASK] /\
    forall c, In (Cond_set_oneshot c) (calls_of_hook no a w) ->
              c = hook_cond no.
Proof.
  split.
  - intros no a w. rewrite oneshot_in_calls. tauto.
  - intros no a w. split; [apply calls_of_hook_eq|].
    intros c H. now apply oneshot_in_calls in H.
Qed.

(** A gate for the oneshot conditions can only be [HOOK_MOUNT_ERROR]. *)
Lemma oneshot_gate_unique (gate : hook_point_t) :
  oneshot_from gate -> gate = HOOK_MOUNT_ERROR.
Proof.
  intros H.
  pose (w := mk_world [] None []).
  pose proof (H gate 0 w) as Hg.
  pose proof (H HOOK_MOUNT_ERROR 0 w) as Hm.
  rewrite oneshot_in_calls in Hg, Hm.
  assert (HOOK_MOUNT_ERROR <= gate)%nat by (apply Hg; lia).
  assert (gate <= HOOK_MOUNT_ERROR)%nat by (apply Hm; split; [lia | reflexivity]).
  lia.
Qed.

(** *** Registration *)









Lemma search_plugin_app (n : string) (l r : list plugin_t) :
  search_plugin n l = None ->
  search_plugin n (l ++ r) = search_plugin n r.
Proof.
  unfold search_plugin. induction l as [|q l IH]; cbn [find app]; [reflexivity|].
  destruct (match name q with Some m => String.eqb m n | None => false end);
    [discriminate | exact IH].
Qed.






(** ** More about the dispatcher *)

(** *** Names without their extension *)

Lemma prefix_app (n s t : string) :
  String.prefix n s = true -> String.prefix n (s ++ t) = true.
Proof.
  revert s. induction n as [|a n IH]; intros s.
  - intros _. destruct s; cbn; [now destruct t | reflexivity].
  - destruct s as [|b s]; cbn; [discriminate|].
    destruct (ascii_dec a b); [apply IH | discriminate].
Qed.

Lemma before_found (hay n s : string) :
  before hay n = Some s ->
  exists t, hay = (s ++ t)%string /\ String.prefix n t = true.
Proof.
  revert s. induction hay as [|a hay IH]; intros s; cbn [before].
  - destruct (String.prefix n "") eqn:P; [|discriminate].
    intros [= <-]. now exists EmptyString.
  - destruct (String.prefix n (String a hay)) eqn:P.
    + intros [= <-]. now exists (String a hay).
    + destruct (before hay n) as [s'|]; [|discriminate].
      intros [= <-]. destruct (IH s' eq_refl) as (t & -> & Ht).
      now exists t.
Qed.

Lemma before_app_none (s t n : string) :
  before (s ++ t) n = None -> before s n = None.
Proof.
  induction s as [|a s IH]; cbn [append before].
  - intros H. destruct (String.prefix n "") eqn:P; [|reflexivity].
    apply (prefix_app n "" t) in P. cbn [append] in P.
    destruct t; cbn [before] in H; rewrite P in H; discriminate.
  - destruct (String.prefix n (String a (s ++ t))) eqn:P; [discriminate|].
    destruct (String.prefix n (String a s)) eqn:Q.
    + apply (prefix_app n _ t) in Q. cbn [append] in Q. congruence.
    + destruct (before (s ++ t) n); [discriminate|]. intros _.
      now rewrite IH.
Qed.

(** The text before the first occurrence holds no occurrence. *)
Lemma before_first (hay n s : string) :
  n <> EmptyString -> before hay n = Some s -> before s n = None.
Proof.
  intros Hn H. destruct (before_found hay n s H) as (t & -> & Ht).
  clear Ht. revert H. induction s as [|a s IH]; cbn [append before].
  - intros _. destruct n; [contradiction | reflexivity].
  - destruct (String.prefix n (String a (s ++ t))) eqn:P; [discriminate|].
    destruct (String.prefix n (String a s)) eqn:Q.
    + apply (prefix_app n _ t) in Q. cbn [append] in Q. congruence.
    + destruct (before (s ++ t) n) as [s'|] eqn:B; [|discriminate].
      intros [= ->]. now rewrite IH.
Qed.

Lemma before_occurs (s t n : string) :
  String.prefix n t = true -> before (s ++ t) n <> None.
Proof.
  intros P. induction s as [|a s IH]; cbn [append].
  - destruct t; cbn [before]; rewrite P; discriminate.
  - cbn [before]. destruct (String.prefix n (String a (s ++ t)));
      [discriminate|].
    destruct (before (s ++ t) n); [discriminate | contradiction].
Qed.

Lemma prefix_cons (a b : ascii) (n s : string) :
  String.prefix (String a n) (String b s)
  = if ascii_dec a b then String.prefix n s else false.
Proof. reflexivity. Qed.

(** The extension [.so] does not begin before the end of a stem that
    holds none, whatever follows it. *)
Lemma so_not_astride (a : ascii) (s rest : string) :
  String.prefix ".so" (String a s) = false ->
  String.prefix ".so" (String a (s ++ ".so" ++ rest)) = false.
Proof.
  rewrite !prefix_cons. destruct (ascii_dec "." a); [|reflexivity].
  destruct s as [|b s]; [reflexivity|].
  cbn [append]. rewrite !prefix_cons.
  destruct (ascii_dec "s" b); [|reflexivity].
  destruct s as [|c s]; [reflexivity|].
  cbn [append]. rewrite !prefix_cons.
  destruct (ascii_dec "o" c); [|reflexivity].
  destruct s; discriminate.
Qed.

Lemma c_not_astride (a : ascii) (s rest : string) :
  String.prefix ".c" (String a s) = false ->
  String.prefix ".c" (String a (s ++ ".c" ++ rest)) = false.
Proof.
  rewrite !prefix_cons. destruct (ascii_dec "." a); [|reflexivity].
  destruct s as [|b s]; [reflexivity|].
  cbn [append]. rewrite !prefix_cons.
  destruct (ascii_dec "c" b); [|reflexivity].
  destruct s; discriminate.
Qed.

Lemma prefix_self (n t : string) : String.prefix n (n ++ t) = true.
Proof.
  induction n as [|a n IH]; cbn [append]; [now destruct t|].
  rewrite prefix_cons. now destruct (ascii_dec a a).
Qed.

Lemma before_here (hay n : string) :
  String.prefix n hay = true -> before hay n = Some EmptyString.
Proof. intros P. destruct hay; cbn [before]; now rewrite P. Qed.

Lemma before_so_stem (stem rest : string) :
  before stem ".so" = None ->
  before (stem ++ ".so" ++ rest) ".so" = Some stem.
Proof.
  remember (".so" ++ rest)%string as tl eqn:E.
  induction stem as [|a s IH];
    [intros _; subst tl; apply before_here, (prefix_self ".so")|].
  cbn [before append].
  destruct (String.prefix ".so" (String a s)) eqn:P; [discriminate|].
  destruct (before s ".so") eqn:B; [discriminate|]. intros _.
  pose proof (so_not_astride a s rest P) as Q. rewrite <- E in Q.
  rewrite Q, (IH eq_refl). reflexivity.
Qed.

Lemma before_c_stem (stem rest : string) :
  before stem ".c" = None ->
  before (stem ++ ".c" ++ rest) ".c" = Some stem.
Proof.
  remember (".c" ++ rest)%string as tl eqn:E.
  induction stem as [|a s IH];
    [intros _; subst tl; apply before_here, (prefix_self ".c")|].
  cbn [before append].
  destruct (String.prefix ".c" (String a s)) eqn:P; [discriminate|].
  destruct (before s ".c") eqn:B; [discriminate|]. intros _.
  pose proof (c_not_astride a s rest P) as Q. rewrite <- E in Q.
  rewrite Q, (IH eq_refl). reflexivity.
Qed.

(** X1. [trim_ext] ends a name at its first [.so], whatever follows it;
    without a [.so] in the name, at its first [.c]; and it leaves a name
    with neither as it is. *)
Theorem trim_ext_cuts_at_first (stem rest : string) :
  before stem ".so" = None ->
  trim_ext (stem ++ ".so" ++ rest) = stem /\
  (before stem ".c" = None ->
   (before (stem ++ ".c" ++ rest) ".so" = None ->
    trim_ext (stem ++ ".c" ++ rest) = stem) /\
   trim_ext stem = stem).
Proof.
  intros Hso. unfold trim_ext. split.
  - now rewrite (before_so_stem stem rest Hso).
  - intros Hc. split.
    + intros Hso'. now rewrite Hso', (before_c_stem stem rest Hc).
    + now rewrite Hso, Hc.
Qed.

(** X2. No name that [trim_ext] returns, and so no name under which
    [plugin_register] puts a plugin in the queue, holds a [.so]. *)
Theorem registered_name_has_no_so (p : plugin_t) :
  (forall name, before (trim_ext name) ".so" = None) /\
  before (reg_name p) ".so" = None.
Proof.
  assert (T : forall name, before (trim_ext name) ".so" = None).
  { intros n. unfold trim_ext.
    destruct (before n ".so") as [stem|] eqn:Hso.
    - apply (before_first n); [discriminate | exact Hso].
    - destruct (before n ".c") as [stem|] eqn:Hc; [|exact Hso].
      destruct (before_found n ".c" stem Hc) as (t & -> & _).
      now apply before_app_none in Hso. }
  split; [exact T | apply T].
Qed.

(** *** Looking plugins up *)

(** A queue as [plugin_register] fills it: no name holds a [.so]. *)
Definition trimmed (l : list plugin_t) : Prop :=
  forall q m, In q l -> name q = Some m -> before m ".so" = None.

Lemma take_whole (n : nat) (s : string) :
  (String.length s <= n)%nat -> take n s = s.
Proof.
  revert n. induction s as [|a s IH]; intros [|n]; cbn; intros H;
    try reflexivity; try lia.
  f_equal. apply IH. lia.
Qed.

Lemma str_app_length (s t : string) :
  String.length (s ++ t) = (String.length s + String.length t)%nat.
Proof. induction s as [|a s IH]; cbn; [reflexivity | now rewrite IH]. Qed.

Lemma advance_split (k : nat) (s : string) :
  s = (take k s ++ advance k s)%string.
Proof.
  revert s. induction k as [|k IH]; intros [|a s]; cbn; try reflexivity.
  now rewrite <- IH.
Qed.

Lemma ends_with_split (suffix s : string) :
  ends_with suffix s = true -> exists pre, s = (pre ++ suffix)%string.
Proof.
  unfold ends_with. intros H. apply andb_prop in H as [_ H].
  apply String.eqb_eq in H.
  exists (take (String.length s - String.length suffix) s).
  rewrite <- H at 2. apply advance_split.
Qed.

Lemma search_plugin_name (str : string) (l : list plugin_t) (q : plugin_t) :
  search_plugin str l = Some q -> In q l /\ name q = Some str.
Proof.
  unfold search_plugin. intros H. apply find_some in H as [Hin Hq].
  split; [exact Hin|].
  destruct (name q) as [m|]; [|discriminate].
  apply String.eqb_eq in Hq. now subst.
Qed.

Lemma search_plugin_with_so (str : string) (l : list plugin_t) :
  trimmed l -> before str ".so" <> None -> search_plugin str l = None.
Proof.
  intros Ht Hso. destruct (search_plugin str l) as [q|] eqn:E;
    [|reflexivity].
  apply search_plugin_name in E as [Hin Hq].
  now rewrite (Ht q str Hin Hq) in Hso.
Qed.

Lemma str_app_assoc (a b c : string) :
  ((a ++ b) ++ c = a ++ b ++ c)%string.
Proof. induction a as [|x a IH]; cbn; [reflexivity | now rewrite IH]. Qed.

Lemma str_app_nil (a : string) : (a ++ "")%string = a.
Proof. induction a as [|x a IH]; cbn; [reflexivity | now rewrite IH]. Qed.

Lemma so_file_has_so (sep dir n : string) :
  (String.length dir + String.length sep + String.length n + 3
   < CMD_SIZE)%nat ->
  before (so_file sep dir n) ".so" <> None.
Proof.
  intros Hlen. unfold so_file.
  destruct (ends_with ".so" n) eqn:E; cbn [negb].
  - rewrite str_app_nil. apply ends_with_split in E as [pre ->].
    rewrite take_whole.
    + rewrite <- !str_app_assoc. now apply before_occurs.
    + rewrite !str_app_length in *. cbn [String.length] in *. lia.
  - rewrite take_whole.
    + rewrite <- !str_app_assoc. now apply before_occurs.
    + rewrite !str_app_length. cbn [String.length]. lia.
Qed.

(** X3. In a queue of names without [.so], [plugin_find] finds a plugin
    only under its exact name: the second search, for the file name in the
    plugin path, matches none.  So a name with [.so] finds nothing. *)
Theorem plugin_find_exact_on_trimmed (n : string) (w : world) :
  trimmed (plugins w) ->
  (forall dir, plugpath w = Some dir ->
     (String.length dir + String.length n + 4 < CMD_SIZE)%nat) ->
  plugin_find (Some n) w = search_plugin n (plugins w) /\
  (before n ".so" <> None -> plugin_find (Some n) w = None).
Proof.
  intros Ht Hlen.
  assert (E : plugin_find (Some n) w = search_plugin n (plugins w)).
  { unfold plugin_find.
    destruct (search_plugin n (plugins w)) as [q|]; [reflexivity|].
    destruct (plugpath w) as [dir|] eqn:Hp; [|reflexivity].
    destruct (negb _); [|reflexivity].
    apply search_plugin_with_so; [exact Ht|].
    apply so_file_has_so. specialize (Hlen dir eq_refl).
    destruct (fisslashdir dir); cbn [String.length]; lia. }
  split; [exact E|].
  intros Hso. rewrite E. now apply search_plugin_with_so.
Qed.

Lemma search_plugin_hit (str : string) (l : list plugin_t) (p : plugin_t) :
  In p l -> name p = Some str -> search_plugin str l <> None.
Proof.
  unfold search_plugin. intros Hin Hn H.
  pose proof (find_none _ _ H p Hin) as F. cbn in F.
  rewrite Hn, String.eqb_refl in F. discriminate.
Qed.

(** X4. [plugin_register] returns 0 for every plugin and 1 for [NULL]
    only, and afterwards [plugin_find] finds a plugin of the queue under
    the name it registered. *)
Theorem plugin_register_then_find (p : plugin_t) (w : world) :
  plugin_register None w = (1, w) /\
  fst (plugin_register (Some p) w) = 0 /\
  exists q,
    plugin_find (Some (reg_name p)) (snd (plugin_register (Some p) w))
    = Some q /\
    In q (plugins (snd (plugin_register (Some p) w))).
Proof.
  split; [reflexivity|].
  unfold plugin_register. cbn [name with_name].
  destruct (plugin_find (Some (reg_name p)) w) as [q|] eqn:F; cbn [fst snd].
  - split; [reflexivity|]. exists q. split; [exact F|].
    unfold plugin_find in F.
    destruct (search_plugin (reg_name p) (plugins w)) eqn:S1.
    + injection F as <-. now apply search_plugin_name in S1.
    + destruct (plugpath w); [|discriminate].
      destruct (negb _); [|discriminate].
      now apply search_plugin_name in F.
  - split; [reflexivity|].
    set (w1 := if ENABLE_STATIC then w
               else check_plugin_depends (with_name (reg_name p) p) w).
    set (l := (plugins w1 ++ [with_name (reg_name p) p])).
    destruct (search_plugin (reg_name p) l) as [q|] eqn:S1.
    + exists q. unfold plugin_find, with_plugins. cbn [plugins].
      fold l. rewrite S1. split; [reflexivity|].
      now apply search_plugin_name in S1.
    + exfalso. revert S1.
      apply (search_plugin_hit _ _ (with_name (reg_name p) p));
        [apply in_or_app; right; now left | reflexivity].
Qed.

(** X5. When every dependency a plugin names is found, checking its
    dependencies loads nothing and leaves everything as it was. *)
Theorem depends_found_loads_nothing (p : plugin_t) (w : world) :
  (forall d, In d (firstn PLUGIN_DEP_MAX (depends p)) ->
             plugin_find (Some d) w <> None) ->
  check_plugin_depends p w = w.
Proof.
  unfold check_plugin_depends.
  induction (firstn PLUGIN_DEP_MAX (depends p)) as [|d l IH];
    intros H; cbn [fold_left]; [reflexivity|].
  destruct (plugin_find (Some d) w) eqn:F.
  - apply IH. intros d' Hd'. apply H. now right.
  - exfalso. now apply (H d); [left|].
Qed.

Lemma set_last_handle_snoc (h : Z) (l : list plugin_t) (q : plugin_t) :
  set_last_handle h (l ++ [q]) = l ++ [with_handle h q].
Proof.
  induction l as [|a l IH]; [reflexivity|].
  cbn [app]. cbn [set_last_handle]. rewrite IH.
  destruct (l ++ [q]) eqn:E; [now destruct l | reflexivity].
Qed.

(** X6. [load_one] takes the load for a success as soon as the queue is
    not empty afterwards, and gives the handle to the plugin that is last
    in the queue then, the other plugins staying as they are: it does so
    also when the object that [dlopen] loaded registered no plugin. *)
Theorem load_one_handle_to_last (path name : string) (w w1 : world) (h : Z) :
  fisdir path = true ->
  dlopen (so_file "/" path name) w = (Some h, w1) ->
  plugins w1 <> [] ->
  fst (load_one (Some path) (Some name) w) = 0 /\
  exists l q,
    plugins w1 = l ++ [q] /\
    plugins (snd (load_one (Some path) (Some name) w))
    = l ++ [with_handle h q].
Proof.
  intros Hdir Hopen Hne. unfold load_one. rewrite Hdir, Hopen. cbn [negb].
  destruct (plugins w1) as [|a l] eqn:E; [contradiction|].
  split; [reflexivity|].
  destruct (exists_last Hne) as (l' & q & Hl).
  exists l', q. split; [exact Hl|].
  cbn [snd with_plugins plugins]. rewrite Hl. apply set_last_handle_snoc.
Qed.

Lemma existsb_callbacks (no : hook_point_t) (a : Z) (l : list plugin_t) :
  existsb is_hook_cb (map (callback_of no a) (filter (has_cb no) l))
  = existsb (has_cb no) l.
Proof.
  induction l as [|p l IH]; cbn [filter existsb]; [reflexivity|].
  destruct (has_cb no p); cbn [map existsb orb]; [reflexivity | exact IH].
Qed.

(** X7. [plugin_exists] returns 1 exactly when running the hook point
    calls a callback of some plugin, and 0 otherwise. *)
Theorem plugin_exists_iff_callback (no : hook_point_t) (a : Z) (w : world) :
  plugin_exists no w
  = if existsb is_hook_cb (calls_of_hook no a w) then 1 else 0.
Proof.
  unfold plugin_exists. rewrite calls_of_hook_eq, existsb_app.
  rewrite existsb_callbacks.
  destruct (existsb (has_cb no) (plugins w)); cbn [orb]; [reflexivity|].
  now destruct (HOOK_MOUNT_ERROR <=? no)%nat.
Qed.

(** *** Loading the plugins and setting up their I/O *)

(** The [io] member of a plugin record: the descriptor a plugin wants
    watched, the events, its callback and the argument of the callback. *)
Record io_t : Type := mk_io {
  io_cb    : option nat;
  io_arg   : Z;
  io_fd    : Z;
  io_flags : Z
}.

(** The record [plugin_t] above leaves the member [io] out; [io] reads it.
    [uev_io_init] and [uev_io_stop] of libuEv work on the watcher of a
    plugin; [uev_io_init] returns non-zero when it fails.  [readdir] gives
    the names of a directory in the order [readdir] returns them, and
    [None] when [opendir] fails.  [PLUGIN_PATH] comes from the build. *)
Variable io : plugin_t -> io_t.
Variable uev_io_init : plugin_t -> Z -> Z -> world -> Z * world.
Variable uev_io_stop : plugin_t -> world -> world.
Variable readdir : string -> option (list string).
Variable PLUGIN_PATH : string.

Definition is_io_plugin (p : plugin_t) : bool :=
  match io_cb (io p) with Some _ => true | None => false end
  && (0 <? io_fd (io p)).

(** [plugin_unregister]; [i] is the place of the plugin in the queue. *)
Definition plugin_unregister (i : nat) (w : world) : Z * world :=
  match nth_error (plugins w) i with
  | None => (0, w)
  | Some p =>
      let w := if is_io_plugin p then uev_io_stop p w else w in
      if ENABLE_STATIC then (0, w)
      else (0, with_plugins (remove_nth i (plugins w)) w)
  end.

Definition plugin_io_init (p : plugin_t) (w : world) : Z * world :=
  if negb (is_io_plugin p) then (0, w)
  else
    let (rc, w) := uev_io_init p (io_fd (io p)) (io_flags (io p)) w in
    if rc =? 0 then (0, w) else (1, w).

(** One turn of a loop that counts failures. *)
Definition count_fail (st : Z * world) (run : world -> Z * world)
  : Z * world :=
  let (rc, w) := run (snd st) in
  (if rc =? 0 then fst st else fst st + 1, w).

Definition init_plugins (w : world) : Z * world :=
  fold_left (fun st p => count_fail st (plugin_io_init p)) (plugins w) (0, w).

Definition hidden (d_name : string) : bool :=
  match head d_name with
  | Some c => Ascii.eqb c "."
  | None => false
  end.

(** The loop of [load_plugins] over the names that [readdir] returns. *)
Definition load_entries (path : string) (entries : list string)
           (st : Z * world) : Z * world :=
  fold_left
    (fun st d_name =>
       if hidden d_name then st
       else count_fail st (load_one (Some path) (Some d_name)))
    entries st.

Definition load_plugins (path : string) (w : world) : Z * world :=
  if ENABLE_STATIC then (0, w)
  else
    match readdir path with
    | None => (1, w)
    | Some entries =>
        load_entries path entries
                     (0, mk_world (plugins w) (Some path) (trace w))
    end.

Definition plugin_init (w : world) : Z * world :=
  let (rc, w1) := load_plugins PLUGIN_PATH w in
  if rc =? 0 then init_plugins w1 else (1, w1).

Lemma count_fail_grows (st : Z * world) (run : world -> Z * world) :
  fst st <= fst (count_fail st run) <= fst st + 1.
Proof.
  unfold count_fail. destruct (run (snd st)) as [rc w'].
  destruct (rc =? 0); cbn [fst]; lia.
Qed.

Lemma load_loop_grows (path : string) (entries : list string)
      (st : Z * world) :
  fst st <=
  fst (load_entries path entries st)
  <= fst st + Z.of_nat (List.length (filter (fun e => negb (hidden e)) entries)).
Proof.
  unfold load_entries.
  revert st. induction entries as [|e l IH]; intros st;
    cbn [fold_left filter]; [cbn; lia|].
  destruct (hidden e); cbn [negb].
  - apply IH.
  - specialize (IH (count_fail st (load_one (Some path) (Some e)))).
    pose proof (count_fail_grows st (load_one (Some path) (Some e))).
    cbn [List.length]. lia.
Qed.

Lemma load_loop_counts (path : string) (entries : list string)
      (st : Z * world) (e : string) :
  In e entries -> hidden e = false ->
  (forall w, fst (load_one (Some path) (Some e) w) <> 0) ->
  fst st <
  fst (load_entries path entries st).
Proof.
  intros Hin Hvis Hfail. revert st.
  induction entries as [|e' l IH]; intros st; [contradiction|].
  unfold load_entries in *. cbn [fold_left]. destruct Hin as [-> | Hin].
  - rewrite Hvis.
    pose proof (load_loop_grows path l
                  (count_fail st (load_one (Some path) (Some e)))) as G.
    unfold load_entries in G.
    assert (fst (count_fail st (load_one (Some path) (Some e)))
            = fst st + 1) as E.
    { unfold count_fail. specialize (Hfail (snd st)).
      destruct (load_one (Some path) (Some e) (snd st)) as [rc w'].
      cbn [fst] in *. now destruct (Z.eqb_spec rc 0). }
    lia.
  - destruct (hidden e').
    + now apply IH.
    + specialize (IH Hin (count_fail st (load_one (Some path) (Some e')))).
      pose proof (count_fail_grows st (load_one (Some path) (Some e'))).
      lia.
Qed.

(** X8. In a build that loads its plugins, one file of the plugin
    directory that [dlopen] cannot load makes [plugin_init] return 1 and
    end after the loading: no plugin has its I/O set up. *)
Theorem plugin_init_fails_on_one_bad_file
        (entries : list string) (e : string) (w : world) :
  ENABLE_STATIC = false ->
  readdir PLUGIN_PATH = Some entries ->
  In e entries -> hidden e = false ->
  (forall w', fst (dlopen (so_file "/" PLUGIN_PATH e) w') = None) ->
  plugin_init w = (1, snd (load_plugins PLUGIN_PATH w)).
Proof.
  intros Hdyn Hdir Hin Hvis Hbad. unfold plugin_init.
  destruct (load_plugins PLUGIN_PATH w) as [rc w1] eqn:L. cbn [snd].
  assert (0 < rc) as Hrc.
  { assert (rc = fst (load_plugins PLUGIN_PATH w)) as -> by now rewrite L.
    unfold load_plugins. rewrite Hdyn, Hdir.
    apply (load_loop_counts PLUGIN_PATH entries
             (0, mk_world (plugins w) (Some PLUGIN_PATH) (trace w)) e Hin Hvis).
    intros w'. unfold load_one.
    destruct (negb (fisdir PLUGIN_PATH)); [cbn; lia|].
    specialize (Hbad w').
    destruct (dlopen (so_file "/" PLUGIN_PATH e) w') as [[h|] w2];
      [discriminate | cbn; lia]. }
  destruct (Z.eqb_spec rc 0); [lia | reflexivity].
Qed.

Lemma load_entries_visible (path : string) (entries : list string)
      (st : Z * world) :
  load_entries path entries st
  = load_entries path (filter (fun e => negb (hidden e)) entries) st.
Proof.
  unfold load_entries. revert st.
  induction entries as [|e l IH]; intros st; cbn [fold_left filter];
    [reflexivity|].
  destruct (hidden e) eqn:H; cbn [negb]; [apply IH|].
  cbn [fold_left]. rewrite H. apply IH.
Qed.

(** X9. [load_plugins] returns 1 when the plugin directory cannot be
    opened.  Otherwise it skips the names that begin with a dot: it does
    what it would do if [readdir] returned only the other names, and the
    number it returns is at most the number of those. *)
Theorem load_plugins_skips_hidden (path : string) (w : world) :
  ENABLE_STATIC = false ->
  match readdir path with
  | None => load_plugins path w = (1, w)
  | Some entries =>
      let visible := filter (fun e => negb (hidden e)) entries in
      load_plugins path w
      = load_entries path visible
                     (0, mk_world (plugins w) (Some path) (trace w)) /\
      0 <= fst (load_plugins path w) <= Z.of_nat (List.length visible)
  end.
Proof.
  intros Hdyn. unfold load_plugins. rewrite Hdyn.
  destruct (readdir path) as [entries|]; [|reflexivity].
  cbv zeta. split; [apply load_entries_visible|].
  apply (load_loop_grows path entries
           (0, mk_world (plugins w) (Some path) (trace w))).
Qed.

Lemma init_loop_grows (l : list plugin_t) (st : Z * world) :
  fst st <=
  fst (fold_left (fun st p => count_fail st (plugin_io_init p)) l st)
  <= fst st + Z.of_nat (List.length (filter is_io_plugin l)).
Proof.
  revert st. induction l as [|p l IH]; intros st; cbn [fold_left filter];
    [cbn; lia|].
  specialize (IH (count_fail st (plugin_io_init p))).
  assert (fst st <= fst (count_fail st (plugin_io_init p))
          <= fst st + (if is_io_plugin p then 1 else 0)) as G.
  { unfold count_fail, plugin_io_init.
    destruct (is_io_plugin p); cbn [negb].
    - destruct (uev_io_init _ _ _ _) as [rc w'].
      destruct (rc =? 0); cbn; lia.
    - cbn. lia. }
  destruct (is_io_plugin p); cbn [List.length]; lia.
Qed.

(** X10. [init_plugins] counts only plugins with I/O: its result lies
    between 0 and the number of plugins whose [io] has a callback and a
    descriptor above 0, and a queue without such a plugin is left as it
    is, without a call to [uev_io_init]. *)
Theorem init_plugins_counts_io_only (w : world) :
  0 <= fst (init_plugins w)
    <= Z.of_nat (List.length (filter is_io_plugin (plugins w))) /\
  (existsb is_io_plugin (plugins w) = false -> init_plugins w = (0, w)).
Proof.
  split; [apply (init_loop_grows (plugins w) (0, w))|].
  unfold init_plugins. generalize (plugins w) as l.
  induction l as [|p l IH]; intros H; [reflexivity|].
  cbn [existsb] in H. apply orb_false_elim in H as [Hp Hl].
  cbn [fold_left]. unfold count_fail at 2, plugin_io_init.
  rewrite Hp. cbn [negb snd fst Z.eqb]. now apply IH.
Qed.

(** X11. Unregistering the plugin that [plugin_register] has just put at
    the tail of the queue gives back the world as it was before the
    registration, in a build that loads its plugins; in a static build
    [plugin_unregister] removes nothing and the plugin stays registered. *)
Theorem plugin_unregister_undoes_register (p : plugin_t) (w : world) :
  plugin_find (Some (reg_name p)) w = None ->
  depends p = [] ->
  is_io_plugin (registered p) = false ->
  plugin_unregister (List.length (plugins w))
                    (snd (plugin_register (Some p) w))
  = (0, if ENABLE_STATIC then snd (plugin_register (Some p) w) else w).
Proof.
  intros Hfind Hdep Hio. unfold plugin_register. cbn [name with_name].
  rewrite Hfind. unfold check_plugin_depends. cbn [depends with_name].
  rewrite Hdep, firstn_nil. cbn [fold_left snd].
  assert (W : forall b : bool, (if b then w else w) = w)
    by (intros [|]; reflexivity).
  rewrite W. fold (registered p).
  unfold plugin_unregister, with_plugins. cbn [plugins].
  rewrite nth_error_app2, Nat.sub_diag by lia. cbn [nth_error].
  rewrite Hio. case ENABLE_STATIC; [reflexivity|].
  cbn [plugins plugpath trace].
  assert (R : forall (l : list plugin_t) x,
             remove_nth (List.length l) (l ++ [x]) = l).
  { induction l as [|a l IH]; intros x; [reflexivity|].
    cbn [app List.length remove_nth]. now rewrite IH. }
  rewrite R. now destruct w.
Qed.

End Dispatcher.

(** ** A small build to run the dispatcher on

    [plugin.h] is not among the sources.  The example numbers the first
    hook points in boot order: banner, root file system up, mount error,
    after mount, base file system up, network up; and it links two plugins
    in, [netlink] and [pidfile], the latter with the two callbacks that
    [plugins/pidfile.c] gives it. *)

Definition HOOK_BANNER      : hook_point_t := 0%nat.
Definition HOOK_ROOTFS_UP   : hook_point_t := 1%nat.
Definition HOOK_MOUNT_ERROR : hook_point_t := 2%nat.
Definition HOOK_MOUNT_POST  : hook_point_t := 3%nat.
Definition HOOK_BASEFS_UP   : hook_point_t := 4%nat.
Definition HOOK_NETWORK_UP  : hook_point_t := 5%nat.
Definition HOOK_SVC_RECONF  : hook_point_t := 6%nat.

Definition ex_hook_cond (no : hook_point_t) : string :=
  nth no ["hook/banner"; "hook/rootfs-up"; "hook/mount-error";
          "hook/mount-post"; "hook/basefs-up"; "hook/network-up";
          "hook/svc-reconf"] "".

Definition ex_runtask : Z := 6.

Definition ex_dlopen (file : string) (w : world) : option Z * world :=
  (None, w).

Definition no_hook : hook_t := mk_hook None 0.

Definition ex_netlink : plugin_t :=
  mk_plugin (Some "netlink.c")
            (fun no => if (no =? HOOK_NETWORK_UP)%nat
                       then mk_hook (Some 7%nat) 0 else no_hook)
            [] None.

Definition ex_pidfile : plugin_t :=
  mk_plugin (Some "pidfile.c")
            (fun no => if (no =? HOOK_BASEFS_UP)%nat then mk_hook (Some 1%nat) 0
                       else if (no =? HOOK_SVC_RECONF)%nat
                            then mk_hook (Some 2%nat) 0
                            else no_hook)
            ["netlink"] None.


Definition ex_empty : world := mk_world [] None [].

Definition ex_dladdr (p : plugin_t) : option string := None.
Definition ex_dlclose (h : Z) (w : world) : world := w.
Definition ex_fisdir (path : string) : bool := true.

Definition ex_register : option plugin_t -> world -> Z * world :=
  plugin_register true 256 4 ex_dladdr ex_dlopen ex_dlclose ex_fisdir.

Definition ex_register_all : list plugin_t -> world -> world :=
  register_all true 256 4 ex_dladdr ex_dlopen ex_dlclose ex_fisdir.

Definition ex_loaded : world := ex_register_all [ex_netlink; ex_pidfile] ex_empty.

Example ex_loaded_names :
  map name (plugins ex_loaded) = [Some "netlink"; Some "pidfile"].
Proof. reflexivity. Qed.

(** The hook point [HOOK_MOUNT_ERROR] comes before [HOOK_BASEFS_UP], and
    running it sets its condition. *)
Example mount_error_hook_sets_cond :
  calls_of_hook HOOK_MOUNT_ERROR ex_hook_cond ex_runtask
                HOOK_MOUNT_ERROR 0 ex_loaded
  = [Cond_set_oneshot "hook/mount-error"; Service_step_all ex_runtask].
Proof. reflexivity. Qed.

(** C5, counterexample: the gate is not [HOOK_BASEFS_UP]. *)
Lemma hook_oneshot_not_from_basefs_up :
  ~ oneshot_from HOOK_MOUNT_ERROR ex_hook_cond ex_runtask HOOK_BASEFS_UP.
Proof.
  intros H.
  destruct (H HOOK_MOUNT_ERROR 0 ex_loaded) as [Hset _].
  assert (Hin : In (Cond_set_oneshot (ex_hook_cond HOOK_MOUNT_ERROR))
                   (calls_of_hook HOOK_MOUNT_ERROR ex_hook_cond ex_runtask
                                  HOOK_MOUNT_ERROR 0 ex_loaded))
    by (vm_compute; now left).
  apply Hset in Hin. unfold HOOK_BASEFS_UP, HOOK_MOUNT_ERROR in Hin. lia.
Qed.



(** ** A build that loads its plugins

    The plugin directory holds [netlink.so], whose constructor registers
    the plugin [netlink]; [plain.so], an object without a constructor;
    [broken.so], which [dlopen] refuses; and two names with a dot in
    front.  No plugin has I/O. *)

Definition dyn_path : string := "/lib/finit/plugins".

Definition dyn_readdir (path : string) : option (list string) :=
  if String.eqb path dyn_path
  then Some ["."; ".."; "netlink.so"; "broken.so"]
  else None.

Definition dyn_dlopen (file : string) (w : world) : option Z * world :=
  if String.eqb file "/lib/finit/plugins/netlink.so"
  then (Some 11,
        snd (plugin_register false 256 4 ex_dladdr ex_dlopen ex_dlclose
                             ex_fisdir (Some ex_netlink) w))
  else if String.eqb file "/lib/finit/plugins/plain.so"
       then (Some 12, w)
       else (None, w).

Definition dyn_io (p : plugin_t) : io_t := mk_io None 0 0 0.

Definition dyn_uev_io_init (p : plugin_t) (fd flags : Z) (w : world)
  : Z * world := (0, w).

Definition dyn_uev_io_stop (p : plugin_t) (w : world) : world := w.

(** The queue after [netlink.so] is loaded from [dyn_path]. *)
Definition dyn_loaded : world :=
  snd (load_one 256 dyn_dlopen ex_dlclose ex_fisdir
                (Some dyn_path) (Some "netlink")
                (mk_world [] (Some dyn_path) [])).

Example dyn_loaded_queue :
  map name (plugins dyn_loaded) = [Some "netlink"] /\
  map handle (plugins dyn_loaded) = [Some 11].
Proof. split; reflexivity. Qed.

Lemma trim_ext_cuts_at_first_witness :
  trim_ext "pidfile.so.0" = "pidfile" /\
  trim_ext "pidfile.c.0" = "pidfile" /\
  trim_ext "pidfile" = "pidfile".
Proof.
  pose proof (trim_ext_cuts_at_first "pidfile" ".0" eq_refl) as [H1 H2].
  destruct (H2 eq_refl) as [H3 H4].
  exact (conj H1 (conj (H3 eq_refl) H4)).
Defined.

Lemma plugin_find_exact_on_trimmed_witness :
  search_plugin "netlink" (plugins dyn_loaded) <> None /\
  plugin_find 256 (Some "netlink.so") dyn_loaded = None.
Proof.
  split; [discriminate|].
  apply (plugin_find_exact_on_trimmed 256 "netlink.so" dyn_loaded).
  - intros q m [<- | []] [= <-]. reflexivity.
  - intros dir [= <-]. cbn. lia.
  - discriminate.
Defined.

Lemma depends_found_loads_nothing_witness :
  depends ex_pidfile = ["netlink"] /\
  check_plugin_depends 256 4 dyn_dlopen ex_dlclose ex_fisdir
                       ex_pidfile dyn_loaded
  = dyn_loaded.
Proof.
  split; [reflexivity|].
  apply (depends_found_loads_nothing 256 4 dyn_dlopen ex_dlclose ex_fisdir).
  intros d [<- | []]. discriminate.
Defined.

(** [plain.so] registers nothing, and the handle of its load replaces the
    handle of [netlink]. *)
Lemma load_one_handle_to_last_witness :
  fst (load_one 256 dyn_dlopen ex_dlclose ex_fisdir
                (Some dyn_path) (Some "plain") dyn_loaded) = 0 /\
  exists l q,
    plugins dyn_loaded = l ++ [q] /\
    plugins (snd (load_one 256 dyn_dlopen ex_dlclose ex_fisdir
                           (Some dyn_path) (Some "plain") dyn_loaded))
    = l ++ [with_handle 12 q].
Proof.
  apply (load_one_handle_to_last
           256 dyn_dlopen ex_dlclose ex_fisdir dyn_path "plain"
           dyn_loaded dyn_loaded 12);
    [reflexivity | reflexivity | discriminate].
Defined.

Lemma plugin_init_fails_on_one_bad_file_witness :
  plugin_init false 256 dyn_dlopen ex_dlclose ex_fisdir dyn_io
              dyn_uev_io_init dyn_readdir dyn_path ex_empty
  = (1, snd (load_plugins false 256 dyn_dlopen ex_dlclose ex_fisdir
                          dyn_readdir dyn_path ex_empty)).
Proof.
  apply (plugin_init_fails_on_one_bad_file
           false 256 dyn_dlopen ex_dlclose ex_fisdir dyn_io dyn_uev_io_init
           dyn_readdir dyn_path
           ["."; ".."; "netlink.so"; "broken.so"] "broken.so" ex_empty).
  - reflexivity.
  - reflexivity.
  - right; right; right; now left.
  - reflexivity.
  - intros w'. reflexivity.
Defined.

Lemma load_plugins_skips_hidden_witness :
  load_plugins false 256 dyn_dlopen ex_dlclose ex_fisdir dyn_readdir
               "/nowhere" ex_empty
  = (1, ex_empty) /\
  load_plugins false 256 dyn_dlopen ex_dlclose ex_fisdir dyn_readdir
               dyn_path ex_empty
  = load_entries 256 dyn_dlopen ex_dlclose ex_fisdir dyn_path
                 ["netlink.so"; "broken.so"]
                 (0, mk_world [] (Some dyn_path) []) /\
  0 <= fst (load_plugins false 256 dyn_dlopen ex_dlclose ex_fisdir
                         dyn_readdir dyn_path ex_empty) <= 2.
Proof.
  split.
  - exact (load_plugins_skips_hidden false 256 dyn_dlopen ex_dlclose
             ex_fisdir dyn_readdir "/nowhere" ex_empty eq_refl).
  - exact (load_plugins_skips_hidden false 256 dyn_dlopen ex_dlclose
             ex_fisdir dyn_readdir dyn_path ex_empty eq_refl).
Defined.

Lemma init_plugins_counts_io_only_witness :
  init_plugins dyn_io dyn_uev_io_init dyn_loaded = (0, dyn_loaded).
Proof.
  apply (init_plugins_counts_io_only dyn_io dyn_uev_io_init dyn_loaded).
  reflexivity.
Defined.

Lemma plugin_unregister_undoes_register_witness :
  plugin_unregister false dyn_io dyn_uev_io_stop 0
    (snd (plugin_register false 256 4 ex_dladdr dyn_dlopen ex_dlclose
                          ex_fisdir (Some ex_netlink) ex_empty))
  = (0, ex_empty).
Proof.
  apply (plugin_unregister_undoes_register
           false 256 4 ex_dladdr dyn_dlopen ex_dlclose ex_fisdir
           dyn_io dyn_uev_io_stop ex_netlink ex_empty);
    reflexivity.
Defined.

End Plugin.

(* ================================================================== *)
(** * The TTY registry, [tty.c] *)
(* ================================================================== *)

Module Tty.
Import CStr Queue.

(** [<signal.h>], [<errno.h>], [<paths.h>]. *)
Definition SIGKILL : Z := 9.
Definition SIGTERM : Z := 15.
Definition EINVAL : Z := 22.
Definition _PATH_DEV : string := "/dev/".

(** The delimiters of a configuration line, a blank and a tab. *)
Definition blank_tab : string :=
  String " " (String (ascii_of_nat 9) EmptyString).

(** [struct rlimit rlimit[RLIMIT_NLIMITS]]: soft and hard limits. *)
Definition rlimit_t : Type := list (Z * Z).

(** [finit_tty_t]; [args] is the array [args[TTY_MAX_ARGS]]. *)
Record finit_tty_t : Type := mk_tty {
  name      : string;
  baud      : option string;
  term      : option string;
  noclear   : Z;
  nowait    : Z;
  runlevels : Z;
  cmd       : option string;
  args      : list (option string);
  rlimit    : rlimit_t;
  pid       : Z
}.

(** [tty_node_t]: a node of [tty_list]. *)
Record tty_node_t : Type := mk_node {
  data  : finit_tty_t;
  dirty : Z
}.

Definition set_pid (p : Z) (tty : finit_tty_t) : finit_tty_t :=
  mk_tty (name tty) (baud tty) (term tty) (noclear tty) (nowait tty)
         (runlevels tty) (cmd tty) (args tty) (rlimit tty) p.

Definition set_dirty (d : Z) (n : tty_node_t) : tty_node_t :=
  mk_node (data n) d.

(** System calls and calls to other translation units, in call order. *)
Inductive call : Type :=
| Kill (pid sig : Z)
| Waitpid (pid : Z)
| Run_getty (dev : string) (baud term : option string) (noclear nowait : Z)
            (rlimit : rlimit_t)
| Run_getty2 (dev cmd : string) (args : list (option string))
             (noclear nowait : Z) (rlimit : rlimit_t)
| Utmp_set_dead (pid : Z)
| Fork_shell.

(** The state of the registry: [tty_list] from its head, the current
    [runlevel], the pid of the [fallback] shell, and the calls made. *)
Record world : Type := mk_world {
  tty_list : list tty_node_t;
  runlevel : Z;
  fallback : Z;
  trace    : list call
}.

Definition with_list (l : list tty_node_t) (w : world) : world :=
  mk_world l (runlevel w) (fallback w) (trace w).

Definition with_trace (t : list call) (w : world) : world :=
  mk_world (tty_list w) (runlevel w) (fallback w) t.

(** [a[i] = v] in an array; a write past its end is left out. *)
Fixpoint set_nth {A} (i : nat) (v : A) (a : list A) : list A :=
  match a, i with
  | [], _ => []
  | _ :: a', O => v :: a'
  | x :: a', S i' => x :: set_nth i' v a'
  end.

(** [a[j++] = v] for the values [vs], from index [j] on. *)
Fixpoint store_from {A} (j : nat) (vs : list A) (a : list A) : list A :=
  match vs with
  | [] => a
  | v :: vs' => store_from (S j) vs' (set_nth j v a)
  end.

(** What [line] reads as once [strtok] has ended its first token: the
    text up to the first delimiter that follows a character of a token. *)
Fixpoint first_field (intoken : bool) (s : string) : string :=
  match s with
  | EmptyString => EmptyString
  | String a s' =>
      if is_delim blank_tab a
      then if intoken then EmptyString else String a (first_field false s')
      else String a (first_field true s')
  end.

(** What the second loop of [tty_register] collects. *)
Record parsed : Type := mk_parsed {
  p_dev       : option string;
  p_cmd       : option string;
  p_baud      : option string;
  p_term      : option string;
  p_runlevels : option string
}.

Definition is_some {A} (o : option A) : bool :=
  match o with Some _ => true | None => false end.

Definition starts_with_char (c : ascii) (s : string) : bool :=
  match head s with Some a => Ascii.eqb a c | None => false end.

Section Registry.

(** [tty.h], [finit.h] and [conf.c] are not among the sources: the size
    of the [args] array, the macro [ISSET], the parser of runlevels and
    the test for a changed file are parameters; so is the build option
    [FALLBACK_SHELL]. *)
Variable TTY_MAX_ARGS : nat.
Variable ISSET : Z -> Z -> bool.
Variable conf_parse_runlevels : option string -> Z.
Variable conf_changed : string -> bool.
Variable FALLBACK_SHELL : bool.

(** The file system and the kernel: [stat] fails ([None]) or tells whether
    the file is a character device; [console_active] is what
    [/sys/class/tty/console/active] gives, [None] if it cannot be opened
    and [Some None] if no line can be read, else the line without its
    newline; [access_x] is [!access(path, X_OK)]; [open_rdwr] tells
    whether [open] succeeds and [tcgetattr] is the result of the call of
    that name; [spawn] is the pid that a spawn ([run_getty], [run_getty2],
    [fork]) returns after the calls made so far. *)
Variable stat : string -> option bool.
Variable console_active : option (option string).
Variable access_x : string -> bool.
Variable open_rdwr : string -> bool.
Variable tcgetattr : string -> Z.
Variable spawn : list call -> Z.

(** [canonicalize]; its result lives in [static char path[80]]. *)
Definition canonicalize (tty : option string) : option string :=
  match tty with
  | None => None
  | Some tty =>
      let tty' :=
        if String.eqb tty "@console" then
          match console_active with
          | None => None
          | Some (Some line) => Some line
          | Some None => Some tty
          end
        else Some tty in
      match tty' with
      | None => None
      | Some tty =>
          let path := take 79 tty in
          match stat path with
          | None =>
              if strncmp_eq path _PATH_DEV (String.length _PATH_DEV)
              then Some path
              else
                let path := take 79 (_PATH_DEV ++ tty)%string in
                match stat path with
                | None => Some path
                | Some chr => if chr then Some path else None
                end
          | Some chr => if chr then Some path else None
          end
      end
  end.

Definition tty_mark (w : world) : world :=
  with_list (map (set_dirty (-1)) (tty_list w)) w.

Definition tty_stop (tty : finit_tty_t) (t : list call)
  : finit_tty_t * list call :=
  if pid tty =? 0 then (tty, t)
  else (set_pid 0 tty, t ++ [Kill (pid tty) SIGKILL; Waitpid (pid tty)]).

(** [tty_sweep]: [LIST_FOREACH_SAFE] over the list; a node that
    [tty_unregister] removes is not in the list that results. *)
Fixpoint sweep (l : list tty_node_t) (t : list call)
  : list tty_node_t * list call :=
  match l with
  | [] => ([], t)
  | n :: l' =>
      if dirty n =? 0 then
        let '(l'', t) := sweep l' t in (n :: l'', t)
      else
        let '(tty, t) := tty_stop (data n) t in
        if dirty n =? -1 then sweep l' t
        else
          let '(l'', t) := sweep l' t in (mk_node tty (dirty n) :: l'', t)
  end.

Definition tty_sweep (w : world) : world :=
  let '(l, t) := sweep (tty_list w) (trace w) in
  with_trace t (with_list l w).

Definition tty_find (dev : string) (w : world) : option nat :=
  find_index (fun entry => String.eqb dev (name (data entry))) (tty_list w).

(** The first loop of [tty_register]: the tokens that are not [noclear] or
    [nowait], as long as there is room in [args]. *)
Fixpoint collect (toks : list string) (args : list string)
         (noclear nowait : Z) : list string * Z * Z :=
  match toks with
  | [] => (args, noclear, nowait)
  | tok :: toks' =>
      if (List.length args <? TTY_MAX_ARGS)%nat then
        if String.eqb tok "noclear" then collect toks' args 1 nowait
        else if String.eqb tok "nowait" then collect toks' args noclear 1
        else collect toks' (args ++ [tok]) noclear nowait
      else (args, noclear, nowait)
  end.

(** One pass of the second loop of [tty_register], for [args[i]]. *)
Definition scan_arg (line : string) (num i : nat) (a : string) (st : parsed)
  : parsed :=
  if negb (is_some (p_dev st)) && negb (is_some (p_cmd st)) then
    let runlevels := if starts_with_char "[" a then Some line
                     else p_runlevels st in
    let dev := if String.eqb a "@console" then Some a else p_dev st in
    let dev := if strncmp_eq a "/dev" 4 then Some a else dev in
    let dev := if strncmp_eq a "tty" 3 then Some a else dev in
    let cmd := if access_x a then Some a else p_cmd st in
    mk_parsed dev cmd (p_baud st) (p_term st) runlevels
  else if is_some (p_dev st)
          && match head a with Some c => isdigit c | None => false end
  then mk_parsed (p_dev st) (p_cmd st) (Some a) (p_term st) (p_runlevels st)
  else
    let term := if is_some (p_dev st) && (i + 1 =? num)%nat then Some a
                else p_term st in
    let dev := p_dev st in
    let dev := if is_some (p_cmd st) && strncmp_eq a "/dev" 4 then Some a
               else dev in
    let dev := if is_some (p_cmd st) && strncmp_eq a "tty" 3 then Some a
               else dev in
    mk_parsed dev (p_cmd st) (p_baud st) term (p_runlevels st).

Fixpoint scan_args (line : string) (num i : nat) (args : list string)
         (st : parsed) : parsed :=
  match args with
  | [] => st
  | a :: args' => scan_args line num (S i) args' (scan_arg line num i a st)
  end.

(** The two loops of [tty_register] on a line. *)
Definition parse_line (line : string)
  : list string * Z * Z * parsed :=
  let '(args, noclear, nowait) := collect (strtok line blank_tab) [] 0 0 in
  let st := scan_args (first_field false line) (List.length args) 0 args
                      (mk_parsed None None None None None) in
  (args, noclear, nowait, st).

(** A node as [calloc] returns it. *)
Definition calloc_node : tty_node_t :=
  mk_node (mk_tty "" None None 0 0 0 None (repeat None TTY_MAX_ARGS) [] 0) 0.

(** The fields that [tty_register] writes in a node, found or new. *)
Definition fill_node (dev : string) (args : list string)
           (noclear nowait : Z) (st : parsed) (rlimit : rlimit_t)
           (file : option string) (entry : tty_node_t) : tty_node_t :=
  let d := data entry in
  let '(cmd', args') :=
    match p_cmd st with
    | Some cmd =>
        let tok := match strrchr cmd "/" with
                   | Some tail => advance 1 tail
                   | None => cmd
                   end in
        let args := set_nth 1 tok args in
        let num := List.length args in
        let stored := store_from 0 (map Some (firstn (num - 1) (skipn 1 args)))
                                 (Tty.args d) in
        (Some cmd, set_nth (Nat.max 1 num) None stored)
    | None => (cmd d, Tty.args d)
    end in
  mk_node
    (mk_tty dev (p_baud st) (p_term st) noclear nowait
            (conf_parse_runlevels (p_runlevels st)) cmd' args' rlimit
            (pid d))
    (match file with
     | Some f => if conf_changed f then 1 else 0
     | None => 0
     end).

(** [tty_register]; memory is taken to be available. *)
Definition tty_register (line : option string) (rlimit : rlimit_t)
           (file : option string) (w : world) : Z * world :=
  match line with
  | None => (EINVAL, w)
  | Some line =>
      let '(args, noclear, nowait, st) := parse_line line in
      match p_dev st with
      | None => (EINVAL, w)
      | Some dev =>
          match canonicalize (Some dev) with
          | None => (EINVAL, w)
          | Some dev =>
              let fill := fill_node dev args noclear nowait st rlimit file in
              match tty_find dev w with
              | Some i => (0, with_list (update_nth i fill (tty_list w)) w)
              | None => (0, with_list (fill calloc_node :: tty_list w) w)
              end
          end
      end
  end.

(** [tty_unregister] of the node at index [tty]. *)
Definition tty_unregister (tty : option nat) (w : world) : Z * world :=
  match tty with
  | None => (EINVAL, w)
  | Some i => (0, with_list (remove_nth i (tty_list w)) w)
  end.

Definition tty_num (w : world) : nat := List.length (tty_list w).

Definition tty_num_active (w : world) : nat :=
  List.length (filter (fun entry => negb (pid (data entry) =? 0)) (tty_list w)).

Definition tty_find_by_pid (p : Z) (w : world) : option nat :=
  find_index (fun entry => pid (data entry) =? p) (tty_list w).

Definition tty_exist (dev : string) : Z :=
  if open_rdwr dev then tcgetattr dev else 1.

Definition tty_start (tty : finit_tty_t) (t : list call)
  : finit_tty_t * list call :=
  if negb (pid tty =? 0) then (tty, t)
  else
    match canonicalize (Some (name tty)) with
    | None => (tty, t)
    | Some dev =>
        if negb (tty_exist dev =? 0) then (tty, t)
        else
          match cmd tty with
          | None =>
              let t' := t ++ [Run_getty dev (baud tty) (term tty)
                                        (noclear tty) (nowait tty)
                                        (rlimit tty)] in
              (set_pid (spawn t') tty, t')
          | Some c =>
              let t' := t ++ [Run_getty2 dev c (args tty) (noclear tty)
                                         (nowait tty) (rlimit tty)] in
              (set_pid (spawn t') tty, t')
          end
    end.

Definition tty_enabled (tty : option finit_tty_t) (w : world) : Z :=
  match tty with
  | None => 0
  | Some tty => if ISSET (runlevels tty) (runlevel w) then 1 else 0
  end.

Definition tty_action (n : tty_node_t) (w : world) (t : list call)
  : tty_node_t * list call :=
  let '(tty, t) :=
    if tty_enabled (Some (data n)) w =? 0
    then tty_stop (data n) t
    else tty_start (data n) t in
  (mk_node tty (dirty n), t).

(** The loop of [tty_reload] over the list: the action, then [dirty = 0]. *)
Fixpoint reload_all (w : world) (l : list tty_node_t) (t : list call)
  : list tty_node_t * list call :=
  match l with
  | [] => ([], t)
  | n :: l' =>
      let '(n', t) := tty_action n w t in
      let '(l'', t) := reload_all w l' t in
      (set_dirty 0 n' :: l'', t)
  end.

Definition tty_reload (dev : option string) (w : world) : world :=
  match dev with
  | Some dev =>
      match tty_find dev w with
      | None => w
      | Some i =>
          match nth_error (tty_list w) i with
          | None => w
          | Some n =>
              let '(n', t) := tty_action n w (trace w) in
              with_trace t
                (with_list (update_nth i (fun _ => set_dirty 0 n') (tty_list w))
                           w)
          end
      end
  | None =>
      let w := tty_sweep w in
      let '(l, t) := reload_all w (tty_list w) (trace w) in
      with_trace t (with_list l w)
  end.

(** [tty_fallback], as the process that calls it sees it: the child that
    [fork] creates runs the shell and does not return. *)
Definition tty_fallback (lost : Z) (w : world) : Z * world :=
  if FALLBACK_SHELL then
    if lost =? 1 then
      if fallback w =? 0 then (0, w)
      else (0, mk_world (tty_list w) (runlevel w) 0
                        (trace w ++ [Kill (fallback w) SIGKILL]))
    else if negb (fallback w =? lost) || negb (tty_num_active w =? 0)%nat
    then (0, w)
    else
      let t := trace w ++ [Fork_shell] in
      (1, mk_world (tty_list w) (runlevel w) (spawn t) t)
  else (0, w).

(** [tty_respawn], called with the pid of a process that has ended. *)
Definition tty_respawn (p : Z) (w : world) : Z * world :=
  match tty_find_by_pid p w with
  | None => tty_fallback p w
  | Some i =>
      match nth_error (tty_list w) i with
      | None => tty_fallback p w
      | Some n =>
          let t := trace w ++ [Utmp_set_dead p] in
          let '(n', t) := tty_action (mk_node (set_pid 0 (data n)) (dirty n))
                                     w t in
          (1, with_trace t (with_list (update_nth i (fun _ => n') (tty_list w)) w))
      end
  end.

(** The loop of [tty_runlevel] over the list. *)
Fixpoint action_all (w : world) (l : list tty_node_t) (t : list call)
  : list tty_node_t * list call :=
  match l with
  | [] => ([], t)
  | n :: l' =>
      let '(n', t) := tty_action n w t in
      let '(l'', t) := action_all w l' t in
      (n' :: l'', t)
  end.

Definition tty_runlevel (w : world) : world :=
  let '(l, t) := action_all w (tty_list w) (trace w) in
  let w := with_trace t (with_list l w) in
  snd (tty_fallback (if (0 <? tty_num_active w)%nat then 1 else 0) w).

(** The device names of a list, and what a configuration line says:
    the canonical device it registers, if any, the way it fills a node, the
    runlevels it gives, and the [dirty] mark its file gives. *)
Definition names (l : list tty_node_t) : list string :=
  map (fun n => name (data n)) l.

Definition device_of (line : string) : option string :=
  let '(_, _, _, st) := parse_line line in
  match p_dev st with
  | None => None
  | Some dev => canonicalize (Some dev)
  end.

Definition line_fill (line dev : string) (rlimit : rlimit_t)
           (file : option string) : tty_node_t -> tty_node_t :=
  let '(args, noclear, nowait, st) := parse_line line in
  fill_node dev args noclear nowait st rlimit file.

Definition line_runlevels (line : string) : Z :=
  let '(_, _, _, st) := parse_line line in
  conf_parse_runlevels (p_runlevels st).

Definition file_dirty (file : option string) : Z :=
  match file with
  | Some f => if conf_changed f then 1 else 0
  | None => 0
  end.

(** A [tty] line of the configuration: the text after [tty], the limits
    in force, and the file it stands in. *)
Record tty_conf : Type := mk_conf {
  c_line   : string;
  c_rlimit : rlimit_t;
  c_file   : option string
}.

Definition register_conf (conf : list tty_conf) (w : world) : world :=
  fold_left
    (fun w c => snd (tty_register (Some (c_line c)) (c_rlimit c) (c_file c) w))
    conf w.

(** Modelled from the spec: the reload of the configuration is driven by
    [conf.c], which is not among the sources.  All nodes are marked, every
    [tty] line of the configuration is registered, and [tty_reload(NULL)]
    is called, as the comments of [tty_sweep] and [tty_reload] have it. *)
Definition reload (conf : list tty_conf) (w : world) : world :=
  tty_reload None (register_conf conf (tty_mark w)).

(** Does the line register the device [d]?  And the last line of a
    configuration that does. *)
Definition registers (c : tty_conf) (d : string) : bool :=
  match device_of (c_line c) with
  | Some d' => String.eqb d' d
  | None => false
  end.

Fixpoint conf_for (conf : list tty_conf) (d : string) : option tty_conf :=
  match conf with
  | [] => None
  | c :: conf' =>
      match conf_for conf' d with
      | Some c' => Some c'
      | None => if registers c d then Some c else None
      end
  end.

(** A configuration whose files have not changed. *)
Definition unchanged (conf : list tty_conf) : Prop :=
  forall c, In c conf -> file_dirty (c_file c) = 0.

(** The state a reload leaves: the nodes are those of the devices of the
    configuration, with the runlevels of their last line, and a TTY that
    runs is enabled at the runlevel. *)
Definition settled (conf : list tty_conf) (w : world) : Prop :=
  NoDup (names (tty_list w)) /\
  (forall n, In n (tty_list w) ->
     exists c, conf_for conf (name (data n)) = Some c /\
               runlevels (data n) = line_runlevels (c_line c) /\
               (pid (data n) <> 0 ->
                ISSET (runlevels (data n)) (runlevel w) = true)) /\
  (forall d, conf_for conf d <> None -> In d (names (tty_list w))).

Definition pids (l : list tty_node_t) : list Z :=
  map (fun n => pid (data n)) l.

(** The calls that lead from the trace of [w] to that of [w']. *)
Definition calls_since (w w' : world) : list call :=
  skipn (List.length (trace w)) (trace w').

(** What can happen to the registry: a call of one of its functions, or a
    change of the runlevel. *)
Inductive step : world -> world -> Prop :=
| step_mark w : step w (tty_mark w)
| step_sweep w : step w (tty_sweep w)
| step_register line rlimit file w :
    step w (snd (tty_register line rlimit file w))
| step_unregister tty w : step w (snd (tty_unregister tty w))
| step_reload dev w : step w (tty_reload dev w)
| step_respawn p w : step w (snd (tty_respawn p w))
| step_runlevel w : step w (tty_runlevel w)
| step_level r w :
    step w (mk_world (tty_list w) r (fallback w) (trace w)).

Inductive reachable : world -> Prop :=
| reach_init r : reachable (mk_world [] r 0 [])
| reach_step w w' : reachable w -> step w w' -> reachable w'.

(** ** Properties of the registry *)

(** C8. [tty_stop] on a record with a live process makes two calls,
    [kill] of that process with [SIGKILL] and then [waitpid] for it, and
    sets the record's pid to 0, all other fields staying as they are; on a
    record whose pid is 0 it makes no call and changes nothing. *)
Theorem tty_stop_kills_at_once (tty : finit_tty_t) (t : list call) :
  (pid tty <> 0 ->
   tty_stop tty t =
     (set_pid 0 tty, t ++ [Kill (pid tty) SIGKILL; Waitpid (pid tty)]) /\
   pid (fst (tty_stop tty t)) = 0) /\
  (pid tty = 0 -> tty_stop tty t = (tty, t)).
Proof.
  unfold tty_stop. split.
  - intros H. apply Z.eqb_neq in H. rewrite H. now split.
  - intros H. now rewrite H.
Qed.

(** *** Registration *)

Lemma tty_register_eq (line : string) (rl : rlimit_t) (file : option string)
      (w : world) :
  tty_register (Some line) rl file w =
    match device_of line with
    | None => (EINVAL, w)
    | Some dev =>
        match tty_find dev w with
        | Some i =>
            (0, with_list (update_nth i (line_fill line dev rl file)
                                      (tty_list w)) w)
        | None =>
            (0, with_list (line_fill line dev rl file calloc_node
                             :: tty_list w) w)
        end
    end.
Proof.
  unfold tty_register, device_of, line_fill.
  destruct (parse_line line) as [[[a nc] nw] st].
  destruct (p_dev st) as [dev|]; [|reflexivity].
  destruct (canonicalize (Some dev)) as [dev'|]; reflexivity.
Qed.

Lemma fill_node_fields (dev : string) (a : list string) (nc nw : Z)
      (st : parsed) (rl : rlimit_t) (file : option string) (n : tty_node_t) :
  let n' := fill_node dev a nc nw st rl file n in
  name (data n') = dev /\
  pid (data n') = pid (data n) /\
  runlevels (data n') = conf_parse_runlevels (p_runlevels st) /\
  dirty n' = file_dirty file.
Proof. unfold fill_node. destruct (p_cmd st); cbn; auto. Qed.

Lemma line_fill_fields (line dev : string) (rl : rlimit_t)
      (file : option string) (n : tty_node_t) :
  let n' := line_fill line dev rl file n in
  name (data n') = dev /\
  pid (data n') = pid (data n) /\
  runlevels (data n') = line_runlevels line /\
  dirty n' = file_dirty file.
Proof.
  unfold line_fill, line_runlevels.
  destruct (parse_line line) as [[[a nc] nw] st].
  apply fill_node_fields.
Qed.

Lemma tty_find_some (dev : string) (w : world) (i : nat) :
  tty_find dev w = Some i ->
  exists n, nth_error (tty_list w) i = Some n /\ name (data n) = dev.
Proof.
  intros H. apply find_index_some in H. destruct H as (n & Hn & E).
  exists n. split; [exact Hn|]. apply String.eqb_eq in E. now subst.
Qed.

Lemma tty_find_none (dev : string) (w : world) :
  tty_find dev w = None -> ~ In dev (names (tty_list w)).
Proof.
  intros H Hin. unfold names in Hin. apply in_map_iff in Hin.
  destruct Hin as (n & E & Hn).
  pose proof (find_index_none _ _ H n Hn) as F. cbv beta in F.
  rewrite E, String.eqb_refl in F. discriminate.
Qed.

Lemma tty_find_in (dev : string) (w : world) :
  In dev (names (tty_list w)) -> exists i, tty_find dev w = Some i.
Proof.
  intros Hin. destruct (tty_find dev w) as [i|] eqn:F; [now exists i|].
  now apply tty_find_none in F.
Qed.

(** Registration, by what [tty_find] answers: a hit updates the node in
    place, a miss puts a new node at the head. *)
Lemma register_names (line : string) (rl : rlimit_t) (file : option string)
      (w : world) :
  let w' := snd (tty_register (Some line) rl file w) in
  match device_of line with
  | None => w' = w
  | Some dev =>
      match tty_find dev w with
      | Some _ => names (tty_list w') = names (tty_list w)
      | None => names (tty_list w') = dev :: names (tty_list w)
      end
  end.
Proof.
  cbv zeta. rewrite tty_register_eq.
  destruct (device_of line) as [dev|]; [|reflexivity].
  destruct (tty_find dev w) as [i|] eqn:F; cbn [snd tty_list with_list].
  - apply update_nth_map. intros n Hn.
    destruct (tty_find_some _ _ _ F) as (m & Hm & E).
    assert (m = n) as -> by congruence.
    destruct (line_fill_fields line dev rl file n) as (-> & _). now symmetry.
  - unfold names. cbn [map]. f_equal.
    now destruct (line_fill_fields line dev rl file calloc_node).
Qed.

Lemma register_NoDup (line : option string) (rl : rlimit_t)
      (file : option string) (w : world) :
  NoDup (names (tty_list w)) ->
  NoDup (names (tty_list (snd (tty_register line rl file w)))).
Proof.
  intros H. destruct line as [line|]; [|exact H].
  pose proof (register_names line rl file w) as R. cbv zeta in R.
  destruct (device_of line) as [dev|]; [|now rewrite R].
  destruct (tty_find dev w) as [i|] eqn:F; rewrite R; [exact H|].
  constructor; [now apply tty_find_none | exact H].
Qed.

(** *** Stopping, starting and the action *)

Lemma tty_stop_fields (tty : finit_tty_t) (t : list call) :
  name (fst (tty_stop tty t)) = name tty /\
  runlevels (fst (tty_stop tty t)) = runlevels tty.
Proof. unfold tty_stop. now destruct (pid tty =? 0). Qed.

Lemma tty_start_running (tty : finit_tty_t) (t : list call) :
  pid tty <> 0 -> tty_start tty t = (tty, t).
Proof.
  intros H. unfold tty_start. apply Z.eqb_neq in H. now rewrite H.
Qed.

Lemma tty_start_fields (tty : finit_tty_t) (t : list call) :
  name (fst (tty_start tty t)) = name tty /\
  runlevels (fst (tty_start tty t)) = runlevels tty.
Proof.
  unfold tty_start. destruct (negb (pid tty =? 0)); [now split|].
  destruct (canonicalize (Some (name tty))) as [dev|]; [|now split].
  destruct (negb (tty_exist dev =? 0)); [now split|].
  destruct (cmd tty); now split.
Qed.

Lemma tty_action_fields (n : tty_node_t) (w : world) (t : list call) :
  let n' := fst (tty_action n w t) in
  name (data n') = name (data n) /\
  runlevels (data n') = runlevels (data n) /\
  dirty n' = dirty n.
Proof.
  unfold tty_action.
  destruct (tty_enabled (Some (data n)) w =? 0).
  - pose proof (tty_stop_fields (data n) t) as H.
    destruct (tty_stop (data n) t) as [tty t']. cbn in *. tauto.
  - pose proof (tty_start_fields (data n) t) as H.
    destruct (tty_start (data n) t) as [tty t']. cbn in *. tauto.
Qed.

(** After the action a TTY that runs is enabled at the runlevel. *)
Lemma tty_action_enabled (n : tty_node_t) (w : world) (t : list call) :
  pid (data (fst (tty_action n w t))) <> 0 ->
  ISSET (runlevels (data n)) (runlevel w) = true.
Proof.
  unfold tty_action, tty_enabled.
  destruct (ISSET (runlevels (data n)) (runlevel w)); [reflexivity|].
  cbn [Z.eqb]. unfold tty_stop.
  destruct (pid (data n) =? 0) eqn:E; cbn.
  - apply Z.eqb_eq in E. congruence.
  - congruence.
Qed.

(** The action leaves a TTY alone that runs and is enabled. *)
Lemma tty_action_running (n : tty_node_t) (w : world) (t : list call) :
  pid (data n) <> 0 ->
  ISSET (runlevels (data n)) (runlevel w) = true ->
  tty_action n w t = (n, t).
Proof.
  intros Hp He. unfold tty_action, tty_enabled. rewrite He. cbn [Z.eqb].
  rewrite (tty_start_running _ t Hp). now destruct n.
Qed.

(** The action makes no call for a TTY that does not run and is not
    enabled. *)
Lemma tty_action_idle (n : tty_node_t) (w : world) (t : list call) :
  pid (data n) = 0 ->
  ISSET (runlevels (data n)) (runlevel w) = false ->
  tty_action n w t = (n, t).
Proof.
  intros Hp He. unfold tty_action, tty_enabled. rewrite He. cbn [Z.eqb].
  unfold tty_stop. rewrite Hp. cbn. now destruct n.
Qed.

(** *** The sweep and the loops *)

Lemma sweep_names_incl (l : list tty_node_t) (t : list call) (d : string) :
  In d (names (fst (sweep l t))) -> In d (names l).
Proof.
  revert t. induction l as [|n l IH]; intros t; cbn [sweep]; [auto|].
  destruct (dirty n =? 0).
  - specialize (IH t). destruct (sweep l t) as [l' t']. cbn in *.
    intros [H | H]; [now left | right; now apply IH].
  - pose proof (tty_stop_fields (data n) t) as (Hn & _).
    destruct (tty_stop (data n) t) as [tty t1]. cbn [fst] in Hn.
    destruct (dirty n =? -1).
    + intros H. right. now apply (IH t1).
    + specialize (IH t1). destruct (sweep l t1) as [l' t']. cbn in *.
      intros [H | H]; [left; congruence | right; now apply IH].
Qed.

Lemma sweep_NoDup (l : list tty_node_t) (t : list call) :
  NoDup (names l) -> NoDup (names (fst (sweep l t))).
Proof.
  revert t. induction l as [|n l IH]; intros t H; cbn [sweep]; [exact H|].
  inversion H as [|? ? Hn Hl]; subst.
  destruct (dirty n =? 0).
  - pose proof (IH t Hl) as I. pose proof (sweep_names_incl l t) as S.
    destruct (sweep l t) as [l' t']. cbn in *.
    constructor; [|exact I]. intros Hin. apply Hn. now apply S.
  - pose proof (tty_stop_fields (data n) t) as (Hname & _).
    destruct (tty_stop (data n) t) as [tty t1]. cbn [fst] in Hname.
    destruct (dirty n =? -1); [now apply IH|].
    pose proof (IH t1 Hl) as I. pose proof (sweep_names_incl l t1) as S.
    destruct (sweep l t1) as [l' t']. cbn in *.
    constructor; [|exact I]. rewrite Hname. intros Hin. apply Hn. now apply S.
Qed.

(** The sweep leaves a list alone in which no node is dirty. *)
Lemma sweep_clean (l : list tty_node_t) (t : list call) :
  (forall n, In n l -> dirty n = 0) -> sweep l t = (l, t).
Proof.
  induction l as [|n l IH]; intros H; cbn [sweep]; [reflexivity|].
  rewrite (H n (or_introl eq_refl)). cbn [Z.eqb].
  rewrite IH; [reflexivity|]. intros m Hm. apply H. now right.
Qed.

Lemma reload_all_names (w : world) (l : list tty_node_t) (t : list call) :
  names (fst (reload_all w l t)) = names l.
Proof.
  revert t. induction l as [|n l IH]; intros t; cbn [reload_all]; [reflexivity|].
  pose proof (tty_action_fields n w t) as (Hn & _).
  destruct (tty_action n w t) as [n' t1]. cbn [fst] in Hn.
  specialize (IH t1). destruct (reload_all w l t1) as [l' t2].
  cbn in *. now rewrite Hn, IH.
Qed.

Lemma action_all_names (w : world) (l : list tty_node_t) (t : list call) :
  names (fst (action_all w l t)) = names l.
Proof.
  revert t. induction l as [|n l IH]; intros t; cbn [action_all]; [reflexivity|].
  pose proof (tty_action_fields n w t) as (Hn & _).
  destruct (tty_action n w t) as [n' t1]. cbn [fst] in Hn.
  specialize (IH t1). destruct (action_all w l t1) as [l' t2].
  cbn in *. now rewrite Hn, IH.
Qed.

Lemma tty_fallback_list (lost : Z) (w : world) :
  tty_list (snd (tty_fallback lost w)) = tty_list w.
Proof.
  unfold tty_fallback. destruct FALLBACK_SHELL; [|reflexivity].
  destruct (lost =? 1).
  - now destruct (fallback w =? 0).
  - now destruct (negb (fallback w =? lost) || negb (tty_num_active w =? 0)%nat).
Qed.

(** Every step keeps the device names of the list distinct. *)
Lemma step_NoDup (w w' : world) :
  step w w' -> NoDup (names (tty_list w)) -> NoDup (names (tty_list w')).
Proof.
  intros S H. destruct S as [w|w|line rl file w|tty w|dev w|p w|w|r w].
  - unfold tty_mark, names. cbn [tty_list with_list].
    now rewrite map_map.
  - unfold tty_sweep. pose proof (sweep_NoDup (tty_list w) (trace w) H) as N.
    now destruct (sweep (tty_list w) (trace w)).
  - now apply register_NoDup.
  - destruct tty as [i|]; [|exact H]. cbn [tty_unregister snd tty_list with_list].
    unfold names. rewrite remove_nth_map. now apply remove_nth_NoDup.
  - destruct dev as [dev|]; cbn [tty_reload].
    + destruct (tty_find dev w) as [i|]; [|exact H].
      destruct (nth_error (tty_list w) i) as [n|] eqn:E; [|exact H].
      pose proof (tty_action_fields n w (trace w)) as (Hn & _).
      destruct (tty_action n w (trace w)) as [n' t]. cbn [fst] in Hn.
      cbn [tty_list with_list with_trace]. unfold names.
      rewrite update_nth_map; [exact H|].
      intros x Hx. cbn. congruence.
    + pose proof (sweep_NoDup (tty_list w) (trace w) H) as N.
      unfold tty_sweep. destruct (sweep (tty_list w) (trace w)) as [l t].
      cbn [fst] in N. cbn [tty_list with_list with_trace trace].
      pose proof (reload_all_names
                    (with_trace t (with_list l w)) l t) as R.
      destruct (reload_all _ l t) as [l' t'].
      cbn [fst] in R. cbn [tty_list with_list with_trace]. now rewrite R.
  - unfold tty_respawn. destruct (tty_find_by_pid p w) as [i|].
    2:{ now rewrite tty_fallback_list. }
    destruct (nth_error (tty_list w) i) as [n|] eqn:E.
    2:{ now rewrite tty_fallback_list. }
    pose proof (tty_action_fields
                  (mk_node (set_pid 0 (data n)) (dirty n)) w
                  (trace w ++ [Utmp_set_dead p])) as (Hn & _).
    destruct (tty_action _ w _) as [n' t]. cbn [fst] in Hn.
    cbn [snd tty_list with_list with_trace]. unfold names.
    rewrite update_nth_map; [exact H|].
    intros x Hx. cbn in Hn. congruence.
  - unfold tty_runlevel.
    pose proof (action_all_names w (tty_list w) (trace w)) as R.
    destruct (action_all w (tty_list w) (trace w)) as [l t].
    cbn [fst] in R. rewrite tty_fallback_list.
    cbn [tty_list with_list with_trace]. now rewrite R.
  - exact H.
Qed.

Lemma reachable_NoDup (w : world) :
  reachable w -> NoDup (names (tty_list w)).
Proof.
  induction 1 as [r | w w' _ IH S].
  - constructor.
  - exact (step_NoDup w w' S IH).
Qed.

Lemma nth_error_names (l : list tty_node_t) (i : nat) (n : tty_node_t) :
  nth_error l i = Some n -> In (name (data n)) (names l).
Proof.
  intros H. unfold names.
  apply (in_map (fun n => name (data n))). now apply nth_error_In in H.
Qed.

(** A line that registers a device leaves a node of that name. *)
Lemma register_listed (line dev : string) (rl : rlimit_t)
      (file : option string) (w : world) :
  device_of line = Some dev ->
  In dev (names (tty_list (snd (tty_register (Some line) rl file w)))).
Proof.
  intros D. pose proof (register_names line rl file w) as R.
  cbv zeta in R. rewrite D in R.
  destruct (tty_find dev w) as [i|] eqn:F; rewrite R.
  - destruct (tty_find_some _ _ _ F) as (n & Hn & <-).
    now apply nth_error_names in Hn.
  - now left.
Qed.

Lemma register_num (line : string) (rl : rlimit_t) (file : option string)
      (w : world) :
  tty_num (snd (tty_register (Some line) rl file w)) =
    match device_of line with
    | None => tty_num w
    | Some dev =>
        match tty_find dev w with
        | Some _ => tty_num w
        | None => S (tty_num w)
        end
    end.
Proof.
  rewrite tty_register_eq. unfold tty_num.
  destruct (device_of line) as [dev|]; [|reflexivity].
  destruct (tty_find dev w) as [i|]; cbn [snd tty_list with_list].
  - apply update_nth_length.
  - reflexivity.
Qed.

Lemma register_again_num (line : option string) (rl rl' : rlimit_t)
      (file file' : option string) (w : world) :
  let w1 := snd (tty_register line rl file w) in
  tty_num (snd (tty_register line rl' file' w1)) = tty_num w1.
Proof.
  destruct line as [line|]; [|reflexivity].
  cbv zeta. rewrite (register_num line rl' file').
  destruct (device_of line) as [dev|] eqn:D; [|reflexivity].
  destruct (tty_find_in dev _ (register_listed line dev rl file w D))
    as (i & ->).
  reflexivity.
Qed.

(** C10. In every state the registry can reach, no two nodes have the
    same device name.  [tty_register] looks the canonical device up with
    [tty_find]: on a hit it updates the node found, in place, and the list
    keeps its length; on a miss it puts a new node at the head; so a line
    registered a second time leaves [tty_num] as it is.  [tty_unregister]
    takes the node at the given place out of the list and leaves the
    others, in their order. *)
Theorem tty_registry_one_node_per_device :
  (forall w, reachable w -> NoDup (names (tty_list w))) /\
  (forall line rl file w dev,
      device_of line = Some dev ->
      let w' := snd (tty_register (Some line) rl file w) in
      match tty_find dev w with
      | Some i =>
          tty_list w' = update_nth i (line_fill line dev rl file) (tty_list w)
          /\ tty_num w' = tty_num w
      | None =>
          tty_list w' = line_fill line dev rl file calloc_node :: tty_list w
          /\ tty_num w' = S (tty_num w)
      end) /\
  (forall line rl file w,
      device_of line = None ->
      tty_register (Some line) rl file w = (EINVAL, w)) /\
  (forall line rl rl' file file' w,
      let w1 := snd (tty_register line rl file w) in
      tty_num (snd (tty_register line rl' file' w1)) = tty_num w1) /\
  (forall i w,
      (i < tty_num w)%nat ->
      let w' := snd (tty_unregister (Some i) w) in
      S (tty_num w') = tty_num w /\
      (forall j, (j < i)%nat ->
                 nth_error (tty_list w') j = nth_error (tty_list w) j) /\
      (forall j, (i <= j)%nat ->
                 nth_error (tty_list w') j = nth_error (tty_list w) (S j))).
Proof.
  split; [exact reachable_NoDup|].
  split.
  { intros line rl file w dev D w'. subst w'.
    pose proof (register_num line rl file w) as N.
    rewrite tty_register_eq in *. rewrite D in *.
    destruct (tty_find dev w) as [i|]; cbn [snd tty_list with_list] in *;
      now split. }
  split.
  { intros line rl file w D. now rewrite tty_register_eq, D. }
  split; [exact register_again_num|].
  intros i w Hi w'. subst w'. unfold tty_num in *.
  cbn [tty_unregister snd tty_list with_list].
  split; [now apply remove_nth_length|].
  split; intros j Hj.
  - now apply remove_nth_before.
  - now apply remove_nth_after.
Qed.

(** *** Registering a configuration *)

Lemma names_same_index (l : list tty_node_t) (i j : nat) (n m : tty_node_t) :
  NoDup (names l) ->
  nth_error l i = Some n -> nth_error l j = Some m ->
  name (data n) = name (data m) -> i = j.
Proof.
  intros H Hi Hj E.
  apply (proj1 (NoDup_nth_error (names l)) H).
  - apply nth_error_Some. unfold names. rewrite nth_error_map, Hi. discriminate.
  - unfold names. rewrite !nth_error_map, Hi, Hj. cbn. now rewrite E.
Qed.

Lemma names_same_node (l : list tty_node_t) (n m : tty_node_t) :
  NoDup (names l) -> In n l -> In m l ->
  name (data n) = name (data m) -> n = m.
Proof.
  intros H Hn Hm E.
  apply In_nth_error in Hn, Hm. destruct Hn as (i & Hi), Hm as (j & Hj).
  assert (i = j) as -> by exact (names_same_index l i j n m H Hi Hj E).
  congruence.
Qed.

Lemma conf_for_snoc (conf : list tty_conf) (c : tty_conf) (d : string) :
  conf_for (conf ++ [c]) d =
    if registers c d then Some c else conf_for conf d.
Proof.
  induction conf as [|x conf IH]; cbn [app conf_for].
  - now destruct (registers c d).
  - rewrite IH. destruct (registers c d); [reflexivity|].
    reflexivity.
Qed.

Lemma conf_for_in (conf : list tty_conf) (d : string) (c : tty_conf) :
  conf_for conf d = Some c -> In c conf /\ registers c d = true.
Proof.
  induction conf as [|x conf IH]; cbn [conf_for]; [discriminate|].
  destruct (conf_for conf d) as [c'|].
  - intros [= <-]. destruct (IH eq_refl). split; [now right | assumption].
  - destruct (registers x d) eqn:R; [|discriminate].
    intros [= <-]. split; [now left | exact R].
Qed.

Lemma registers_device (c : tty_conf) (d : string) :
  registers c d = true <-> device_of (c_line c) = Some d.
Proof.
  unfold registers. destruct (device_of (c_line c)) as [d'|].
  - split.
    + intros H. apply String.eqb_eq in H. now subst.
    + intros [= ->]. apply String.eqb_refl.
  - split; discriminate.
Qed.

Lemma register_conf_snoc (conf : list tty_conf) (c : tty_conf) (w : world) :
  register_conf (conf ++ [c]) w =
    snd (tty_register (Some (c_line c)) (c_rlimit c) (c_file c)
                      (register_conf conf w)).
Proof. unfold register_conf. now rewrite fold_left_app. Qed.

Lemma register_frame (line : option string) (rl : rlimit_t)
      (file : option string) (w : world) :
  let w' := snd (tty_register line rl file w) in
  runlevel w' = runlevel w /\ trace w' = trace w /\ fallback w' = fallback w.
Proof.
  destruct line as [line|]; [|now cbn].
  cbv zeta. rewrite tty_register_eq.
  destruct (device_of line) as [dev|]; [|now cbn].
  destruct (tty_find dev w); now cbn.
Qed.

Lemma register_conf_frame (conf : list tty_conf) (w : world) :
  let w' := register_conf conf w in
  runlevel w' = runlevel w /\ trace w' = trace w.
Proof.
  cbv zeta. revert w. induction conf as [|c conf IH]; intros w; [now cbn|].
  unfold register_conf in *. cbn [fold_left].
  destruct (IH (snd (tty_register (Some (c_line c)) (c_rlimit c) (c_file c) w)))
    as (-> & ->).
  destruct (register_frame (Some (c_line c)) (c_rlimit c) (c_file c) w)
    as (-> & -> & _).
  now split.
Qed.

(** What registering a configuration leaves: distinct names; for a device
    that a line registers, a node with the runlevels and the mark of the
    last such line; any other node as it was. *)
Lemma register_conf_nodes (conf : list tty_conf) (w : world) :
  NoDup (names (tty_list w)) ->
  let w' := register_conf conf w in
  NoDup (names (tty_list w')) /\
  (forall n, In n (tty_list w') ->
     match conf_for conf (name (data n)) with
     | Some c => runlevels (data n) = line_runlevels (c_line c) /\
                 dirty n = file_dirty (c_file c)
     | None => In n (tty_list w)
     end) /\
  (forall d, conf_for conf d <> None -> In d (names (tty_list w'))).
Proof.
  intros Hw. cbv zeta. induction conf as [|c conf IH] using rev_ind.
  - cbn. repeat split; auto. intros d H. contradiction.
  - destruct IH as (Hnd & Hnodes & Hdev).
    rewrite register_conf_snoc.
    set (W := register_conf conf w) in *.
    pose proof (register_names (c_line c) (c_rlimit c) (c_file c) W) as Rn.
    pose proof (register_NoDup (Some (c_line c)) (c_rlimit c) (c_file c) W Hnd)
      as Rd.
    cbv zeta in Rn. rewrite tty_register_eq in *.
    split; [exact Rd|].
    destruct (device_of (c_line c)) as [dc|] eqn:D.
    2:{ cbn [snd] in *. split.
        - intros n Hn. rewrite conf_for_snoc.
          unfold registers. rewrite D. now apply Hnodes.
        - intros d. rewrite conf_for_snoc. unfold registers. rewrite D.
          apply Hdev. }
    assert (Hreg : forall d, registers c d = true <-> dc = d).
    { intros d. rewrite registers_device, D. split; congruence. }
    destruct (tty_find dc W) as [i|] eqn:F; cbn [snd tty_list with_list] in *.
    + destruct (tty_find_some _ _ _ F) as (m & Hm & Em).
      split.
      * intros n Hn. rewrite conf_for_snoc.
        apply In_update_nth in Hn.
        destruct Hn as [(m' & Hm' & ->) | (j & Hj & Hn)].
        -- destruct (line_fill_fields (c_line c) dc (c_rlimit c) (c_file c) m')
             as (-> & _ & Hr & Hd).
           rewrite (proj2 (Hreg dc) eq_refl). now split.
        -- destruct (registers c (name (data n))) eqn:R.
           ++ apply Hreg in R. exfalso. apply Hj.
              apply (names_same_index (tty_list W) j i n m Hnd Hn Hm).
              congruence.
           ++ apply Hnodes. now apply nth_error_In in Hn.
      * intros d. rewrite conf_for_snoc, Rn.
        destruct (registers c d) eqn:R; [|apply Hdev].
        intros _. apply Hreg in R. subst d. rewrite <- Em.
        now apply nth_error_names in Hm.
    + split.
      * intros n [<- | Hn]; rewrite conf_for_snoc.
        -- destruct (line_fill_fields (c_line c) dc (c_rlimit c) (c_file c)
                                      calloc_node) as (-> & _ & Hr & Hd).
           rewrite (proj2 (Hreg dc) eq_refl). now split.
        -- destruct (registers c (name (data n))) eqn:R.
           ++ apply Hreg in R. exfalso. apply (tty_find_none _ _ F).
              rewrite R. unfold names.
              now apply (in_map (fun n => name (data n))).
           ++ now apply Hnodes.
      * intros d. rewrite conf_for_snoc, Rn.
        destruct (registers c d) eqn:R.
        -- intros _. apply Hreg in R. now left.
        -- intros H. right. now apply Hdev.
Qed.

(** When every device of the configuration has its node already, the
    registration changes neither the names nor the pids, place by place. *)
Lemma register_conf_hits (conf : list tty_conf) (w : world) :
  (forall d, conf_for conf d <> None -> In d (names (tty_list w))) ->
  let w' := register_conf conf w in
  names (tty_list w') = names (tty_list w) /\
  pids (tty_list w') = pids (tty_list w).
Proof.
  cbv zeta. revert w. induction conf as [|c conf IH]; intros w H.
  - now cbn.
  - unfold register_conf in *. cbn [fold_left].
    set (w1 := snd (tty_register (Some (c_line c)) (c_rlimit c) (c_file c) w)).
    assert (H1 : names (tty_list w1) = names (tty_list w) /\
                 pids (tty_list w1) = pids (tty_list w)).
    { subst w1. rewrite tty_register_eq.
      destruct (device_of (c_line c)) as [dc|] eqn:D; [|now cbn].
      assert (Hin : In dc (names (tty_list w))).
      { apply H. cbn [conf_for]. destruct (conf_for conf dc); [discriminate|].
        rewrite (proj2 (registers_device c dc) D). discriminate. }
      destruct (tty_find_in dc w Hin) as (i & F). rewrite F.
      cbn [snd tty_list with_list].
      destruct (tty_find_some _ _ _ F) as (m & Hm & Em).
      split; apply update_nth_map; intros x Hx;
        assert (m = x) as -> by congruence;
        destruct (line_fill_fields (c_line c) dc (c_rlimit c) (c_file c) x)
          as (Hn & Hp & _); congruence. }
    destruct H1 as (Hn1 & Hp1).
    destruct (IH w1) as (Hn & Hp).
    + intros d Hd. rewrite Hn1. apply H. cbn [conf_for].
      destruct (conf_for conf d); [discriminate | contradiction].
    + split; congruence.
Qed.

(** *** What the sweep and the loop of the reload leave *)

Lemma sweep_nodes (l : list tty_node_t) (t : list call) :
  (forall n', In n' (fst (sweep l t)) ->
     exists n, In n l /\ dirty n <> -1 /\
               name (data n') = name (data n) /\
               runlevels (data n') = runlevels (data n)) /\
  (forall n, In n l -> dirty n <> -1 ->
             In (name (data n)) (names (fst (sweep l t)))).
Proof.
  revert t. induction l as [|n l IH]; intros t; cbn [sweep].
  - split; intros x []. 
  - destruct (Z.eqb_spec (dirty n) 0) as [E0|E0].
    + destruct (IH t) as (I1 & I2). destruct (sweep l t) as [l' t'].
      cbn [fst] in *. split.
      * intros n' [<- | Hn'].
        -- exists n. repeat split; [now left | lia].
        -- destruct (I1 n' Hn') as (m & Hm & R). exists m.
           split; [now right | exact R].
      * intros m [<- | Hm] Hd; [now left|]. right. now apply I2.
    + pose proof (tty_stop_fields (data n) t) as (Hname & Hrl).
      destruct (tty_stop (data n) t) as [tty t1]. cbn [fst] in Hname, Hrl.
      destruct (Z.eqb_spec (dirty n) (-1)) as [E1|E1].
      * destruct (IH t1) as (I1 & I2). split.
        -- intros n' Hn'. destruct (I1 n' Hn') as (m & Hm & R). exists m.
           split; [now right | exact R].
        -- intros m [<- | Hm] Hd; [contradiction | now apply I2].
      * destruct (IH t1) as (I1 & I2). destruct (sweep l t1) as [l' t'].
        cbn [fst] in *. split.
        -- intros n' [<- | Hn'].
           ++ exists n. cbn. split; [now left | repeat split; auto].
           ++ destruct (I1 n' Hn') as (m & Hm & R). exists m.
              split; [now right | exact R].
        -- intros m [<- | Hm] Hd; [left; now cbn | right; now apply I2].
Qed.

Lemma reload_all_nodes (w : world) (l : list tty_node_t) (t : list call) :
  forall n', In n' (fst (reload_all w l t)) ->
    dirty n' = 0 /\
    exists n, In n l /\
              name (data n') = name (data n) /\
              runlevels (data n') = runlevels (data n) /\
              (pid (data n') <> 0 ->
               ISSET (runlevels (data n)) (runlevel w) = true).
Proof.
  revert t. induction l as [|n l IH]; intros t; cbn [reload_all].
  - intros x [].
  - pose proof (tty_action_fields n w t) as (Hn & Hr & _).
    pose proof (tty_action_enabled n w t) as He.
    destruct (tty_action n w t) as [n1 t1]. cbn [fst] in *.
    specialize (IH t1). destruct (reload_all w l t1) as [l' t2].
    cbn [fst] in *. intros n' [<- | Hn'].
    + split; [reflexivity|]. exists n. cbn. repeat split; auto.
    + destruct (IH n' Hn') as (Hd & m & Hm & R). split; [exact Hd|].
      exists m. split; [now right | exact R].
Qed.

(** The calls of the action for a TTY that, if it runs, is enabled: no
    signal is sent. *)
Lemma tty_action_spares (n : tty_node_t) (w : world) (t : list call) :
  (pid (data n) <> 0 -> ISSET (runlevels (data n)) (runlevel w) = true) ->
  exists calls,
    snd (tty_action n w t) = t ++ calls /\
    (forall p sig, ~ In (Kill p sig) calls) /\
    (pid (data n) <> 0 -> fst (tty_action n w t) = n).
Proof.
  intros H.
  assert (Quiet : forall n', (pid (data n) <> 0 -> n' = n) ->
            exists calls, t = t ++ calls /\
              (forall p sig, ~ In (Kill p sig) calls) /\
              (pid (data n) <> 0 -> n' = n)).
  { intros n' Hn'. exists []. rewrite app_nil_r.
    split; [reflexivity|]. split; [intros p sig []|exact Hn']. }
  destruct (Z.eq_dec (pid (data n)) 0) as [P|P].
  - destruct (ISSET (runlevels (data n)) (runlevel w)) eqn:E.
    + unfold tty_action, tty_enabled. rewrite E. cbn [Z.eqb].
      unfold tty_start.
      rewrite (proj2 (Z.eqb_eq (pid (data n)) 0) P). cbn [negb].
      destruct (canonicalize (Some (name (data n)))) as [dev|].
      2:{ cbn [fst snd]. apply Quiet. intros; contradiction. }
      destruct (negb (tty_exist dev =? 0)).
      { cbn [fst snd]. apply Quiet. intros; contradiction. }
      destruct (cmd (data n)); eexists; cbn [fst snd];
        (split; [reflexivity|]);
        (split; [|intros; contradiction]);
        intros p sig [Hk | []]; discriminate.
    + rewrite (tty_action_idle n w t P E). cbn [fst snd]. now apply Quiet.
  - rewrite (tty_action_running n w t P (H P)). cbn [fst snd]. now apply Quiet.
Qed.

(** The loop of the reload over nodes that are not dirty and, if they run,
    are enabled: every running TTY stays as it is, and no signal is
    sent. *)
Lemma reload_all_spares (w : world) (l : list tty_node_t) (t : list call) :
  (forall n, In n l ->
     dirty n = 0 /\
     (pid (data n) <> 0 -> ISSET (runlevels (data n)) (runlevel w) = true)) ->
  exists calls,
    snd (reload_all w l t) = t ++ calls /\
    (forall p sig, ~ In (Kill p sig) calls) /\
    (forall i n, nth_error l i = Some n -> pid (data n) <> 0 ->
                 nth_error (fst (reload_all w l t)) i = Some n).
Proof.
  revert t. induction l as [|n l IH]; intros t H; cbn [reload_all].
  - exists []. cbn [fst snd]. rewrite app_nil_r.
    split; [reflexivity|]. split; [intros p sig []|].
    intros [|i] n; discriminate.
  - destruct (H n (or_introl eq_refl)) as (Hd & He).
    destruct (tty_action_spares n w t He) as (c1 & Ht1 & Hk1 & Hn1).
    destruct (tty_action n w t) as [n1 t1]. cbn [fst snd] in *. subst t1.
    destruct (IH (t ++ c1)) as (c2 & Ht2 & Hk2 & Hn2).
    { intros m Hm. apply H. now right. }
    destruct (reload_all w l (t ++ c1)) as [l' t2]. cbn [fst snd] in *.
    subst t2. exists (c1 ++ c2). split; [now rewrite app_assoc|].
    split.
    + intros p sig Hin. apply in_app_or in Hin.
      destruct Hin; [now apply (Hk1 p sig) | now apply (Hk2 p sig)].
    + intros [|i] m; cbn [nth_error].
      * intros [= <-] Hp. rewrite (Hn1 Hp). f_equal.
        destruct n as [d di]. cbn in *. now subst di.
      * apply Hn2.
Qed.

(** *** The reload *)

Lemma file_dirty_range (file : option string) :
  file_dirty file = 0 \/ file_dirty file = 1.
Proof.
  unfold file_dirty. destruct file as [f|]; [|now left].
  destruct (conf_changed f); [now right | now left].
Qed.

Lemma sweep_keeps (l : list tty_node_t) (t : list call) (n : tty_node_t) :
  In n l -> dirty n = 0 -> In n (fst (sweep l t)).
Proof.
  revert t. induction l as [|m l IH]; intros t; cbn [sweep In]; [tauto|].
  intros Hin Hd. destruct (Z.eqb_spec (dirty m) 0) as [E|E].
  - specialize (IH t). destruct (sweep l t) as [l' t']. cbn [fst In] in *.
    destruct Hin as [-> | Hin]; [now left | right; now apply IH].
  - destruct Hin as [-> | Hin]; [contradiction|].
    destruct (tty_stop (data m) t) as [tty t1].
    destruct (dirty m =? -1); [now apply IH|].
    specialize (IH t1). destruct (sweep l t1) as [l' t']. cbn [fst In] in *.
    right. now apply IH.
Qed.

Lemma mark_fields (w : world) :
  names (tty_list (tty_mark w)) = names (tty_list w) /\
  pids (tty_list (tty_mark w)) = pids (tty_list w) /\
  (forall n, In n (tty_list (tty_mark w)) -> dirty n = -1) /\
  runlevel (tty_mark w) = runlevel w /\
  trace (tty_mark w) = trace w.
Proof.
  unfold tty_mark, names, pids. cbn [tty_list with_list runlevel trace].
  rewrite !map_map. repeat split; auto.
  intros n Hn. apply in_map_iff in Hn. now destruct Hn as (m & <- & _).
Qed.

(** [tty_reload(NULL)]: the nodes it leaves. *)
Lemma reload_none_nodes (w : world) :
  let w' := tty_reload None w in
  runlevel w' = runlevel w /\
  (forall n', In n' (tty_list w') ->
     dirty n' = 0 /\
     (pid (data n') <> 0 ->
      ISSET (runlevels (data n')) (runlevel w) = true) /\
     exists n, In n (tty_list w) /\ dirty n <> -1 /\
               name (data n') = name (data n) /\
               runlevels (data n') = runlevels (data n)) /\
  (forall n, In n (tty_list w) -> dirty n <> -1 ->
             In (name (data n)) (names (tty_list w'))).
Proof.
  cbv zeta. unfold tty_reload, tty_sweep.
  destruct (sweep_nodes (tty_list w) (trace w)) as (S1 & S2).
  destruct (sweep (tty_list w) (trace w)) as [l1 t1]. cbn [fst] in *.
  cbn [tty_list trace with_list with_trace].
  set (w1 := with_trace t1 (with_list l1 w)).
  pose proof (reload_all_nodes w1 l1 t1) as R.
  pose proof (reload_all_names w1 l1 t1) as N.
  destruct (reload_all w1 l1 t1) as [l2 t2]. cbn [fst] in *.
  cbn [tty_list runlevel with_list with_trace].
  split; [reflexivity|]. split.
  - intros n' Hn'. destruct (R n' Hn') as (Hd & m & Hm & En & Er & He).
    split; [exact Hd|]. split; [rewrite Er; exact He|].
    destruct (S1 m Hm) as (n & Hn & Hdn & En' & Er').
    exists n. repeat split; auto; congruence.
  - intros n Hn Hd. rewrite N. now apply S2.
Qed.

(** [tty_reload(NULL)] on nodes that are not dirty and, if they run, are
    enabled. *)
Lemma reload_none_clean (w : world) :
  (forall n, In n (tty_list w) ->
     dirty n = 0 /\
     (pid (data n) <> 0 -> ISSET (runlevels (data n)) (runlevel w) = true)) ->
  let w' := tty_reload None w in
  names (tty_list w') = names (tty_list w) /\
  runlevel w' = runlevel w /\
  (forall i n, nth_error (tty_list w) i = Some n -> pid (data n) <> 0 ->
               nth_error (tty_list w') i = Some n) /\
  exists calls, trace w' = trace w ++ calls /\
                forall p sig, ~ In (Kill p sig) calls.
Proof.
  intros H. cbv zeta. unfold tty_reload, tty_sweep.
  rewrite sweep_clean by (intros n Hn; now apply H).
  cbn [tty_list trace with_list with_trace].
  set (w1 := with_trace (trace w) (with_list (tty_list w) w)).
  pose proof (reload_all_names w1 (tty_list w) (trace w)) as N.
  destruct (reload_all_spares w1 (tty_list w) (trace w) H)
    as (calls & Ht & Hk & Hn).
  destruct (reload_all w1 (tty_list w) (trace w)) as [l2 t2].
  cbn [fst snd] in *. cbn [tty_list trace runlevel with_list with_trace].
  repeat split; auto. exists calls. now split.
Qed.

(** A reload settles the registry, whatever it was. *)
Lemma reload_settles (conf : list tty_conf) (w : world) :
  NoDup (names (tty_list w)) -> settled conf (reload conf w).
Proof.
  intros Hw. unfold reload.
  destruct (mark_fields w) as (Mn & _ & Md & Mr & _).
  assert (Hm : NoDup (names (tty_list (tty_mark w)))) by now rewrite Mn.
  destruct (register_conf_nodes conf (tty_mark w) Hm) as (Hnd & Hnodes & Hdev).
  set (W := register_conf conf (tty_mark w)) in *.
  destruct (reload_none_nodes W) as (Hr & Hs & Hk).
  assert (Hreg : forall n, In n (tty_list W) -> dirty n <> -1 ->
             exists c, conf_for conf (name (data n)) = Some c /\
                       runlevels (data n) = line_runlevels (c_line c)).
  { intros n Hn Hd. specialize (Hnodes n Hn).
    destruct (conf_for conf (name (data n))) as [c|].
    - exists c. split; [reflexivity | apply Hnodes].
    - exfalso. apply Hd. now apply Md. }
  split; [|split].
  - apply (step_NoDup W); [apply step_reload | exact Hnd].
  - intros n' Hn'. destruct (Hs n' Hn') as (_ & He & n & Hn & Hd & En & Er).
    destruct (Hreg n Hn Hd) as (c & Hc & Hrl).
    exists c. rewrite En, Er. repeat split; auto.
    rewrite <- Er, Hr. exact He.
  - intros d Hd. specialize (Hdev d Hd). unfold names in Hdev.
    apply in_map_iff in Hdev. destruct Hdev as (n & <- & Hn).
    apply Hk; [exact Hn|]. specialize (Hnodes n Hn).
    destruct (conf_for conf (name (data n))) as [c|]; [|contradiction].
    destruct Hnodes as (_ & ->).
    destruct (file_dirty_range (c_file c)) as [-> | ->]; discriminate.
Qed.

(** A reload of a settled registry with an unchanged configuration: the
    same devices in the same places, every running TTY with the pid it
    had, and no signal sent. *)
Lemma reload_settled (conf : list tty_conf) (w : world) :
  settled conf w -> unchanged conf ->
  let w' := reload conf w in
  names (tty_list w') = names (tty_list w) /\
  (forall i n, nth_error (tty_list w) i = Some n -> pid (data n) <> 0 ->
     exists n', nth_error (tty_list w') i = Some n' /\
                name (data n') = name (data n) /\
                pid (data n') = pid (data n)) /\
  (forall p sig, ~ In (Kill p sig) (calls_since w w')).
Proof.
  intros (Hnd & Hnodes & Hdev) Hun. cbv zeta. unfold reload.
  destruct (mark_fields w) as (Mn & Mp & Md & Mr & Mt).
  assert (Hm : NoDup (names (tty_list (tty_mark w)))) by now rewrite Mn.
  destruct (register_conf_nodes conf (tty_mark w) Hm) as (_ & Rnodes & _).
  destruct (register_conf_hits conf (tty_mark w)) as (Rn & Rp).
  { intros d Hd. rewrite Mn. now apply Hdev. }
  destruct (register_conf_frame conf (tty_mark w)) as (Rr & Rt).
  set (W := register_conf conf (tty_mark w)) in *.
  rewrite Mn in Rn. rewrite Mp in Rp. rewrite Mr in Rr. rewrite Mt in Rt.
  (* the nodes of [W], place by place *)
  assert (Hplace : forall i m, nth_error (tty_list W) i = Some m ->
            exists n, nth_error (tty_list w) i = Some n /\
                      name (data m) = name (data n) /\
                      pid (data m) = pid (data n)).
  { intros i m Hi.
    assert (Ni : nth_error (names (tty_list W)) i = Some (name (data m)))
      by (unfold names; now rewrite nth_error_map, Hi).
    assert (Pi : nth_error (pids (tty_list W)) i = Some (pid (data m)))
      by (unfold pids; now rewrite nth_error_map, Hi).
    rewrite Rn in Ni. rewrite Rp in Pi. unfold names, pids in Ni, Pi.
    rewrite nth_error_map in Ni, Pi.
    destruct (nth_error (tty_list w) i) as [n|]; [|discriminate].
    exists n. cbn in Ni, Pi. split; [reflexivity|]. split; congruence. }
  assert (Hclean : forall m, In m (tty_list W) ->
            dirty m = 0 /\
            (pid (data m) <> 0 ->
             ISSET (runlevels (data m)) (runlevel W) = true)).
  { intros m Hin. apply In_nth_error in Hin. destruct Hin as (i & Hi).
    destruct (Hplace i m Hi) as (n & Hn & En & Ep).
    apply nth_error_In in Hn, Hi.
    destruct (Hnodes n Hn) as (c & Hc & Hrl & He).
    specialize (Rnodes m Hi). rewrite En, Hc in Rnodes.
    destruct Rnodes as (Hr & Hd). destruct (conf_for_in _ _ _ Hc) as (Hcin & _).
    split.
    - rewrite Hd. now apply Hun.
    - intros Hp. rewrite Hr, <- Hrl, Rr. apply He. congruence. }
  destruct (reload_none_clean W Hclean) as (Sn & _ & Sp & calls & St & Sk).
  split; [congruence|]. split.
  - intros i n Hi Hp.
    assert (Ni : nth_error (names (tty_list w)) i = Some (name (data n)))
      by (unfold names; now rewrite nth_error_map, Hi).
    rewrite <- Rn in Ni. unfold names in Ni. rewrite nth_error_map in Ni.
    destruct (nth_error (tty_list W) i) as [m|] eqn:Hmi; [|discriminate].
    destruct (Hplace i m Hmi) as (n0 & Hn0 & En & Ep).
    assert (n0 = n) as -> by congruence.
    exists m. split; [|now split]. apply Sp; [exact Hmi | congruence].
  - intros p sig. unfold calls_since. rewrite St, Rt.
    rewrite skipn_app, Nat.sub_diag, skipn_all. cbn [app skipn].
    apply Sk.
Qed.

(** C9. A record registered from a file that has not changed is not
    dirty and has the pid it had; [tty_sweep] leaves a node that is not
    dirty where and as it is; [tty_start] returns a running record as it
    is, without a call.  So a reload with an unchanged configuration, of
    a registry as a reload leaves it, keeps every device in its place and
    every running TTY with its pid, and sends no signal; and of two
    reloads in a row with the same unchanged configuration, the second
    leaves every TTY that runs after the first with its pid. *)
Theorem tty_reload_unchanged_keeps_pid :
  (forall line rl file w dev,
      device_of line = Some dev ->
      file_dirty file = 0 ->
      let w' := snd (tty_register (Some line) rl file w) in
      match tty_find dev w with
      | Some i =>
          exists m n, nth_error (tty_list w) i = Some m /\
                      nth_error (tty_list w') i = Some n /\
                      name (data n) = dev /\ dirty n = 0 /\
                      pid (data n) = pid (data m)
      | None =>
          exists n, nth_error (tty_list w') 0 = Some n /\
                    name (data n) = dev /\ dirty n = 0 /\ pid (data n) = 0
      end) /\
  (forall w n,
      In n (tty_list w) -> dirty n = 0 -> In n (tty_list (tty_sweep w))) /\
  (forall tty t, pid tty <> 0 -> tty_start tty t = (tty, t)) /\
  (forall conf w,
      settled conf w -> unchanged conf ->
      let w' := reload conf w in
      names (tty_list w') = names (tty_list w) /\
      (forall i n, nth_error (tty_list w) i = Some n -> pid (data n) <> 0 ->
         exists n', nth_error (tty_list w') i = Some n' /\
                    name (data n') = name (data n) /\
                    pid (data n') = pid (data n)) /\
      (forall p sig, ~ In (Kill p sig) (calls_since w w'))) /\
  (forall conf w,
      NoDup (names (tty_list w)) -> unchanged conf ->
      let w1 := reload conf w in
      let w2 := reload conf w1 in
      names (tty_list w2) = names (tty_list w1) /\
      (forall i n, nth_error (tty_list w1) i = Some n -> pid (data n) <> 0 ->
         exists n', nth_error (tty_list w2) i = Some n' /\
                    name (data n') = name (data n) /\
                    pid (data n') = pid (data n)) /\
      (forall p sig, ~ In (Kill p sig) (calls_since w1 w2))).
Proof.
  split; [|split; [|split; [|split]]].
  - intros line rl file w dev D Hf w'. subst w'.
    rewrite tty_register_eq, D.
    destruct (tty_find dev w) as [i|] eqn:F; cbn [snd tty_list with_list].
    + destruct (tty_find_some _ _ _ F) as (m & Hm & _).
      exists m, (line_fill line dev rl file m).
      destruct (line_fill_fields line dev rl file m) as (Hn & Hp & _ & Hd).
      repeat split; auto; [|congruence].
      now apply nth_update_nth_same.
    + exists (line_fill line dev rl file calloc_node).
      destruct (line_fill_fields line dev rl file calloc_node)
        as (Hn & Hp & _ & Hd).
      repeat split; auto. congruence.
  - intros w n Hin Hd. unfold tty_sweep.
    pose proof (sweep_keeps (tty_list w) (trace w) n Hin Hd) as K.
    now destruct (sweep (tty_list w) (trace w)).
  - exact tty_start_running.
  - exact reload_settled.
  - intros conf w Hnd Hun.
    exact (reload_settled conf (reload conf w) (reload_settles conf w Hnd) Hun).
Qed.

(** ** More about the registry *)

(** *** Canonical device names *)

Lemma take_length (n : nat) (s : string) :
  (String.length (take n s) <= n)%nat.
Proof.
  revert s. induction n as [|n IH]; intros [|a s]; cbn; try lia.
  specialize (IH s). lia.
Qed.

Lemma take_take (n : nat) (s : string) : take n (take n s) = take n s.
Proof.
  revert s. induction n as [|n IH]; intros [|a s]; cbn; try reflexivity.
  now rewrite IH.
Qed.

Lemma take_short (n : nat) (s t : string) :
  take n t = s -> (String.length s < n)%nat -> t = s.
Proof.
  revert s t. induction n as [|n IH]; intros s [|a t]; cbn;
    intros <-; cbn; intros H; try reflexivity; try lia.
  f_equal. apply IH; [reflexivity | lia].
Qed.

(** [canonicalize] from [strlcpy] on: the name to look for is known. *)
Definition canonical_path (tty : string) : option string :=
  let path := take 79 tty in
  match stat path with
  | None =>
      if strncmp_eq path _PATH_DEV (String.length _PATH_DEV)
      then Some path
      else
        let path := take 79 (_PATH_DEV ++ tty)%string in
        match stat path with
        | None => Some path
        | Some chr => if chr then Some path else None
        end
  | Some chr => if chr then Some path else None
  end.

Lemma canonical_path_result (tty dev : string) :
  canonical_path tty = Some dev ->
  (String.length dev <= 79)%nat /\
  stat dev <> Some false /\
  canonical_path dev = Some dev /\
  (dev = "@console" -> tty = "@console").
Proof.
  unfold canonical_path. cbv zeta. remember 79%nat as n eqn:En.
  assert (Hc : forall t, take n t = "@console" -> t = "@console").
  { intros t E. apply (take_short n); [exact E | subst n; cbn; lia]. }
  destruct (stat (take n tty)) as [[|]|] eqn:S1.
  - intros H. assert (dev = take n tty) as -> by congruence.
    rewrite take_take, S1.
    repeat split; [apply take_length | discriminate | apply Hc].
  - discriminate.
  - destruct (strncmp_eq (take n tty) _PATH_DEV (String.length _PATH_DEV))
      eqn:P.
    + intros H. assert (dev = take n tty) as -> by congruence.
      rewrite take_take, S1, P.
      repeat split; [apply take_length | discriminate | apply Hc].
    + assert (Hdev : strncmp_eq (take n (_PATH_DEV ++ tty)) _PATH_DEV
                                (String.length _PATH_DEV) = true /\
                     take n (_PATH_DEV ++ tty) <> "@console").
      { subst n. split; [reflexivity | discriminate]. }
      destruct Hdev as [Hp Hne].
      destruct (stat (take n (_PATH_DEV ++ tty))) as [[|]|] eqn:S2;
        try discriminate; intros H;
        assert (dev = take n (_PATH_DEV ++ tty)) as -> by congruence;
        rewrite take_take, S2, ?Hp;
        (repeat split; [apply take_length | discriminate |]);
        intros E; contradiction.
Qed.

Lemma canonicalize_eq (tty : string) :
  canonicalize (Some tty) =
  match (if String.eqb tty "@console" then
           match console_active with
           | None => None
           | Some (Some line) => Some line
           | Some None => Some tty
           end
         else Some tty) with
  | None => None
  | Some tty => canonical_path tty
  end.
Proof. reflexivity. Qed.

(** X12. A device name that [canonicalize] returns fits its buffer of 80
    bytes, and it never names a file that exists and is not a character
    device: the device is there, or nothing has that name. *)
Theorem canonicalize_fits (tty : option string) (dev : string) :
  canonicalize tty = Some dev ->
  (String.length dev <= 79)%nat /\ stat dev <> Some false.
Proof.
  destruct tty as [tty|]; [|discriminate]. rewrite canonicalize_eq.
  destruct (if String.eqb tty "@console" then _ else _) as [t|];
    [|discriminate].
  intros H. apply canonical_path_result in H.
  destruct H as (Hlen & Hchr & _). now split.
Qed.

(** X13. A canonical name is its own canonical name: [tty_start], which
    canonicalizes the name of a registered TTY again, gets the name that
    [tty_register] stored. *)
Theorem canonicalize_again (tty : option string) (dev : string) :
  canonicalize tty = Some dev -> canonicalize (Some dev) = Some dev.
Proof.
  destruct tty as [tty|]; [|discriminate]. intros H0.
  assert (A : exists t, canonical_path t = Some dev /\
                        (tty <> "@console" -> t = tty)).
  { pose proof H0 as H. rewrite canonicalize_eq in H.
    destruct (String.eqb_spec tty "@console") as [Et|Et].
    - destruct console_active as [[line|]|]; [| |discriminate];
        eexists; (split; [exact H | intros; contradiction]).
    - exists tty. now split. }
  destruct A as (t & Ht & Htty).
  apply canonical_path_result in Ht. destruct Ht as (_ & _ & Hfix & Hcons).
  destruct (String.eqb_spec dev "@console") as [Ed|Ed].
  - destruct (String.eqb_spec tty "@console") as [Et|Et].
    + subst dev tty. exact H0.
    + exfalso. apply Et. rewrite <- (Htty Et). now apply Hcons.
  - rewrite canonicalize_eq.
    destruct (String.eqb_spec dev "@console") as [E|_]; [contradiction|].
    exact Hfix.
Qed.

(** *** Reading a line *)

Lemma collect_args (toks : list string) (acc : list string) (nc nw : Z) :
  let '(args, nc', nw') := collect toks acc nc nw in
  ((List.length acc <= TTY_MAX_ARGS)%nat ->
   (List.length args <= TTY_MAX_ARGS)%nat) /\
  (forall a, In a args -> In a acc \/
                          (In a toks /\ a <> "noclear" /\ a <> "nowait")) /\
  (nc' = nc \/ nc' = 1) /\ (nw' = nw \/ nw' = 1).
Proof.
  revert acc nc nw. induction toks as [|tok toks IH]; intros acc nc nw;
    cbn [collect].
  - repeat split; auto.
  - destruct (Nat.ltb_spec (List.length acc) TTY_MAX_ARGS) as [Hlt|Hge].
    2:{ repeat split; auto. }
    destruct (String.eqb_spec tok "noclear") as [E1|E1].
    { specialize (IH acc 1 nw).
      destruct (collect toks acc 1 nw) as [[args nc'] nw'].
      destruct IH as (I1 & I2 & I3 & I4). repeat split; auto.
      - intros a Ha. destruct (I2 a Ha) as [?|(? & ?)]; [now left|].
        right. split; [now right | assumption].
      - right. now destruct I3. }
    destruct (String.eqb_spec tok "nowait") as [E2|E2].
    { specialize (IH acc nc 1).
      destruct (collect toks acc nc 1) as [[args nc'] nw'].
      destruct IH as (I1 & I2 & I3 & I4). repeat split; auto.
      - intros a Ha. destruct (I2 a Ha) as [?|(? & ?)]; [now left|].
        right. split; [now right | assumption].
      - right. now destruct I4. }
    specialize (IH (acc ++ [tok]) nc nw).
    destruct (collect toks (acc ++ [tok]) nc nw) as [[args nc'] nw'].
    destruct IH as (I1 & I2 & I3 & I4). repeat split; auto.
    + intros _. apply I1. rewrite length_app. cbn. lia.
    + intros a Ha. destruct (I2 a Ha) as [Hin|(? & ?)].
      * apply in_app_or in Hin. destruct Hin as [?|[<-|[]]]; [now left|].
        right. split; [now left | now split].
      * right. split; [now right | assumption].
Qed.

(** X14. The first loop of [tty_register] never takes more arguments
    than [args] has room for, takes only tokens of the line, and never
    takes [noclear] or [nowait] for an argument; the two flags end up 0
    or 1. *)
Theorem parse_line_args (line : string) :
  let '(args, nc, nw, _) := parse_line line in
  (List.length args <= TTY_MAX_ARGS)%nat /\
  (forall a, In a args -> In a (strtok line blank_tab) /\
                          a <> "noclear" /\ a <> "nowait") /\
  (nc = 0 \/ nc = 1) /\ (nw = 0 \/ nw = 1).
Proof.
  unfold parse_line.
  pose proof (collect_args (strtok line blank_tab) [] 0 0) as H.
  destruct (collect (strtok line blank_tab) [] 0 0) as [[args nc] nw].
  destruct H as (H1 & H2 & H3 & H4). repeat split.
  - apply H1. cbn. lia.
  - now destruct (H2 a H) as [[]|(? & _)].
  - now destruct (H2 a H) as [[]|(_ & ? & _)].
  - now destruct (H2 a H) as [[]|(_ & _ & ?)].
  - exact H3.
  - exact H4.
Qed.

(** X15. A line that names no device is refused: when every token of
    the line is [noclear] or [nowait], and so for an empty line and a
    line of blanks, [tty_register] returns [EINVAL] and the registry
    stays as it is. *)
Theorem tty_register_needs_device (line : string) (rl : rlimit_t)
        (file : option string) (w : world) :
  (forall tok, In tok (strtok line blank_tab) ->
               tok = "noclear" \/ tok = "nowait") ->
  tty_register (Some line) rl file w = (EINVAL, w).
Proof.
  intros H. unfold tty_register, parse_line.
  pose proof (collect_args (strtok line blank_tab) [] 0 0) as C.
  destruct (collect (strtok line blank_tab) [] 0 0) as [[args nc] nw].
  destruct C as (_ & C & _).
  destruct args as [|a args]; [reflexivity|].
  exfalso. destruct (C a (or_introl eq_refl)) as [[]|(Hin & N1 & N2)].
  destruct (H a Hin); contradiction.
Qed.

(** *** Mark and sweep *)

(** The calls [tty_stop] makes for a node. *)
Definition stop_calls (n : tty_node_t) : list call :=
  if pid (data n) =? 0 then []
  else [Kill (pid (data n)) SIGKILL; Waitpid (pid (data n))].

Lemma tty_stop_calls (n : tty_node_t) (t : list call) :
  snd (tty_stop (data n) t) = t ++ stop_calls n /\
  pid (fst (tty_stop (data n) t)) = 0.
Proof.
  unfold tty_stop, stop_calls.
  destruct (Z.eqb_spec (pid (data n)) 0) as [E|E]; cbn [fst snd].
  - now rewrite app_nil_r.
  - now split.
Qed.

Lemma sweep_calls (l : list tty_node_t) (t : list call) :
  snd (sweep l t)
  = t ++ flat_map stop_calls (filter (fun n => negb (dirty n =? 0)) l) /\
  List.length (fst (sweep l t))
  = List.length (filter (fun n => negb (dirty n =? -1)) l) /\
  (forall n', In n' (fst (sweep l t)) ->
     dirty n' <> -1 /\ (dirty n' <> 0 -> pid (data n') = 0)).
Proof.
  revert t. induction l as [|n l IH]; intros t; cbn [sweep filter].
  - cbn. now rewrite app_nil_r.
  - destruct (Z.eqb_spec (dirty n) 0) as [E0|E0]; cbn [negb].
    + destruct (IH t) as (I1 & I2 & I3).
      destruct (sweep l t) as [l' t']. cbn [fst snd] in *.
      destruct (Z.eqb_spec (dirty n) (-1)) as [E1|E1]; [lia|]. cbn [negb].
      split; [exact I1|]. split; [cbn; now rewrite I2|].
      intros n' [<- | Hn']; [split; [exact E1 | contradiction] | now apply I3].
    + pose proof (tty_stop_calls n t) as (S1 & S2).
      destruct (tty_stop (data n) t) as [tty t1]. cbn [fst snd] in S1, S2.
      subst t1. cbn [flat_map].
      destruct (Z.eqb_spec (dirty n) (-1)) as [E1|E1]; cbn [negb].
      * destruct (IH (t ++ stop_calls n)) as (I1 & I2 & I3).
        split; [now rewrite I1, app_assoc|]. now split.
      * destruct (IH (t ++ stop_calls n)) as (I1 & I2 & I3).
        destruct (sweep l (t ++ stop_calls n)) as [l' t'].
        cbn [fst snd] in *.
        split; [now rewrite I1, app_assoc|].
        split; [cbn; now rewrite I2|].
        intros n' [<- | Hn']; [now split | now apply I3].
Qed.

(** X16. After [tty_sweep] no node marked -1 is left and every node that
    is still marked dirty is stopped; the sweep sends [SIGKILL], and
    waits, once for each running TTY that was not clean, in the order of
    the list, and it makes no other call. *)
Theorem tty_sweep_leaves (w : world) :
  (forall n, In n (tty_list (tty_sweep w)) ->
     dirty n <> -1 /\ (dirty n <> 0 -> pid (data n) = 0)) /\
  tty_num (tty_sweep w)
  = List.length (filter (fun n => negb (dirty n =? -1)) (tty_list w)) /\
  trace (tty_sweep w)
  = trace w ++ flat_map stop_calls
                        (filter (fun n => negb (dirty n =? 0)) (tty_list w)).
Proof.
  unfold tty_sweep, tty_num.
  destruct (sweep_calls (tty_list w) (trace w)) as (S1 & S2 & S3).
  destruct (sweep (tty_list w) (trace w)) as [l t]. cbn [fst snd] in *.
  cbn [tty_list trace with_list with_trace].
  split; [exact S3|]. split; [exact S2 | exact S1].
Qed.

(** X17. Marking every node and sweeping at once, with no registration
    in between, empties the registry and stops every running TTY. *)
Theorem tty_mark_sweep_clears (w : world) :
  tty_list (tty_sweep (tty_mark w)) = [] /\
  trace (tty_sweep (tty_mark w))
  = trace w ++ flat_map stop_calls (tty_list w).
Proof.
  unfold tty_sweep.
  destruct (sweep_calls (tty_list (tty_mark w)) (trace (tty_mark w)))
    as (T & N & _).
  destruct (sweep (tty_list (tty_mark w)) (trace (tty_mark w))) as [l1 t1].
  cbn [fst snd tty_list trace with_list with_trace] in *. subst t1.
  unfold tty_mark in *. cbn [tty_list trace with_list] in *.
  assert (F1 : forall l,
             filter (fun n => negb (dirty n =? -1)) (map (set_dirty (-1)) l)
             = []).
  { induction l as [|n l IH]; [reflexivity | exact IH]. }
  assert (F2 : forall l,
             flat_map stop_calls
               (filter (fun n => negb (dirty n =? 0)) (map (set_dirty (-1)) l))
             = flat_map stop_calls l).
  { induction l as [|n l IH]; [reflexivity|].
    cbn [map filter set_dirty dirty Z.eqb negb flat_map]. now rewrite IH. }
  rewrite F1 in N. rewrite F2. split; [|reflexivity].
  now apply length_zero_iff_nil.
Qed.

(** *** The runlevel, a reload of one device, and a respawn *)

Lemma action_all_nodes (w : world) (l : list tty_node_t) (t : list call) :
  forall n', In n' (fst (action_all w l t)) ->
    pid (data n') <> 0 ->
    ISSET (runlevels (data n')) (runlevel w) = true.
Proof.
  revert t. induction l as [|n l IH]; intros t; cbn [action_all];
    [intros n' []|].
  pose proof (tty_action_fields n w t) as (_ & Hr & _).
  pose proof (tty_action_enabled n w t) as He.
  destruct (tty_action n w t) as [n1 t1]. cbn [fst] in Hr, He.
  specialize (IH t1). destruct (action_all w l t1) as [l' t2].
  cbn [fst In] in *. intros n' [<- | Hn'] Hp.
  - rewrite Hr. now apply He.
  - now apply IH.
Qed.

(** X18. After [tty_runlevel] the registry holds the same devices in the
    same order, and a TTY that runs is enabled at the runlevel.  With the
    fallback shell built in: if a TTY runs then, no fallback shell is
    left; if none runs and there was no fallback shell, one is forked, as
    the last call. *)
Theorem tty_runlevel_leaves (w : world) :
  let w' := tty_runlevel w in
  names (tty_list w') = names (tty_list w) /\
  (forall n, In n (tty_list w') -> pid (data n) <> 0 ->
             ISSET (runlevels (data n)) (runlevel w) = true) /\
  (FALLBACK_SHELL = true ->
   (tty_num_active w' <> 0%nat -> fallback w' = 0) /\
   (tty_num_active w' = 0%nat -> fallback w = 0 ->
    exists t, trace w' = t ++ [Fork_shell] /\ fallback w' = spawn (trace w'))).
Proof.
  cbv zeta. unfold tty_runlevel.
  pose proof (action_all_names w (tty_list w) (trace w)) as N.
  pose proof (action_all_nodes w (tty_list w) (trace w)) as A.
  destruct (action_all w (tty_list w) (trace w)) as [l t]. cbn [fst] in N, A.
  set (w1 := with_trace t (with_list l w)).
  assert (L : forall lost, tty_list (snd (tty_fallback lost w1)) = l)
    by (intros lost; now rewrite tty_fallback_list).
  rewrite L. split; [exact N|]. split; [exact A|].
  intros FB.
  assert (NA : forall lost,
             tty_num_active (snd (tty_fallback lost w1)) = tty_num_active w1)
    by (intros lost; unfold tty_num_active; now rewrite tty_fallback_list).
  rewrite NA.
  destruct (Nat.ltb_spec 0 (tty_num_active w1)) as [Hact|Hact].
  - split; [|lia]. intros _. unfold tty_fallback. rewrite FB.
    cbn [Z.eqb Pos.eqb]. now destruct (Z.eqb_spec (fallback w1) 0).
  - split; [lia|]. intros _ F0. unfold tty_fallback. rewrite FB.
    assert (fallback w1 = 0) as -> by exact F0.
    assert (tty_num_active w1 = 0%nat) as -> by lia.
    cbn [Z.eqb Nat.eqb negb orb snd trace fallback].
    now exists (trace w1).
Qed.

(** The action on a TTY that does not run: at most one call, a spawn. *)
Lemma tty_action_stopped (n : tty_node_t) (w : world) (t : list call) :
  pid (data n) = 0 ->
  exists calls,
    snd (tty_action n w t) = t ++ calls /\
    (List.length calls <= 1)%nat /\
    (forall c, In c calls ->
       (exists dev b tm nc nw rl, c = Run_getty dev b tm nc nw rl) \/
       (exists dev cm ar nc nw rl, c = Run_getty2 dev cm ar nc nw rl)) /\
    (calls = [] -> pid (data (fst (tty_action n w t))) = 0) /\
    (calls <> [] -> pid (data (fst (tty_action n w t))) = spawn (t ++ calls)).
Proof.
  intros P.
  assert (Quiet : forall tty, pid tty = 0 ->
            exists calls : list call,
              t = t ++ calls /\ (List.length calls <= 1)%nat /\
              (forall c, In c calls ->
                 (exists dev b tm nc nw rl, c = Run_getty dev b tm nc nw rl) \/
                 (exists dev cm ar nc nw rl,
                     c = Run_getty2 dev cm ar nc nw rl)) /\
              (calls = [] -> pid tty = 0) /\
              (calls <> [] -> pid tty = spawn (t ++ calls))).
  { intros tty Htty. exists []. rewrite app_nil_r.
    split; [reflexivity|]. split; [cbn; lia|]. split; [intros c []|].
    split; [intros _; exact Htty | intros H; now contradiction H]. }
  unfold tty_action.
  destruct (tty_enabled (Some (data n)) w =? 0).
  - unfold tty_stop. rewrite P. cbn [Z.eqb fst snd data]. now apply Quiet.
  - unfold tty_start. rewrite P. cbn [Z.eqb negb].
    destruct (canonicalize (Some (name (data n)))) as [dev|];
      [|cbn [fst snd data]; now apply Quiet].
    destruct (negb (tty_exist dev =? 0));
      [cbn [fst snd data]; now apply Quiet|].
    destruct (cmd (data n)) as [c|]; eexists; cbn [fst snd data set_pid pid];
      (split; [reflexivity|]); (split; [cbn; lia|]);
      (split; [|split; [discriminate | reflexivity]]);
      intros x [<- | []].
    + right. now repeat eexists.
    + left. now repeat eexists.
Qed.

(** X19. [tty_respawn] for the pid of a registered TTY returns 1, marks
    the utmp entry dead, and then starts the TTY again if it is enabled
    and its device is there: it makes at most one more call, a spawn, and
    sends no signal; the other nodes stay as they are, and the node is
    left with pid 0 or with the pid of the new process. *)
Theorem tty_respawn_restarts (p : Z) (w : world) (i : nat) :
  tty_find_by_pid p w = Some i ->
  let w' := snd (tty_respawn p w) in
  fst (tty_respawn p w) = 1 /\
  names (tty_list w') = names (tty_list w) /\
  (forall j, j <> i -> nth_error (tty_list w') j = nth_error (tty_list w) j) /\
  exists calls n',
    trace w' = trace w ++ Utmp_set_dead p :: calls /\
    (List.length calls <= 1)%nat /\
    (forall q sig, ~ In (Kill q sig) calls) /\
    nth_error (tty_list w') i = Some n' /\
    (pid (data n') = 0 \/ pid (data n') = spawn (trace w')).
Proof.
  intros F. cbv zeta. unfold tty_respawn. rewrite F.
  destruct (find_index_some _ _ _ F) as (n & Hn & _). rewrite Hn.
  set (n0 := mk_node (set_pid 0 (data n)) (dirty n)).
  set (t0 := trace w ++ [Utmp_set_dead p]).
  destruct (tty_action_stopped n0 w t0 eq_refl) as (calls & T & Len & K & Z0 & Z1).
  pose proof (tty_action_fields n0 w t0) as (Hname & _).
  destruct (tty_action n0 w t0) as [n' t'] eqn:A. cbn [fst snd] in *.
  cbn [tty_list trace with_list with_trace].
  split; [reflexivity|]. split.
  { unfold names. apply update_nth_map. intros x Hx.
    rewrite Hn in Hx. injection Hx as <-. exact Hname. }
  split.
  { intros j Hj. apply nth_update_nth_other. congruence. }
  exists calls, n'. subst t'. unfold t0. rewrite <- app_assoc. cbn [app].
  split; [reflexivity|]. split; [exact Len|]. split.
  - intros q sig Hin.
    destruct (K _ Hin) as [(? & ? & ? & ? & ? & ? & E)
                          |(? & ? & ? & ? & ? & ? & E)]; discriminate.
  - split; [exact (nth_update_nth_same (fun _ => n') _ _ _ Hn)|].
    destruct calls as [|c calls]; [left; now apply Z0|].
    right. rewrite Z1 by discriminate. unfold t0.
    now rewrite <- app_assoc.
Qed.

(** X20. [tty_reload] for a device that is not registered changes
    nothing.  For a registered device it works on the node of that device
    only: the others stay as they are, the node keeps its name, is not
    dirty afterwards, and runs only if it is enabled at the runlevel. *)
Theorem tty_reload_one_device (dev : string) (w : world) :
  match tty_find dev w with
  | None => tty_reload (Some dev) w = w
  | Some i =>
      let w' := tty_reload (Some dev) w in
      names (tty_list w') = names (tty_list w) /\
      (forall j, j <> i ->
                 nth_error (tty_list w') j = nth_error (tty_list w) j) /\
      exists n',
        nth_error (tty_list w') i = Some n' /\
        name (data n') = dev /\ dirty n' = 0 /\
        (pid (data n') <> 0 ->
         ISSET (runlevels (data n')) (runlevel w) = true)
  end.
Proof.
  unfold tty_reload. destruct (tty_find dev w) as [i|] eqn:F; [|reflexivity].
  cbv zeta. unfold tty_find in F.
  destruct (find_index_some _ _ _ F) as (n & Hn & Hd).
  apply String.eqb_eq in Hd. rewrite Hn.
  pose proof (tty_action_fields n w (trace w)) as (Hname & Hrl & _).
  pose proof (tty_action_enabled n w (trace w)) as He.
  destruct (tty_action n w (trace w)) as [n' t']. cbn [fst] in *.
  cbn [tty_list with_list with_trace]. split.
  { unfold names. apply update_nth_map. intros x Hx.
    rewrite Hn in Hx. injection Hx as <-. exact Hname. }
  split.
  { intros j Hj. apply nth_update_nth_other. congruence. }
  exists (set_dirty 0 n').
  split; [exact (nth_update_nth_same (fun _ => set_dirty 0 n') _ _ _ Hn)|].
  cbn [set_dirty data dirty]. split; [congruence|]. split; [reflexivity|].
  rewrite Hrl. exact He.
Qed.

(** *** The fields of a line *)

(** The three tests of [tty_register] for a device, and the test for a
    baud rate. *)
Definition device_like (a : string) : bool :=
  String.eqb a "@console" || strncmp_eq a "/dev" 4 || strncmp_eq a "tty" 3.

Definition digit_led (a : string) : bool :=
  match head a with Some c => isdigit c | None => false end.

(** The last argument of a list that begins with a digit, and the last
    argument of a list if it does not begin with one. *)
Definition last_digit_led (l : list string) (d : option string)
  : option string :=
  fold_left (fun acc a => if digit_led a then Some a else acc) l d.

Definition term_of (l : list string) : option string :=
  match rev l with
  | a :: _ => if digit_led a then None else Some a
  | [] => None
  end.

Lemma device_like_no_bracket (a : string) :
  device_like a = true -> starts_with_char "[" a = false.
Proof.
  unfold device_like, starts_with_char. destruct a as [|c a]; [reflexivity|].
  cbn [head]. destruct (Ascii.eqb_spec c "[") as [->|]; [|reflexivity].
  discriminate.
Qed.

Lemma device_like_dev (a : string) (d : option string) :
  (if strncmp_eq a "tty" 3 then Some a
   else if strncmp_eq a "/dev" 4 then Some a
        else if String.eqb a "@console" then Some a else d)
  = if device_like a then Some a else d.
Proof.
  unfold device_like.
  now destruct (strncmp_eq a "tty" 3), (strncmp_eq a "/dev" 4),
    (String.eqb a "@console").
Qed.

Lemma scan_before_device (line : string) (num : nat) (pre tail : list string)
      (i : nat) (st : parsed) :
  p_dev st = None -> p_cmd st = None ->
  (forall a, In a pre -> device_like a = false /\ access_x a = false) ->
  scan_args line num i (pre ++ tail) st
  = scan_args line num (i + List.length pre) tail
      (mk_parsed None None (p_baud st) (p_term st)
         (if existsb (starts_with_char "[") pre then Some line
          else p_runlevels st)).
Proof.
  revert i st. induction pre as [|a pre IH]; intros i st Hd Hc H.
  - cbn [app List.length existsb]. rewrite Nat.add_0_r.
    destruct st as [d c b t r]. cbn in *. now subst.
  - cbn [app scan_args]. destruct (H a (or_introl eq_refl)) as [Da Xa].
    unfold scan_arg at 1. rewrite Hd, Hc. cbn [is_some negb andb].
    rewrite device_like_dev, Da, Xa.
    rewrite IH; [|reflexivity|reflexivity|intros b Hb; apply H; now right].
    cbn [List.length existsb p_baud p_term p_runlevels].
    replace (S i + List.length pre)%nat with (i + S (List.length pre))%nat
      by lia.
    now destruct (starts_with_char "[" a),
      (existsb (starts_with_char "[") pre).
Qed.

Lemma term_of_cons (a : string) (l : list string) :
  l <> [] -> term_of (a :: l) = term_of l.
Proof.
  intros H. unfold term_of. cbn [rev].
  destruct (rev l) as [|b r] eqn:E; [|reflexivity].
  apply (f_equal (@rev string)) in E. rewrite rev_involutive in E.
  now subst.
Qed.

Lemma scan_after_device (line : string) (num : nat) (rest : list string)
      (i : nat) (st : parsed) (d : string) :
  p_dev st = Some d -> p_cmd st = None -> p_term st = None ->
  (i + List.length rest = num)%nat ->
  scan_args line num i rest st
  = mk_parsed (Some d) None (last_digit_led rest (p_baud st))
              (term_of rest) (p_runlevels st).
Proof.
  revert i st. induction rest as [|a rest IH]; intros i st Hd Hc Ht Hn.
  - destruct st as [d' c b t r]. cbn in *. now subst.
  - cbn [scan_args]. unfold scan_arg at 1. rewrite Hd, Hc.
    cbn [is_some negb andb]. fold (digit_led a).
    unfold last_digit_led. cbn [fold_left]. fold (last_digit_led rest).
    cbn [List.length] in Hn.
    destruct (digit_led a) eqn:Da.
    + destruct rest as [|b rest].
      * cbn. unfold term_of. cbn. now rewrite Da, Ht.
      * rewrite term_of_cons by discriminate.
        now rewrite (IH (S i)); [|reflexivity|reflexivity|exact Ht|lia].
    + destruct rest as [|b rest].
      * cbn [List.length] in Hn.
        assert ((i + 1 =? num)%nat = true) as -> by (apply Nat.eqb_eq; lia).
        cbn. unfold term_of. cbn. now rewrite Da.
      * cbn [List.length] in Hn.
        assert ((i + 1 =? num)%nat = false) as -> by (apply Nat.eqb_neq; lia).
        rewrite term_of_cons by discriminate.
        now rewrite (IH (S i)); [|reflexivity|reflexivity|exact Ht|
                                 cbn [List.length]; lia].
Qed.

(** X26. The second loop of [tty_register] on a line for the built-in
    getty, where no argument is an executable file: the device is the
    first argument that is [@console] or begins with [/dev] or [tty]; of
    the arguments behind it the last one that begins with a digit is the
    baud rate, and the very last one is [TERM] unless it begins with a
    digit; the runlevels are given when an argument before the device
    begins with a bracket. *)
Theorem builtin_line_fields (line : string) (pre rest : list string)
        (dev : string) :
  (forall a, In a pre -> device_like a = false /\ access_x a = false) ->
  device_like dev = true -> access_x dev = false ->
  scan_args line (List.length (pre ++ dev :: rest)) 0 (pre ++ dev :: rest)
            (mk_parsed None None None None None)
  = mk_parsed (Some dev) None (last_digit_led rest None) (term_of rest)
              (if existsb (starts_with_char "[") pre then Some line
               else None).
Proof.
  intros Hpre Hdev Hx.
  rewrite scan_before_device by (try reflexivity; exact Hpre).
  cbn [scan_args p_baud p_term p_runlevels Nat.add].
  unfold scan_arg at 1. cbn [p_dev p_cmd is_some negb andb p_runlevels
                             p_baud p_term].
  rewrite device_like_dev, Hdev, Hx, (device_like_no_bracket dev Hdev).
  rewrite (scan_after_device _ _ rest _ _ dev); try reflexivity.
  rewrite length_app. cbn [List.length]. lia.
Qed.

(** *** The arguments of an external getty *)

(** The argument vector that [execv] sees in an array: the strings
    before the first [NULL]. *)
Fixpoint argv (a : list (option string)) : list string :=
  match a with
  | Some s :: a' => s :: argv a'
  | _ => []
  end.

Lemma set_nth_length {A} (i : nat) (v : A) (a : list A) :
  List.length (set_nth i v a) = List.length a.
Proof.
  revert i. induction a as [|x a IH]; intros [|i]; cbn; auto.
Qed.

Lemma set_nth_split {A} (i : nat) (v : A) (a : list A) :
  (i < List.length a)%nat ->
  set_nth i v a = firstn i a ++ v :: skipn (S i) a.
Proof.
  revert i. induction a as [|x a IH]; intros [|i] H; cbn in *;
    try lia; [reflexivity|].
  f_equal. apply IH. lia.
Qed.

Lemma store_from_split {A} (vs : list A) (j : nat) (a : list A) :
  (j + List.length vs <= List.length a)%nat ->
  store_from j vs a = firstn j a ++ vs ++ skipn (j + List.length vs) a.
Proof.
  revert j a. induction vs as [|v vs IH]; intros j a H; cbn [store_from].
  - cbn [List.length app]. rewrite Nat.add_0_r. symmetry.
    apply firstn_skipn.
  - cbn [List.length] in H.
    rewrite IH by (rewrite set_nth_length; lia).
    rewrite set_nth_split by lia.
    rewrite firstn_app, firstn_firstn.
    replace (Nat.min (S j) j) with j by lia.
    rewrite firstn_length_le by lia.
    replace (S j - j)%nat with 1%nat by lia. cbn [firstn].
    rewrite <- app_assoc. cbn [app List.length]. f_equal. f_equal. f_equal.
    rewrite skipn_app, firstn_length_le by lia.
    rewrite skipn_all2 by (rewrite firstn_length_le; lia).
    cbn [app].
    replace (S j + List.length vs - j)%nat with (S (List.length vs)) by lia.
    rewrite skipn_cons, skipn_skipn. f_equal. lia.
Qed.

(** The argument array that [tty_register] leaves for an external
    getty. *)
Lemma fill_node_args (dev cmd : string) (a : list string) (nc nw : Z)
      (st : parsed) (rl : rlimit_t) (file : option string)
      (entry : tty_node_t) :
  p_cmd st = Some cmd ->
  (2 <= List.length a < TTY_MAX_ARGS)%nat ->
  List.length (args (data entry)) = TTY_MAX_ARGS ->
  let old := args (data entry) in
  let num := List.length a in
  args (data (fill_node dev a nc nw st rl file entry))
  = (Some (match strrchr cmd "/" with
           | Some tail => advance 1 tail
           | None => cmd
           end) :: map Some (skipn 2 a))
    ++ firstn 1 (skipn (num - 1) old) ++ None :: skipn (S num) old.
Proof.
  intros Hc Hn Ho. cbv zeta. unfold fill_node. rewrite Hc.
  cbn [data args]. rewrite set_nth_length.
  set (tok := match strrchr cmd "/" with
              | Some tail => advance 1 tail
              | None => cmd
              end).
  set (old := args (data entry)) in *.
  assert (V : map Some (firstn (List.length a - 1) (skipn 1 (set_nth 1 tok a)))
              = Some tok :: map Some (skipn 2 a)).
  { destruct a as [|x0 [|x1 r]]; cbn [List.length] in Hn; try lia.
    cbn [set_nth List.length].
    replace (S (S (List.length r)) - 1)%nat with (S (List.length r)) by lia.
    rewrite !skipn_cons, skipn_0, firstn_cons, firstn_all. reflexivity. }
  rewrite V. clear V.
  assert (Lv : List.length (Some tok :: map Some (skipn 2 a))
               = (List.length a - 1)%nat)
    by (cbn [List.length]; rewrite length_map, length_skipn; lia).
  set (vs := Some tok :: map Some (skipn 2 a)) in *.
  set (num := List.length a) in *.
  replace (Nat.max 1 num) with num by lia.
  rewrite store_from_split by (rewrite Lv; lia).
  change (firstn 0 old) with (@nil (option string)).
  rewrite Nat.add_0_l, Lv, app_nil_l.
  rewrite set_nth_split by (rewrite length_app, length_skipn, Lv; lia).
  rewrite firstn_app, skipn_app, Lv.
  rewrite (firstn_all2 (n := num)) by (rewrite Lv; lia).
  rewrite (skipn_all2 (n := S num)) by (rewrite Lv; lia).
  replace (num - (num - 1))%nat with 1%nat by lia.
  replace (S num - (num - 1))%nat with 2%nat by lia.
  rewrite skipn_skipn, app_nil_l, <- app_assoc.
  replace (2 + (num - 1))%nat with (S num) by lia.
  reflexivity.
Qed.

Lemma skipn_repeat {A} (x : A) (k n : nat) :
  skipn k (repeat x n) = repeat x (n - k).
Proof.
  revert k. induction n as [|n IH]; intros [|k]; cbn [repeat Nat.sub skipn];
    try reflexivity. apply IH.
Qed.

Lemma argv_some (l : list string) (a : list (option string)) :
  argv (map Some l ++ None :: a) = l.
Proof. induction l as [|x l IH]; cbn; [reflexivity | now rewrite IH]. Qed.

Lemma line_fill_argv (line dev cmd : string) (rl : rlimit_t)
        (file : option string) (entry : tty_node_t)
        (a : list string) (nc nw : Z) (st : parsed) :
  parse_line line = (a, nc, nw, st) ->
  p_cmd st = Some cmd ->
  (2 <= List.length a < TTY_MAX_ARGS)%nat ->
  List.length (args (data entry)) = TTY_MAX_ARGS ->
  let base := match strrchr cmd "/" with
              | Some tail => advance 1 tail
              | None => cmd
              end in
  argv (args (data (line_fill line dev rl file calloc_node)))
  = base :: skipn 2 a /\
  argv (args (data (line_fill line dev rl file entry)))
  = base :: skipn 2 a ++
    match nth_error (args (data entry)) (List.length a - 1) with
    | Some (Some stale) => [stale]
    | _ => []
    end.
Proof.
  intros Hp Hc Hn Ho. cbv zeta. unfold line_fill. rewrite Hp. split.
  - rewrite (fill_node_args dev cmd a nc nw st rl file calloc_node Hc Hn)
      by (cbn; apply repeat_length).
    cbv zeta. cbn [calloc_node data args].
    change (Some ?x :: map Some ?l) with (map Some (x :: l)).
    assert (R : firstn 1 (skipn (List.length a - 1) (repeat None TTY_MAX_ARGS))
                = [@None string]).
    { rewrite skipn_repeat.
      destruct (TTY_MAX_ARGS - (List.length a - 1))%nat eqn:E; [lia|].
      reflexivity. }
    rewrite R. cbn [app]. apply argv_some.
  - rewrite (fill_node_args dev cmd a nc nw st rl file entry Hc Hn Ho).
    cbv zeta. set (old := args (data entry)) in *.
    assert (exists o, nth_error old (List.length a - 1) = Some o
                      /\ firstn 1 (skipn (List.length a - 1) old) = [o])
      as (o & No & Fo).
    { destruct (nth_error old (List.length a - 1)) as [o|] eqn:E.
      - exists o. split; [reflexivity|].
        apply nth_error_split in E as (l1 & l2 & -> & L).
        rewrite <- L, skipn_app, Nat.sub_diag, skipn_all. reflexivity.
      - apply nth_error_None in E. lia. }
    rewrite No, Fo. cbn [app].
    destruct o as [stale|].
    + change (Some ?x :: map Some ?l ++ Some stale :: ?t)
        with (map Some (x :: l) ++ Some stale :: t).
      replace (map Some (_ :: skipn 2 a) ++ Some stale :: None :: skipn _ old)
        with (map Some ((match strrchr cmd "/" with
                         | Some tail => advance 1 tail
                         | None => cmd
                         end :: skipn 2 a) ++ [stale])
              ++ None :: skipn (S (List.length a)) old)
        by (rewrite map_app, <- app_assoc; reflexivity).
      rewrite argv_some. reflexivity.
    + change (Some ?x :: map Some ?l ++ None :: ?t)
        with (map Some (x :: l) ++ None :: t).
      rewrite argv_some. now rewrite app_nil_r.
Qed.

(** X27. For an external getty [tty_register] stores, from index 0 on,
    the base name of the command and then the arguments from the third
    one on: the second argument is replaced by the base name, wherever the
    command stood.  It puts [NULL] behind the slot that follows them and
    leaves that slot as it was: in a new node the argument vector ends
    there, in a node registered before it goes on with the string the slot
    held. *)
Theorem external_getty_argv (line dev cmd : string) (rl : rlimit_t)
        (file : option string) (w : world)
        (a : list string) (nc nw : Z) (st : parsed) :
  parse_line line = (a, nc, nw, st) ->
  p_cmd st = Some cmd ->
  device_of line = Some dev ->
  (2 <= List.length a < TTY_MAX_ARGS)%nat ->
  let base := match strrchr cmd "/" with
              | Some tail => advance 1 tail
              | None => cmd
              end in
  let w' := snd (tty_register (Some line) rl file w) in
  match tty_find dev w with
  | None =>
      exists n', tty_list w' = n' :: tty_list w /\
                 argv (args (data n')) = base :: skipn 2 a
  | Some i =>
      forall n, nth_error (tty_list w) i = Some n ->
                List.length (args (data n)) = TTY_MAX_ARGS ->
      exists n', nth_error (tty_list w') i = Some n' /\
                 argv (args (data n'))
                 = base :: skipn 2 a ++
                   match nth_error (args (data n)) (List.length a - 1) with
                   | Some (Some stale) => [stale]
                   | _ => []
                   end
  end.
Proof.
  intros Hp Hc Hd Hn. cbv zeta. rewrite tty_register_eq, Hd.
  destruct (tty_find dev w) as [i|]; cbn [snd tty_list with_list].
  - intros n Hi Hl. exists (line_fill line dev rl file n).
    split; [now apply nth_update_nth_same|].
    exact (proj2 (line_fill_argv line dev cmd rl file n a nc nw st
                                 Hp Hc Hn Hl)).
  - eexists. split; [reflexivity|].
    refine (proj1 (line_fill_argv line dev cmd rl file calloc_node a nc nw st
                                  Hp Hc Hn _)).
    cbn. apply repeat_length.
Qed.

End Registry.

(** ** A small system to run the registry on

    Two serial lines exist as character devices, nothing is executable as
    a getty of its own, no file of the configuration has changed, and a
    TTY is enabled at a runlevel when its runlevels have that bit, which
    the lines of the example have for the runlevels 2 to 5. *)

Definition ex_isset (v b : Z) : bool := Z.testbit v b.
Definition ex_runlevels (s : option string) : Z := 60.
Definition ex_changed (f : string) : bool := false.

Definition ex_stat (path : string) : option bool :=
  if String.eqb path "/dev/ttyS0" || String.eqb path "/dev/ttyS1"
  then Some true else None.

Definition ex_access (path : string) : bool := false.
Definition ex_open (path : string) : bool := true.
Definition ex_tcgetattr (path : string) : Z := 0.
Definition ex_spawn (t : list call) : Z := 1000 + Z.of_nat (List.length t).

Definition ex_conf : list tty_conf :=
  [mk_conf "/dev/ttyS0 115200 vt100" [] (Some "/etc/finit.conf");
   mk_conf "ttyS1 noclear 9600" [] (Some "/etc/finit.d/serial.conf")].

Definition ex_boot : world := mk_world [] 2 0 [].

Definition ex_reload : list tty_conf -> world -> world :=
  reload 16 ex_isset ex_runlevels ex_changed ex_stat None ex_access
         ex_open ex_tcgetattr ex_spawn.

Definition ex_register :=
  tty_register 16 ex_runlevels ex_changed ex_stat None ex_access.

Example ex_first_reload :
  map (fun n => (name (data n), pid (data n), dirty n))
      (tty_list (ex_reload ex_conf ex_boot))
  = [("/dev/ttyS1", 1001, 0); ("/dev/ttyS0", 1002, 0)].
Proof. reflexivity. Qed.

Example ex_second_reload :
  map (fun n => (name (data n), pid (data n), dirty n))
      (tty_list (ex_reload ex_conf (ex_reload ex_conf ex_boot)))
  = [("/dev/ttyS1", 1001, 0); ("/dev/ttyS0", 1002, 0)] /\
  trace (ex_reload ex_conf (ex_reload ex_conf ex_boot))
  = trace (ex_reload ex_conf ex_boot).
Proof. split; reflexivity. Qed.

Definition ex_getty : finit_tty_t :=
  mk_tty "/dev/ttyS0" (Some "115200") (Some "vt100") 0 0 60 None [] [] 1002.

Lemma tty_stop_kills_at_once_witness :
  tty_stop ex_getty [] =
    (set_pid 0 ex_getty, [Kill 1002 SIGKILL; Waitpid 1002]) /\
  tty_stop (set_pid 0 ex_getty) [] = (set_pid 0 ex_getty, []).
Proof.
  split.
  - apply (proj1 (tty_stop_kills_at_once ex_getty [])). discriminate.
  - apply (proj2 (tty_stop_kills_at_once (set_pid 0 ex_getty) [])).
    reflexivity.
Defined.

Lemma tty_reload_unchanged_keeps_pid_witness :
  let w1 := ex_reload ex_conf ex_boot in
  let w2 := ex_reload ex_conf w1 in
  names (tty_list w2) = names (tty_list w1) /\
  (forall i n, nth_error (tty_list w1) i = Some n -> pid (data n) <> 0 ->
     exists n', nth_error (tty_list w2) i = Some n' /\
                name (data n') = name (data n) /\
                pid (data n') = pid (data n)) /\
  (forall p sig, ~ In (Kill p sig) (calls_since w1 w2)).
Proof.
  pose proof (tty_reload_unchanged_keeps_pid
                16 ex_isset ex_runlevels ex_changed false ex_stat None
                ex_access ex_open ex_tcgetattr ex_spawn)
    as (_ & _ & _ & _ & Twice).
  apply (Twice ex_conf ex_boot).
  - constructor.
  - intros c [<- | [<- | []]]; reflexivity.
Defined.

Lemma tty_registry_one_node_per_device_witness :
  let w1 := ex_reload ex_conf ex_boot in
  tty_num (snd (ex_register (Some "/dev/ttyS0 38400") [] None w1)) = tty_num w1 /\
  tty_num (snd (ex_register (Some "ttyS7 38400") [] None w1)) = S (tty_num w1) /\
  S (tty_num (snd (tty_unregister (Some 0%nat) w1))) = tty_num w1.
Proof.
  pose proof (tty_registry_one_node_per_device
                16 ex_isset ex_runlevels ex_changed false ex_stat None
                ex_access ex_open ex_tcgetattr ex_spawn)
    as (_ & Reg & _ & _ & Unreg).
  cbv zeta. split; [|split].
  - exact (proj2 (Reg "/dev/ttyS0 38400" [] None
                      (ex_reload ex_conf ex_boot) "/dev/ttyS0" eq_refl)).
  - exact (proj2 (Reg "ttyS7 38400" [] None
                      (ex_reload ex_conf ex_boot) "/dev/ttyS7" eq_refl)).
  - apply (Unreg 0%nat (ex_reload ex_conf ex_boot)). vm_compute. lia.
Defined.

(** ** The registry of the example, once more *)

Lemma canonicalize_fits_witness :
  canonicalize ex_stat None (Some "ttyS0") = Some "/dev/ttyS0" /\
  (String.length "/dev/ttyS0" <= 79)%nat /\
  ex_stat "/dev/ttyS0" <> Some false.
Proof.
  split; [reflexivity|].
  apply (canonicalize_fits ex_stat None (Some "ttyS0")). reflexivity.
Defined.

(** The console is [ttyS0]: [@console] gives [/dev/ttyS0], which gives
    itself. *)
Lemma canonicalize_again_witness :
  canonicalize ex_stat (Some (Some "ttyS0")) (Some "@console")
  = Some "/dev/ttyS0" /\
  canonicalize ex_stat (Some (Some "ttyS0")) (Some "/dev/ttyS0")
  = Some "/dev/ttyS0".
Proof.
  split; [reflexivity|].
  apply (canonicalize_again ex_stat (Some (Some "ttyS0")) (Some "@console")).
  reflexivity.
Defined.

Lemma tty_register_needs_device_witness :
  ex_register (Some "noclear  nowait") [] None ex_boot = (EINVAL, ex_boot) /\
  ex_register (Some "") [] None ex_boot = (EINVAL, ex_boot).
Proof.
  split.
  - apply (tty_register_needs_device
             16 ex_runlevels ex_changed ex_stat None ex_access
             "noclear  nowait" [] None ex_boot).
    intros tok H. vm_compute in H.
    destruct H as [<- | [<- | []]]; [now left | now right].
  - apply (tty_register_needs_device
             16 ex_runlevels ex_changed ex_stat None ex_access
             "" [] None ex_boot).
    intros tok [].
Defined.

(** The getty on [/dev/ttyS0], the second node, has ended. *)
Lemma tty_respawn_restarts_witness :
  let w := ex_reload ex_conf ex_boot in
  let w' := snd (tty_respawn ex_isset false ex_stat None ex_open
                             ex_tcgetattr ex_spawn 1002 w) in
  fst (tty_respawn ex_isset false ex_stat None ex_open
                   ex_tcgetattr ex_spawn 1002 w) = 1 /\
  names (tty_list w') = names (tty_list w) /\
  (forall j, j <> 1%nat ->
             nth_error (tty_list w') j = nth_error (tty_list w) j) /\
  exists calls n',
    trace w' = trace w ++ Utmp_set_dead 1002 :: calls /\
    (List.length calls <= 1)%nat /\
    (forall q sig, ~ In (Kill q sig) calls) /\
    nth_error (tty_list w') 1 = Some n' /\
    (pid (data n') = 0 \/ pid (data n') = ex_spawn (trace w')).
Proof.
  exact (tty_respawn_restarts ex_isset false ex_stat None ex_open
           ex_tcgetattr ex_spawn 1002 (ex_reload ex_conf ex_boot) 1%nat
           eq_refl).
Defined.

Example ex_respawn :
  let w := ex_reload ex_conf ex_boot in
  let w' := snd (tty_respawn ex_isset false ex_stat None ex_open
                             ex_tcgetattr ex_spawn 1002 w) in
  map (fun n => (name (data n), pid (data n))) (tty_list w')
  = [("/dev/ttyS1", 1001); ("/dev/ttyS0", 1004)] /\
  calls_since w w'
  = [Utmp_set_dead 1002;
     Run_getty "/dev/ttyS0" (Some "115200") (Some "vt100") 0 0 []].
Proof. split; reflexivity. Qed.

Lemma builtin_line_fields_witness :
  scan_args ex_access "[2345]" 4 0
            ["[2345]"; "/dev/ttyS0"; "115200"; "vt100"]
            (mk_parsed None None None None None)
  = mk_parsed (Some "/dev/ttyS0") None (Some "115200") (Some "vt100")
              (Some "[2345]").
Proof.
  apply (builtin_line_fields ex_access "[2345]" ["[2345]"] ["115200"; "vt100"]
                             "/dev/ttyS0").
  - intros a [<- | []]. now split.
  - reflexivity.
  - reflexivity.
Defined.

(** [/sbin/getty] is an executable file. *)
Definition ex_access_getty (path : string) : bool :=
  String.eqb path "/sbin/getty".

Lemma external_getty_argv_witness :
  exists n',
    tty_list (snd (tty_register 16 ex_runlevels ex_changed ex_stat None
                                ex_access_getty
                                (Some "[2345] /sbin/getty -L ttyS0 115200 vt100")
                                [] None ex_boot))
    = n' :: tty_list ex_boot /\
    argv (args (data n')) = ["getty"; "-L"; "ttyS0"; "115200"; "vt100"].
Proof.
  apply (external_getty_argv
           16 ex_runlevels ex_changed ex_stat None ex_access_getty
           "[2345] /sbin/getty -L ttyS0 115200 vt100" "/dev/ttyS0"
           "/sbin/getty" [] None ex_boot
           ["[2345]"; "/sbin/getty"; "-L"; "ttyS0"; "115200"; "vt100"] 0 0
           (mk_parsed (Some "ttyS0") (Some "/sbin/getty") (Some "115200")
                      (Some "vt100") (Some "[2345]"))).
  - reflexivity.
  - reflexivity.
  - reflexivity.
  - cbn. lia.
Defined.

(** Without runlevels in front, the command is the first argument, and
    the argument behind it is the one that the base name replaces. *)
Example ex_getty_without_runlevels :
  map (fun n => argv (args (data n)))
      (tty_list (snd (tty_register 16 ex_runlevels ex_changed ex_stat None
                                   ex_access_getty
                                   (Some "/sbin/getty -L ttyS0 115200 vt100")
                                   [] None ex_boot)))
  = [["getty"; "ttyS0"; "115200"; "vt100"]].
Proof. reflexivity. Qed.

End Tty.

(* ================================================================== *)
(** * The login terminal, [getty.c] *)
(* ================================================================== *)

Module Getty.
Import CStr.

Definition STDOUT_FILENO : Z := 1.

(** The newline and the terminator of a C string. *)
Definition NL : ascii := ascii_of_nat 10.
Definition NUL : ascii := Ascii.zero.

(** [struct utsname] with [_GNU_SOURCE]. *)
Record utsname : Type := mk_uts {
  sysname    : string;
  nodename   : string;
  release    : string;
  version    : string;
  machine    : string;
  domainname : string
}.

(** A call [dprint(fd, s, len)]: [s] is the string the pointer points
    to. *)
Inductive call : Type :=
| Dprint (fd : Z) (s : string) (len : nat).

(** The C string in a buffer: the bytes before the first [NUL]. *)
Fixpoint cstr (buf : list ascii) : string :=
  match buf with
  | [] => EmptyString
  | c :: buf' => if Ascii.eqb c NUL then EmptyString else String c (cstr buf')
  end.

(** [*name == 0] after [*np = 0], for the bytes stored in [name]. *)
Definition blank (buf : list ascii) : bool :=
  match buf with
  | [] => true
  | c :: _ => Ascii.eqb c NUL
  end.

Section Terminal.

(** The build ([_GNU_SOURCE]), what [uname] fills in, and the lines that
    [fgets] reads from [/etc/issue], [None] when the file cannot be
    opened. *)
Variable GNU_SOURCE : bool.
Variable uts : utsname.
Variable issue : option (list string).

(** [helpers.c] is not among the sources: [written s len] stands for the
    bytes that [dprint(fd, s, len)] writes.  The callers here count on
    [len] bytes of [s], and on all of [s] when [len] is 0. *)
Variable written : string -> nat -> string.
Hypothesis written_len :
  forall s len, (0 < len)%nat -> written s len = take len s.
Hypothesis written_all : forall s, written s 0 = s.

(** The [switch] of [do_parse]: the text an escape stands for. *)
Definition escape (tty : string) (c : ascii) : option string :=
  match c with
  | "l"%char => Some tty
  | "m"%char => Some (machine uts)
  | "n"%char => Some (nodename uts)
  | "o"%char => if GNU_SOURCE then Some (domainname uts) else None
  | "r"%char => Some (release uts)
  | "s"%char => Some (sysname uts)
  | "v"%char => Some (version uts)
  | _ => None
  end.

(** [if ((s - s0) > 0) dprint(STDOUT_FILENO, s0, s - s0)] *)
Definition flush (s0 : string) (pend : nat) : list call :=
  if (0 <? pend)%nat then [Dprint STDOUT_FILENO s0 pend] else [].

(** The loop of [do_parse] with the pointer [s] on the string [s], [s0]
    on the string [s0], and [pend = s - s0].  At a backslash the text
    that is pending is written; then a known escape writes its text and
    both pointers go on behind it, the end of the line ends the loop with
    [s0] behind [s], and any other character leaves [s0] on the
    backslash, with two characters pending. *)
Fixpoint do_parse_from (tty : string) (s0 : string) (pend : nat) (s : string)
  : list call :=
  match s with
  | EmptyString => flush s0 pend
  | String c s1 =>
      if Ascii.eqb c "\" then
        flush s0 pend ++
        match s1 with
        | EmptyString => []
        | String e s2 =>
            match escape tty e with
            | Some text =>
                Dprint STDOUT_FILENO text 0 :: do_parse_from tty s2 0 s2
            | None => do_parse_from tty s 2 s2
            end
        end
      else do_parse_from tty s0 (S pend) s1
  end.

Definition do_parse (line tty : string) : list call :=
  do_parse_from tty line 0 line.

(** The initial value of [buf] in [do_issue], and the prompt. *)
Definition default_issue : string :=
  "Welcome to \s \v \n \l" ++ String NL (String NL EmptyString).

Definition login_prompt : string := "\n login: ".

Definition do_issue (tty : string) : list call :=
  match issue with
  | Some lines => flat_map (fun buf => do_parse buf tty) lines
  | None => do_parse default_issue tty
  end
  ++ do_parse login_prompt tty.

(** [get_logname] on the bytes that [read] delivers, after which it
    fails: the result, the name if the result is 0, the calls made, and
    the bytes not read.  [buf] holds the bytes stored in [name] since
    [np = name].  The store [*np = 0] goes one byte past [name] when [len]
    bytes are in it; that byte is not part of this model. *)
Fixpoint read_name (tty : string) (len : nat) (input : list ascii)
         (buf : list ascii) (out : list call)
  : Z * option string * list call * list ascii :=
  match input with
  | [] => (1, None, out, [])
  | ch :: input' =>
      if Ascii.eqb ch NL then
        if blank buf
        then read_name tty len input' [] (out ++ do_issue tty)
        else (0, Some (cstr (firstn (len - 1) buf)), out, input')
      else
        read_name tty len input'
                  (if (List.length buf <? len)%nat then buf ++ [ch] else buf)
                  out
  end.

Definition get_logname (tty : string) (len : nat) (input : list ascii)
  : Z * option string * list call * list ascii :=
  read_name tty len input [] (do_issue tty).

(** The text that a sequence of calls writes. *)
Definition text (cs : list call) : string :=
  fold_right (fun c acc =>
                match c with Dprint _ s len => (written s len ++ acc)%string end)
             EmptyString cs.

(** What [do_parse] writes for a line. *)
Definition issue_text (line tty : string) : string :=
  text (do_parse line tty).

(** ** Properties of the login terminal *)

Lemma app_assoc_str (a b c : string) :
  ((a ++ b) ++ c = a ++ b ++ c)%string.
Proof. induction a as [|x a IH]; cbn; [reflexivity | now rewrite IH]. Qed.

Lemma app_nil_str (a : string) : (a ++ "")%string = a.
Proof. induction a as [|x a IH]; cbn; [reflexivity | now rewrite IH]. Qed.

Lemma length_snoc_str (p : string) (c : ascii) :
  String.length (p ++ String c "") = S (String.length p).
Proof. induction p as [|x p IH]; cbn; [reflexivity | now rewrite IH]. Qed.

Lemma text_app (a b : list call) : text (a ++ b) = (text a ++ text b)%string.
Proof.
  unfold text. induction a as [|[fd s len] a IH]; cbn [app fold_right];
    [reflexivity|].
  rewrite IH. symmetry. apply app_assoc_str.
Qed.

Lemma take_app_length (p s : string) : take (String.length p) (p ++ s) = p.
Proof. induction p as [|a p IH]; cbn; [now destruct s | now rewrite IH]. Qed.

Lemma text_flush (p s : string) :
  text (flush (p ++ s) (String.length p)) = p.
Proof.
  unfold flush. destruct p as [|a p]; [reflexivity|].
  cbn [String.length Nat.ltb Nat.leb text fold_right].
  rewrite written_len by (cbn; lia).
  change (S (String.length p)) with (String.length (String a p)).
  rewrite take_app_length. apply app_nil_str.
Qed.

(** The text of a line with its escapes replaced. *)
Fixpoint expand (tty : string) (s : string) : string :=
  match s with
  | EmptyString => EmptyString
  | String c s1 =>
      if Ascii.eqb c "\" then
        match s1 with
        | EmptyString => EmptyString
        | String e s2 =>
            (match escape tty e with
             | Some t => t
             | None => String c (String e EmptyString)
             end ++ expand tty s2)%string
        end
      else String c (expand tty s1)
  end.

Lemma do_parse_from_text (tty : string) (n : nat) :
  forall s p, (String.length s <= n)%nat ->
    text (do_parse_from tty (p ++ s) (String.length p) s)
    = (p ++ expand tty s)%string.
Proof.
  induction n as [|n IH]; intros s p Hn.
  - destruct s; [|cbn in Hn; lia].
    cbn [do_parse_from expand]. now rewrite text_flush, app_nil_str.
  - destruct s as [|c s1].
    { cbn [do_parse_from expand]. now rewrite text_flush, app_nil_str. }
    cbn [do_parse_from expand]. cbn [String.length] in Hn.
    destruct (Ascii.eqb c "\") eqn:Ec.
    + rewrite text_app, text_flush. f_equal.
      destruct s1 as [|e s2]; [reflexivity|].
      cbn [String.length] in Hn.
      destruct (escape tty e) as [t|].
      * cbn [text fold_right]. rewrite written_all. f_equal.
        apply (IH s2 EmptyString). lia.
      * change (String c (String e s2))
          with ((String c (String e "")) ++ s2)%string.
        change 2%nat with (String.length (String c (String e ""))).
        rewrite (IH s2) by lia. reflexivity.
    + replace (p ++ String c s1)%string
        with ((p ++ String c "") ++ s1)%string
        by (now rewrite app_assoc_str).
      rewrite <- length_snoc_str with (c := c).
      rewrite (IH s1) by lia. now rewrite app_assoc_str.
Qed.

Lemma issue_text_expand (line tty : string) :
  issue_text line tty = expand tty line.
Proof.
  unfold issue_text, do_parse.
  exact (do_parse_from_text tty (String.length line) line EmptyString
                            (Nat.le_refl _)).
Qed.

Lemma expand_plain (tty pre s : string) :
  strchr pre "\" = None ->
  expand tty (pre ++ s) = (pre ++ expand tty s)%string.
Proof.
  induction pre as [|a pre IH]; cbn [strchr append]; [reflexivity|].
  destruct (Ascii.eqb a "\") eqn:E; [discriminate|]. intros H.
  cbn [expand]. now rewrite E, IH.
Qed.

(** X24. [do_parse] writes a line as it is up to its first backslash.
    A backslash with one of the letters of the [switch] behind it is
    replaced by the text that letter stands for; with any other character
    behind it both are written as they are; and a backslash at the end of
    the line is dropped.  The rest of the line is treated the same way. *)
Theorem do_parse_expands (tty pre rest : string) (e : ascii) :
  strchr pre "\" = None ->
  issue_text pre tty = pre /\
  issue_text (pre ++ "\") tty = pre /\
  issue_text (pre ++ String "\" (String e rest)) tty
  = (pre ++ match escape tty e with
            | Some t => t
            | None => String "\" (String e EmptyString)
            end ++ issue_text rest tty)%string.
Proof.
  intros H. rewrite !issue_text_expand. repeat split.
  - rewrite <- (app_nil_str pre) at 1.
    rewrite (expand_plain tty pre "" H). cbn. apply app_nil_str.
  - rewrite (expand_plain tty pre "\" H). cbn. apply app_nil_str.
  - rewrite (expand_plain tty pre _ H). reflexivity.
Qed.

(** *** Reading the login name *)

Lemma cstr_plain (l : list ascii) :
  ~ In NUL l -> cstr l = string_of_list_ascii l.
Proof.
  induction l as [|c l IH]; intros H; cbn; [reflexivity|].
  destruct (Ascii.eqb_spec c NUL) as [->|_].
  - exfalso. apply H. now left.
  - f_equal. apply IH. intros Hin. apply H. now right.
Qed.

Lemma read_name_line (tty : string) (len : nat) (line rest buf : list ascii)
      (out : list call) :
  ~ In NL line ->
  (List.length (buf ++ line) <= len)%nat ->
  read_name tty len (line ++ NL :: rest) buf out
  = read_name tty len (NL :: rest) (buf ++ line) out.
Proof.
  revert buf. induction line as [|c line IH]; intros buf Hnl Hlen.
  - now rewrite app_nil_r.
  - cbn [app read_name].
    destruct (Ascii.eqb_spec c NL) as [->|_];
      [exfalso; apply Hnl; now left|].
    rewrite length_app in Hlen. cbn [List.length] in Hlen.
    destruct (Nat.ltb_spec (List.length buf) len) as [_|Hge]; [|lia].
    rewrite IH.
    + now rewrite <- app_assoc.
    + intros Hin. apply Hnl. now right.
    + rewrite !length_app. cbn [List.length]. lia.
Qed.

Lemma read_name_blanks (tty : string) (len k : nat) (input : list ascii)
      (out : list call) :
  read_name tty len (repeat NL k ++ input) [] out
  = read_name tty len input [] (out ++ List.concat (repeat (do_issue tty) k)).
Proof.
  revert out. induction k as [|k IH]; intros out; cbn [repeat app List.concat].
  - now rewrite app_nil_r.
  - cbn [read_name blank]. rewrite Ascii.eqb_refl, IH.
    now rewrite <- app_assoc.
Qed.

(** X25. [get_logname] prints the issue and the prompt, and again for
    every empty line that is typed; it returns 0 with the first line that
    is not empty as the name, when that line is shorter than the buffer,
    and leaves what follows the line unread.  When the input ends before
    a line is complete, it returns 1. *)
Theorem get_logname_reads (tty : string) (len k : nat)
        (line rest : list ascii) :
  line <> [] -> ~ In NL line -> ~ In NUL line ->
  (List.length line < len)%nat ->
  get_logname tty len (repeat NL k ++ line ++ NL :: rest)
  = (0, Some (string_of_list_ascii line),
     List.concat (repeat (do_issue tty) (S k)), rest) /\
  get_logname tty len (repeat NL k ++ line)
  = (1, None, List.concat (repeat (do_issue tty) (S k)), []).
Proof.
  intros Hne Hnl Hnul Hlen. unfold get_logname.
  rewrite !read_name_blanks.
  assert (O : do_issue tty ++ List.concat (repeat (do_issue tty) k)
              = List.concat (repeat (do_issue tty) (S k))) by reflexivity.
  rewrite O. split.
  - rewrite read_name_line by (cbn [app]; auto; lia).
    cbn [app read_name]. rewrite Ascii.eqb_refl.
    destruct line as [|c line]; [contradiction|].
    cbn [blank].
    destruct (Ascii.eqb_spec c NUL) as [->|_];
      [exfalso; apply Hnul; now left|].
    rewrite firstn_all2 by lia. now rewrite cstr_plain.
  - assert (E : forall buf out,
               read_name tty len line buf out = (1, None, out, [])).
    { clear Hne Hnul Hlen.
      induction line as [|c line IH]; intros buf out; [reflexivity|].
      cbn [read_name].
      destruct (Ascii.eqb_spec c NL) as [->|_];
        [exfalso; apply Hnl; now left|].
      apply IH. intros Hin. apply Hnl. now right. }
    apply E.
Qed.

End Terminal.

(** ** A terminal to run the code on *)

Definition ex_uts : utsname :=
  mk_uts "Linux" "box" "6.1.0" "#1 SMP" "x86_64" "(none)".

Definition ex_written (s : string) (len : nat) : string :=
  if (0 <? len)%nat then take len s else s.

Lemma ex_written_len (s : string) (len : nat) :
  (0 < len)%nat -> ex_written s len = take len s.
Proof. intros H. unfold ex_written. now destruct len; [lia|]. Qed.

Lemma ex_written_all (s : string) : ex_written s 0 = s.
Proof. reflexivity. Qed.

Example ex_default_issue :
  text ex_written (do_issue true ex_uts None "ttyS0")
  = ("Welcome to Linux #1 SMP box ttyS0" ++ String NL (String NL "")
     ++ "box login: ")%string.
Proof. reflexivity. Qed.

Lemma do_parse_expands_witness :
  issue_text true ex_uts ex_written "Welcome to \s, \x\" "ttyS0"
  = "Welcome to Linux, \x".
Proof.
  pose proof (do_parse_expands true ex_uts ex_written ex_written_len
                ex_written_all "ttyS0" "Welcome to " ", \x\" "s" eq_refl)
    as (_ & _ & H1).
  pose proof (do_parse_expands true ex_uts ex_written ex_written_len
                ex_written_all "ttyS0" ", " "\" "x" eq_refl)
    as (_ & _ & H2).
  pose proof (do_parse_expands true ex_uts ex_written ex_written_len
                ex_written_all "ttyS0" "" "" "x" eq_refl)
    as (_ & H3 & _).
  cbn [append] in H1, H2, H3. rewrite H1, H2, H3. reflexivity.
Defined.

Lemma get_logname_reads_witness :
  get_logname true ex_uts None "ttyS0" 65
              (repeat NL 1 ++ list_ascii_of_string "root" ++ NL
                 :: list_ascii_of_string "secret")
  = (0, Some "root",
     List.concat (repeat (do_issue true ex_uts None "ttyS0") 2),
     list_ascii_of_string "secret") /\
  get_logname true ex_uts None "ttyS0" 65
              (repeat NL 1 ++ list_ascii_of_string "root")
  = (1, None, List.concat (repeat (do_issue true ex_uts None "ttyS0") 2), []).
Proof.
  apply (get_logname_reads true ex_uts None "ttyS0" 65 1
           (list_ascii_of_string "root") (list_ascii_of_string "secret")).
  - discriminate.
  - cbn. intros [H | [H | [H | [H | []]]]]; discriminate.
  - cbn. intros [H | [H | [H | [H | []]]]]; discriminate.
  - cbn. lia.
Defined.

End Getty.
